(** * Credential generation engine: a shallow embedding

    This development embeds [src/tools/credential-generator.ts] and the two
    validation helpers of the tool layer ([validatePasswordSecurity],
    [validateBatchSecurity] and the handlers that call them) and proves
    properties of the generators.

    Modelling conventions.
    - A JavaScript string is a [string]; its characters are 8-bit [ascii]
      values, read as the code units 0 to 255, so the model covers strings of
      such characters (every charset of the source is of that kind).
      Character-level work is done on [list ascii].  [toLowerCase] is exact
      on these characters; [toUpperCase] is exact on all of them but the micro
      sign and the y with diaeresis, whose capitals are not 8-bit characters,
      and the statements about upper-casing exclude these two.
    - A JavaScript number that holds a length, a count or a byte is a [Z];
      fractional lengths are outside the model (the tool schemas demand
      integers).
    - [crypto.getRandomValues] and [Date.now] read the outside world.  The
      world is an explicit state: an infinite tape of bytes with a cursor and
      an infinite tape of clock readings with a cursor.  Every theorem
      quantifies over all worlds.
      [getRandomValues] refuses more than 65536 bytes in one call.  Lengths
      are ones the engine can allocate: [new Uint8Array(n)] failing for lack
      of memory is not part of the model.
    - A thrown exception is an outcome of the computation, not a crash.
    - The [results] object of the batch keeps its properties in the order of
      a JavaScript object (array indices first, ascending, then the other
      names as created) and has the prototype slot that [__proto__] names.
    - [calculateEntropy] is double-precision arithmetic; its result is kept
      symbolic.  The metadata field [generated_at] (a wall-clock string) is
      left out of the record. *)

From Stdlib Require Import ZArith Lia Ascii String List Strings.Byte DecimalString
  Sorted.
From stdpp Require Import base list strings.

Local Open Scope Z_scope.

(** ** JavaScript strings *)

Module Js.

Definition chars (s : string) : list ascii := list_ascii_of_string s.
Definition str (l : list ascii) : string := string_of_list_ascii l.

(** [s.length] *)
Definition len (s : string) : Z := Z.of_nat (String.length s).

(** [s[i]]: [None] stands for [undefined] (index out of range, or NaN). *)
Definition index (s : string) (i : option Z) : option ascii :=
  match i with
  | Some i => if i <? 0 then None else chars s !! Z.to_nat i
  | None => None
  end.

(** [a % b] on integer operands with [a >= 0]; [None] stands for [NaN]. *)
Definition rem (a b : Z) : option Z :=
  if b =? 0 then None else Some (Z.rem a b).

(** [s.slice(0, n)] for an integer [n]. *)
Definition slice0 (s : list ascii) (n : Z) : list ascii :=
  if n <? 0 then take (length s - Z.to_nat (- n)) s else take (Z.to_nat n) s.

(** [s.slice(a, b)] for literal bounds [0 <= a <= b]. *)
Definition slice (a b : nat) (s : list ascii) : list ascii :=
  take (b - a) (drop a s).

(** String concatenation of a possibly undefined character: [r += x]. *)
Definition undefined_text : list ascii := chars "undefined".

Definition append_char (r : list ascii) (x : option ascii) : list ascii :=
  match x with
  | Some c => r ++ [c]
  | None => r ++ undefined_text
  end.

(** [String(n)] for an integer. *)
Definition of_Z (n : Z) : string := NilZero.string_of_int (Z.to_int n).

(** [Math.ceil(a / b)] for integers with [b > 0]. *)
Definition ceil_div (a b : Z) : Z := - ((- a) / b).

(** Case conversion.  A character of the model is the code unit of that
    value (Latin-1).  The letters are A-Z with a-z and, above 127, the
    accented capitals 192-214 and 216-222 with their small forms 32 higher;
    215 and 247 are the signs of multiplication and division. *)
Definition is_upper (c : ascii) : bool :=
  let n := nat_of_ascii c in
  ((65 <=? n) && (n <=? 90) ||
   (192 <=? n) && (n <=? 222) && negb (n =? 215))%nat.
Definition is_lower (c : ascii) : bool :=
  let n := nat_of_ascii c in
  ((97 <=? n) && (n <=? 122) ||
   (224 <=? n) && (n <=? 254) && negb (n =? 247))%nat.

(** The sharp s (223), whose capital is the two letters [SS]. *)
Definition sharp_s : ascii := ascii_of_nat 223.


Definition to_lower_char (c : ascii) : ascii :=
  if is_upper c then ascii_of_nat (nat_of_ascii c + 32) else c.

(** The capital of one character.  On the two characters of [wide_capital]
    the result cannot be written in the model: they are left as they are
    here, and every statement about upper-casing excludes them. *)
Definition to_upper_char (c : ascii) : list ascii :=
  if is_lower c then [ascii_of_nat (nat_of_ascii c - 32)]
  else if bool_decide (c = sharp_s) then ["S"; "S"]%char
  else [c].

(** [s.toLowerCase()], [s.toUpperCase()] *)
Definition toLowerCase (s : string) : string := str (map to_lower_char (chars s)).
Definition toUpperCase (s : string) : string :=
  str (concat (map to_upper_char (chars s))).


(** [s.replace(/c/g, '')]: every occurrence of the character is removed. *)
Definition remove_char (c : ascii) (s : list ascii) : list ascii :=
  filter (fun x => x <> c) s.

End Js.

(** ** The outside world and the generator monad *)

Record World := {
  entropy : nat -> byte;   (* the bytes the CSPRNG will deliver *)
  drawn : nat;             (* how many of them have been consumed *)
  clock : nat -> Z;        (* successive readings of [Date.now()] *)
  ticks : nat              (* how many readings have been taken *)
}.

Inductive JsError :=
| RangeError                       (* [new Uint8Array(n)] with [n < 0] *)
| QuotaExceededError               (* [getRandomValues] on more than 65536 bytes *)
| ReferenceError (ident : string)  (* call of an undeclared function *)
| Error (message : string).        (* [throw new Error(message)] *)

Inductive Outcome (A : Type) :=
| Returned (a : A)
| Thrown (e : JsError).
Arguments Returned {A} a.
Arguments Thrown {A} e.

Definition Gen (A : Type) : Type := World -> Outcome A * World.

Definition ret {A} (a : A) : Gen A := fun w => (Returned a, w).

Definition throw {A} (e : JsError) : Gen A := fun w => (Thrown e, w).

Definition bind {A B} (c : Gen A) (k : A -> Gen B) : Gen B :=
  fun w =>
    match c w with
    | (Returned a, w') => k a w'
    | (Thrown e, w') => (Thrown e, w')
    end.

Notation "x <- c ;; k" := (bind c (fun x => k))
  (at level 100, c at next level, right associativity).

(** A counted [for] loop whose body threads an accumulator. *)
Fixpoint for_loop {A} (n : nat) (body : A -> Gen A) (acc : A) : Gen A :=
  match n with
  | O => ret acc
  | S n' => acc' <- body acc ;; for_loop n' body acc'
  end.

Definition byte_value (b : byte) : Z := Z.of_N (Byte.to_N b).

(** The largest number of bytes [crypto.getRandomValues] fills in one call. *)
Definition quota : Z := 65536.

(** [getSecureRandomBytes(length)]: the next [length] bytes of the tape.
    [new Uint8Array(length)] throws on a negative length, and
    [getRandomValues] on an array of more than [quota] bytes; neither reads
    the tape. *)
Definition getSecureRandomBytes (length : Z) : Gen (list Z) :=
  fun w =>
    if length <? 0 then (Thrown RangeError, w)
    else if quota <? length then (Thrown QuotaExceededError, w)
    else
      let n := Z.to_nat length in
      (Returned (map (fun i => byte_value (entropy w (drawn w + i))) (seq 0 n)),
       {| entropy := entropy w; drawn := drawn w + n;
          clock := clock w; ticks := ticks w |}).

(** [Date.now()] *)
Definition date_now : Gen Z :=
  fun w =>
    (Returned (clock w (ticks w)),
     {| entropy := entropy w; drawn := drawn w;
        clock := clock w; ticks := S (ticks w) |}).

(** [bytes[i]] on a [Uint8Array], read inside its bounds by every caller. *)
Definition at_index (bytes : list Z) (i : nat) : Z := default 0 (bytes !! i).

(** ** Result records *)

Inductive Entropy :=
| Bits (n : Z)
| CalculateEntropy (charsetSize length : Z)
    (* [Math.floor(Math.log2(Math.pow(charsetSize, length)))], symbolic *)
| NaN
| VariesByType.

Inductive SecurityLevel :=
| Level (s : string)
| HighIfAtLeast64 (e : Entropy)    (* [e >= 64 ? 'high' : 'medium'] *)
| ByThresholds (e : Entropy).      (* [e >= 50 ? 'high' : e >= 30 ? 'medium' : 'low'] *)

Inductive Extra :=
| XNum (n : Z)
| XStr (s : string)
| XStrs (l : list string)
| XObject.

Record Metadata := {
  md_type : string;
  md_length : Z;
  md_algorithm : string;
  md_entropy_bits : Entropy;
  md_charset : option string;
  md_security_level : SecurityLevel;
  md_extra : list (string * Extra)   (* generator-specific fields, in order *)
}.

Record GenerationResult := {
  value : string;
  name : string;
  description : string;
  metadata : Metadata
}.

(** ** Core utility functions *)

Definition hex_lower : string := "0123456789abcdef".

Definition hex_digit (d : Z) : ascii :=
  default "0"%char (Js.index hex_lower (Some d)).

(** [byte.toString(16)] for a byte. *)
Definition toString16 (b : Z) : list ascii :=
  if b <? 16 then [hex_digit b] else [hex_digit (b / 16); hex_digit (b mod 16)].

(** [s.padStart(n, c)] *)
Definition padStart (n : nat) (c : ascii) (s : list ascii) : list ascii :=
  replicate (n - length s) c ++ s.

(** [bytesToHex] *)
Definition bytesToHex (bytes : list Z) : list ascii :=
  concat (map (fun b => padStart 2 "0"%char (toString16 b)) bytes).

Definition applyCase (s : string) (caseOption : option string) : string :=
  match caseOption with
  | Some "upper" => Js.toUpperCase s
  | Some "lower" => Js.toLowerCase s
  | _ => s
  end.

(** [addAffixes]: [(prefix || '') + value + (suffix || '')] *)
Definition addAffixes (v : string) (prefix suffix : option string) : string :=
  default "" prefix +:+ v +:+ default "" suffix.

Module CHARSETS.
Definition uppercase : string := "ABCDEFGHIJKLMNOPQRSTUVWXYZ".
Definition lowercase : string := "abcdefghijklmnopqrstuvwxyz".
Definition numbers : string := "0123456789".
Definition special : string := "!@#$%^&*()_+-=[]{}|;:,.<>?".
Definition special_safe : string := "!@#$%^&*_+-=".
Definition hex : string := "0123456789ABCDEF".
Definition alphanumeric : string :=
  "ABCDEFGHIJKLMNOPQRSTUVWXYZabcdefghijklmnopqrstuvwxyz0123456789".
Definition url_safe : string :=
  "ABCDEFGHIJKLMNOPQRSTUVWXYZabcdefghijklmnopqrstuvwxyz0123456789-_".
Definition ambiguous : string := "il1Lo0O".
Definition base58 : string :=
  "123456789ABCDEFGHJKLMNPQRSTUVWXYZabcdefghijkmnopqrstuvwxyz".
End CHARSETS.

(** ** UUID v4 *)

Definition dash : list ascii := ["-"%char].

Definition generateUuid4 : Gen GenerationResult :=
  bytes <- getSecureRandomBytes 16 ;;
  let bytes := <[6%nat := Z.lor (Z.land (at_index bytes 6) 0x0f) 0x40]> bytes in
  let bytes := <[8%nat := Z.lor (Z.land (at_index bytes 8) 0x3f) 0x80]> bytes in
  let hex := bytesToHex bytes in
  let uuid := Js.slice 0 8 hex ++ dash ++ Js.slice 8 12 hex ++ dash ++
              Js.slice 12 16 hex ++ dash ++ Js.slice 16 20 hex ++ dash ++
              Js.slice 20 32 hex in
  ret {| value := Js.str uuid;
         name := "uuid4";
         description := "Generated UUID4 for unique identification";
         metadata := {| md_type := "uuid4";
                        md_length := 36;
                        md_algorithm := "secure_random";
                        md_entropy_bits := Bits 122;
                        md_charset := Some "hex-with-dashes";
                        md_security_level := Level "high";
                        md_extra := [] |} |}.

(** ** Hexadecimal string *)

Definition generateHexString (length : Z) : Gen GenerationResult :=
  bytes <- getSecureRandomBytes (Js.ceil_div length 2) ;;
  let hex := Js.slice0 (bytesToHex bytes) length in
  ret {| value := Js.str hex;
         name := "hex_string";
         description := "Generated hexadecimal string";
         metadata := {| md_type := "hex_string";
                        md_length := length;
                        md_algorithm := "secure_random";
                        md_entropy_bits := Bits (length * 4);
                        md_charset := Some "hexadecimal";
                        md_security_level :=
                          Level (if 32 <=? length then "high" else "medium");
                        md_extra := [] |} |}.

(** ** Options

    The option interfaces of the source ([BaseOptions], [StringOptions],
    [PasswordOptions]) are structural and the batch passes one untyped object
    to whichever generator the entry names, so one record carries every field
    a generator reads; [None] is an absent ([undefined]) property. *)

Module Opt.
Record Options := {
  length : option Z;
  format : option string;
  prefix : option string;
  suffix : option string;
  case : option string;
  include_uppercase : option bool;
  include_lowercase : option bool;
  include_numbers : option bool;
  include_special_chars : option bool;
  exclude_chars : option string;
  custom_charset : option string;
  exclude_ambiguous : option bool;
  min_uppercase : option Z;
  min_lowercase : option Z;
  min_numbers : option Z;
  min_special : option Z;
  special_char_set : option string;
  strength : option string;
  words : option Z;
  separator : option string
}.
End Opt.

Abbreviation Options := Opt.Options.
Abbreviation StringOptions := Opt.Options.
Abbreviation PasswordOptions := Opt.Options.

(** [{}] *)
Definition no_options : Options :=
  {| Opt.length := None; Opt.format := None; Opt.prefix := None; Opt.suffix := None;
     Opt.case := None; Opt.include_uppercase := None; Opt.include_lowercase := None;
     Opt.include_numbers := None; Opt.include_special_chars := None;
     Opt.exclude_chars := None; Opt.custom_charset := None; Opt.exclude_ambiguous := None;
     Opt.min_uppercase := None; Opt.min_lowercase := None; Opt.min_numbers := None;
     Opt.min_special := None; Opt.special_char_set := None; Opt.strength := None;
     Opt.words := None; Opt.separator := None |}.

(** [x || d] on an optional number: [undefined] and [0] are falsy. *)
Definition num_or (x : option Z) (d : Z) : Z :=
  match x with
  | Some 0 | None => d
  | Some n => n
  end.

(** [x || d] on an optional string: [undefined] and [''] are falsy. *)
Definition str_or (x : option string) (d : string) : string :=
  match x with
  | Some "" | None => d
  | Some s => s
  end.

(** Truthiness of an optional string. *)
Definition truthy_str (x : option string) : bool :=
  match x with
  | Some "" | None => false
  | Some _ => true
  end.

(** [charset.slice(0, 20) + (charset.length > 20 ? '...' : '')] *)
Definition charset_preview (charset : string) : string :=
  Js.str (Js.slice 0 20 (Js.chars charset)) +:+
  (if 20 <? Js.len charset then "..." else "").

(** [charset[byte % charset.length]] *)
Definition pick (charset : string) (byte : Z) : option ascii :=
  Js.index charset (Js.rem byte (Js.len charset)).

(** The loop [for (i = 0; i < n; i++) result += charset[bytes[i] % charset.length]]. *)
Definition draw_string (charset : string) (bytes : list Z) (n : nat) : list ascii :=
  fold_left (fun r i => Js.append_char r (pick charset (at_index bytes i)))
            (seq 0 n) [].

(** ** ULID *)

Definition base32 : string := "0123456789ABCDEFGHJKMNPQRSTVWXYZ".

Definition prepend_char (x : option ascii) (r : list ascii) : list ascii :=
  match x with
  | Some c => c :: r
  | None => Js.undefined_text ++ r
  end.

(** One round of the timestamp loop, on the pair [(ulid, temp)]. *)
Definition ulid_time_step (st : list ascii * Z) : list ascii * Z :=
  (prepend_char (pick base32 (snd st)) (fst st), snd st / 32).

Definition ulid_time_part (timestamp : Z) : list ascii :=
  fst (Nat.iter 10 ulid_time_step ([], timestamp)).

Definition ulid_random_part (randomBytes : list Z) : list ascii :=
  fold_left
    (fun r i => Js.append_char r
       (pick base32 (at_index randomBytes (Z.to_nat (Z.of_nat i * 10 / 16)))))
    (seq 0 16) [].

Definition generateUlid : Gen GenerationResult :=
  timestamp <- date_now ;;
  randomBytes <- getSecureRandomBytes 10 ;;
  let ulid := ulid_time_part timestamp ++ ulid_random_part randomBytes in
  ret {| value := Js.str ulid;
         name := "ulid";
         description := "Generated ULID for time-sortable unique identification";
         metadata := {| md_type := "ulid";
                        md_length := 26;
                        md_algorithm := "timestamp+secure_random";
                        md_entropy_bits := Bits 80;
                        md_charset := Some "crockford_base32";
                        md_security_level := Level "high";
                        md_extra := [] |} |}.

(** ** Nano ID *)

Definition generateNanoId (length : option Z) : Gen GenerationResult :=
  let length := default 21 length in
  let alphabet := CHARSETS.url_safe in
  bytes <- getSecureRandomBytes length ;;
  let result := draw_string alphabet bytes (Z.to_nat length) in
  ret {| value := Js.str result;
         name := "nano_id";
         description := "Generated Nano ID for URL-safe unique identification";
         metadata := {| md_type := "nano_id";
                        md_length := length;
                        md_algorithm := "secure_random";
                        md_entropy_bits :=
                          CalculateEntropy (Js.len alphabet) length;
                        md_charset := Some "url_safe";
                        md_security_level := Level "high";
                        md_extra := [] |} |}.

(** ** Random string *)

(** The charset assembled from the options, before exclusions. *)
Definition assembled_charset (options : StringOptions) : string :=
  let charset :=
    if truthy_str (Opt.custom_charset options) then default "" (Opt.custom_charset options)
    else
      ((if bool_decide (Opt.include_uppercase options = Some false) then ""
        else CHARSETS.uppercase) +:+
       (if bool_decide (Opt.include_lowercase options = Some false) then ""
        else CHARSETS.lowercase) +:+
       (if bool_decide (Opt.include_numbers options = Some false) then ""
        else CHARSETS.numbers) +:+
       (if default false (Opt.include_special_chars options)
        then str_or (Opt.special_char_set options) CHARSETS.special_safe
        else "")) in
  if bool_decide (charset = "") then CHARSETS.alphanumeric else charset.

(** The exclusion loop: each character of [exclude_chars] is removed. *)
Definition remove_excluded (exclude : option string) (charset : string) : string :=
  if truthy_str exclude
  then Js.str (fold_left (fun cs c => Js.remove_char c cs)
                         (Js.chars (default "" exclude)) (Js.chars charset))
  else charset.

Definition final_charset (options : StringOptions) : string :=
  remove_excluded (Opt.exclude_chars options) (assembled_charset options).

Definition generateRandomString (length : Z) (options : StringOptions)
  : Gen GenerationResult :=
  let charset := final_charset options in
  bytes <- getSecureRandomBytes length ;;
  let result := Js.str (draw_string charset bytes (Z.to_nat length)) in
  let result := applyCase result (Opt.case options) in
  let result := addAffixes result (Opt.prefix options) (Opt.suffix options) in
  ret {| value := result;
         name := "random_string";
         description := "Generated random string with custom character set";
         metadata := {| md_type := "random_string";
                        md_length := Js.len result;
                        md_algorithm := "secure_random";
                        md_entropy_bits :=
                          CalculateEntropy (Js.len charset) length;
                        md_charset := Some (charset_preview charset);
                        md_security_level :=
                          HighIfAtLeast64 (CalculateEntropy (Js.len charset) length);
                        md_extra := [] |} |}.

Definition generateAlphanumeric (length : Z) : Gen GenerationResult :=
  generateRandomString length
    {| Opt.length := None; Opt.format := None; Opt.prefix := None; Opt.suffix := None;
       Opt.case := None; Opt.include_uppercase := Some true;
       Opt.include_lowercase := Some true; Opt.include_numbers := Some true;
       Opt.include_special_chars := Some false; Opt.exclude_chars := None;
       Opt.custom_charset := None; Opt.exclude_ambiguous := None;
       Opt.min_uppercase := None; Opt.min_lowercase := None; Opt.min_numbers := None;
       Opt.min_special := None; Opt.special_char_set := None; Opt.strength := None;
       Opt.words := None; Opt.separator := None |}.

(** ** Password *)

(** One entry of the [sets] array. *)
Record CharSet := { chars : string; min : Z }.

(** [s.replace(/[xy]/g, '')] when [exclude_ambiguous] holds. *)
Definition strip (exclude_ambiguous : bool) (ambiguous : list ascii) (s : string)
  : string :=
  if exclude_ambiguous
  then Js.str (fold_left (fun cs c => Js.remove_char c cs) ambiguous (Js.chars s))
  else s.

(** The destructured options, with the defaults of the source. *)
Definition special_of (options : PasswordOptions) : string :=
  default CHARSETS.special_safe (Opt.special_char_set options).

Definition upper_of (options : PasswordOptions) : string :=
  strip (default false (Opt.exclude_ambiguous options)) ["I"; "L"]%char
        CHARSETS.uppercase.
Definition lower_of (options : PasswordOptions) : string :=
  strip (default false (Opt.exclude_ambiguous options)) ["i"; "l"]%char
        CHARSETS.lowercase.
Definition nums_of (options : PasswordOptions) : string :=
  strip (default false (Opt.exclude_ambiguous options)) ["0"; "1"]%char
        CHARSETS.numbers.

(** The [sets] array: one entry per enabled class, in source order. *)
Definition password_sets (options : PasswordOptions) : list CharSet :=
  (if default true (Opt.include_uppercase options)
   then [{| chars := upper_of options;
            min := default 1 (Opt.min_uppercase options) |}] else []) ++
  (if default true (Opt.include_lowercase options)
   then [{| chars := lower_of options;
            min := default 1 (Opt.min_lowercase options) |}] else []) ++
  (if default true (Opt.include_numbers options)
   then [{| chars := nums_of options;
            min := default 1 (Opt.min_numbers options) |}] else []) ++
  (if default true (Opt.include_special_chars options)
   then [{| chars := special_of options;
            min := default 1 (Opt.min_special options) |}] else []).

(** [charset]: the concatenation of the enabled classes. *)
Definition password_charset (options : PasswordOptions) : string :=
  Js.str (concat (map (fun s => Js.chars (chars s)) (password_sets options))).

(** [password.push(cs[getSecureRandomBytes(1)[0] % cs.length])]; an array
    element is a character or [undefined]. *)
Definition push_draw (cs : string) (password : list (option ascii))
  : Gen (list (option ascii)) :=
  bytes <- getSecureRandomBytes 1 ;;
  ret (password ++ [pick cs (at_index bytes 0)]).

(** The loop over [sets] that meets the minimum requirements. *)
Fixpoint meet_minimums (sets : list CharSet) (password : list (option ascii))
  : Gen (list (option ascii)) :=
  match sets with
  | [] => ret password
  | set :: rest =>
      password' <- for_loop (Z.to_nat (min set)) (push_draw (chars set)) password ;;
      meet_minimums rest password'
  end.

(** [[password[i], password[j]] = [password[j], password[i]]] *)
Definition swap {A} (i j : nat) (l : list (option A)) : list (option A) :=
  let at_i := default None (l !! i) in
  let at_j := default None (l !! j) in
  <[j := at_i]> (<[i := at_j]> l).

(** The shuffle loop, entered with [i = password.length - 1]; the argument
    counts the rounds left, which is the current [i]. *)
Fixpoint shuffle (i : nat) (password : list (option ascii))
  : Gen (list (option ascii)) :=
  match i with
  | O => ret password
  | S i' =>
      bytes <- getSecureRandomBytes 1 ;;
      let j := Z.to_nat (Z.rem (at_index bytes 0) (Z.of_nat i + 1)) in
      shuffle i' (swap i j password)
  end.

(** [password.join('')]: an [undefined] element contributes nothing. *)
Definition join_chars (password : list (option ascii)) : list ascii :=
  concat (map (fun x => match x with Some c => [c] | None => [] end) password).

(** The array before the shuffle. *)
Definition assemble_password (length : Z) (options : PasswordOptions)
  : Gen (list (option ascii)) :=
  password <- meet_minimums (password_sets options) [] ;;
  let remaining := length - Z.of_nat (List.length password) in
  for_loop (Z.to_nat remaining) (push_draw (password_charset options)) password.

Definition password_security_level (strength : string) : string :=
  if bool_decide (strength = "maximum") then "high"
  else if bool_decide (strength = "high") then "medium" else "low".

Definition generatePassword (length : Z) (options : PasswordOptions)
  : Gen GenerationResult :=
  let charset := password_charset options in
  password <- assemble_password length options ;;
  password <- shuffle (List.length password - 1) password ;;
  let result := Js.str (join_chars password) in
  ret {| value := result;
         name := "secure_password";
         description := "Generated secure password with customizable requirements";
         metadata := {| md_type := "secure_password";
                        md_length := length;
                        md_algorithm := "secure_random_with_requirements";
                        md_entropy_bits :=
                          CalculateEntropy (Js.len charset) length;
                        md_charset := Some (charset_preview charset);
                        md_security_level :=
                          Level (password_security_level
                                   (default "high" (Opt.strength options)));
                        md_extra := [] |} |}.

Definition generateDatabasePassword (length : Z) : Gen GenerationResult :=
  generatePassword length
    {| Opt.length := None; Opt.format := None; Opt.prefix := None;
       Opt.suffix := None; Opt.case := None;
       Opt.include_uppercase := Some true; Opt.include_lowercase := Some true;
       Opt.include_numbers := Some true; Opt.include_special_chars := Some true;
       Opt.exclude_chars := None; Opt.custom_charset := None;
       Opt.exclude_ambiguous := Some true;
       Opt.min_uppercase := None; Opt.min_lowercase := None;
       Opt.min_numbers := None; Opt.min_special := None;
       Opt.special_char_set := Some "@#$%^&*_+-="; Opt.strength := Some "maximum";
       Opt.words := None; Opt.separator := None |}.

(** ** PIN *)

Definition generatePin (length : Z) : Gen GenerationResult :=
  bytes <- getSecureRandomBytes length ;;
  let pin := draw_string CHARSETS.numbers bytes (Z.to_nat length) in
  ret {| value := Js.str pin;
         name := "pin";
         description :=
           "Generated " +:+ Js.of_Z length +:+ "-digit PIN code for authentication";
         metadata := {| md_type := "pin";
                        md_length := length;
                        md_algorithm := "secure_random";
                        md_entropy_bits :=
                          CalculateEntropy (Js.len CHARSETS.numbers) length;
                        md_charset := Some "numeric";
                        md_security_level :=
                          Level (if 6 <=? length then "medium" else "low");
                        md_extra := [] |} |}.

(** ** Passphrase *)

Definition wordList : list string := [
  "able"; "acid"; "aged"; "also"; "area"; "army"; "away"; "baby"; "back"; "ball";
  "band"; "bank"; "base"; "bath"; "bear"; "beat"; "been"; "bell"; "belt"; "best";
  "bird"; "blow"; "blue"; "boat"; "body"; "bomb"; "bond"; "bone"; "book"; "boom";
  "born"; "boss"; "both"; "bowl"; "bulk"; "burn"; "bush"; "busy"; "call"; "calm";
  "came"; "camp"; "card"; "care"; "case"; "cash"; "cast"; "cell"; "chat"; "chip";
  "city"; "club"; "coal"; "coat"; "code"; "cold"; "come"; "cook"; "cool"; "copy";
  "core"; "corn"; "cost"; "crew"; "crop"; "dark"; "data"; "date"; "dawn"; "days";
  "dead"; "deal"; "dean"; "dear"; "debt"; "deck"; "deep"; "deer"; "desk"; "dial";
  "died"; "diet"; "disk"; "done"; "door"; "dose"; "down"; "draw"; "drew"; "drop";
  "drug"; "dual"; "duck"; "duke"; "dust"; "duty"; "each"; "earn"; "east"; "easy";
  "edge"; "else"; "even"; "ever"; "evil"; "exit"; "face"; "fact"; "fail"; "fair";
  "fall"; "farm"; "fast"; "fate"; "fear"; "feed"; "feel"; "feet"; "fell"; "felt";
  "file"; "fill"; "film"; "find"; "fine"; "fire"; "firm"; "fish"; "five"; "flag";
  "flat"; "flow"; "folk"; "food"; "foot"; "ford"; "form"; "fort"; "four"; "free";
  "from"; "fuel"; "full"; "fund"; "gain"; "game"; "gate"; "gave"; "gear"; "gift";
  "girl"; "give"; "glad"; "goal"; "goes"; "gold"; "golf"; "gone"; "good"; "gray";
  "grew"; "grid"; "grow"; "hair"; "half"; "hall"; "hand"; "hang"; "hard"; "harm";
  "hate"; "have"; "head"; "hear"; "heat"; "held"; "hell"; "help"; "here"; "hero";
  "hide"; "high"; "hill"; "hire"; "hold"; "hole"; "holy"; "home"; "hope"; "host";
  "hour"; "huge"; "hung"; "hunt"; "hurt"; "idea"; "inch"; "into"; "iron"; "item"
].

(** [selectedWords.join(separator)] *)
Fixpoint join_words (separator : string) (ws : list string) : string :=
  match ws with
  | [] => ""
  | [w] => w
  | w :: rest => w +:+ separator +:+ join_words separator rest
  end.

(** One round of the selection loop. *)
Definition push_word (selectedWords : list string) : Gen (list string) :=
  bytes <- getSecureRandomBytes 2 ;;
  let index :=
    Z.rem (Z.lor (Z.shiftl (at_index bytes 0) 8) (at_index bytes 1))
          (Z.of_nat (List.length wordList)) in
  ret (selectedWords ++ [default "" (wordList !! Z.to_nat index)]).

Definition generatePassphrase (words : Z) (separator : string)
  : Gen GenerationResult :=
  selectedWords <- for_loop (Z.to_nat words) push_word [] ;;
  let result := join_words separator selectedWords in
  let entropyBits := CalculateEntropy (Z.of_nat (List.length wordList)) words in
  ret {| value := result;
         name := "passphrase";
         description :=
           "Generated " +:+ Js.of_Z words +:+
           "-word passphrase using dictionary words";
         metadata := {| md_type := "passphrase";
                        md_length := Js.len result;
                        md_algorithm := "dictionary_words";
                        md_entropy_bits := entropyBits;
                        md_charset := None;
                        md_security_level := ByThresholds entropyBits;
                        md_extra :=
                          [("word_count", XNum words);
                           ("separator", XStr separator);
                           ("dictionary_size",
                            XNum (Z.of_nat (List.length wordList)))] |} |}.

(** ** Base64 and API keys *)

Definition base64_alphabet : string :=
  "ABCDEFGHIJKLMNOPQRSTUVWXYZabcdefghijklmnopqrstuvwxyz0123456789+/".

Definition b64 (d : Z) : ascii :=
  default "A"%char (Js.index base64_alphabet (Some d)).

(** [btoa(String.fromCharCode(...bytes))] *)
Fixpoint bytesToBase64 (bytes : list Z) : list ascii :=
  match bytes with
  | [] => []
  | [a] => [b64 (a / 4); b64 (a mod 4 * 16); "="; "="]%char
  | [a; b] =>
      [b64 (a / 4); b64 (a mod 4 * 16 + b / 16); b64 (b mod 16 * 4); "="%char]
  | a :: b :: c :: rest =>
      [b64 (a / 4); b64 (a mod 4 * 16 + b / 16);
       b64 (b mod 16 * 4 + c / 64); b64 (c mod 64)] ++ bytesToBase64 rest
  end.

(** [.replace(/\+/g, '-').replace(/\//g, '_').replace(/=/g, '')] *)
Definition bytesToBase64Url (bytes : list Z) : list ascii :=
  Js.remove_char "="%char
    (map (fun c => if bool_decide (c = "/"%char) then "_"%char else c)
       (map (fun c => if bool_decide (c = "+"%char) then "-"%char else c)
          (bytesToBase64 bytes))).

Definition generateApiKey (format : string) (length : Z) : Gen GenerationResult :=
  bytes <- getSecureRandomBytes (Js.ceil_div (length * 3) 4) ;;
  let result :=
    if bool_decide (format = "base64")
    then Js.slice0 (bytesToBase64 bytes) length
    else if bool_decide (format = "base64url")
    then Js.slice0 (bytesToBase64Url bytes) length
    else Js.slice0 (bytesToHex bytes) length in
  ret {| value := Js.str result;
         name := "api_key_" +:+ format +:+ Js.of_Z length;
         description := "Generated API key in " +:+ format +:+ " format";
         metadata := {| md_type := "api_key";
                        md_length := length;
                        md_algorithm := "secure_random";
                        md_entropy_bits :=
                          CalculateEntropy
                            (if bool_decide (format = "hex") then 16 else 64)
                            length;
                        md_charset := Some format;
                        md_security_level :=
                          Level (if 32 <=? length then "high" else "medium");
                        md_extra := [("format", XStr format)] |} |}.

(** ** Initialization vectors and encryption keys *)

(** What reading a property of an object literal yields.  A name that the
    literal does not define is looked up on [Object.prototype]; of the names
    that [toLowerCase] can produce, ["constructor"] and ["__proto__"] are found
    there and give an object, which is truthy and which [new Uint8Array]
    treats as an array-like of the given length. *)
Inductive Property :=
| Own (n : Z)
| Inherited (array_like_length : Z)
| Absent.

Definition lookup_table (table : list (string * Z)) (key : string) : Property :=
  match List.find (fun kv => bool_decide (fst kv = key)) table with
  | Some kv => Own (snd kv)
  | None =>
      if bool_decide (key = "constructor") then Inherited 1
      else if bool_decide (key = "__proto__") then Inherited 0
      else Absent
  end.

Definition ivSizes : list (string * Z) :=
  [("aes128", 16); ("aes192", 16); ("aes256", 16);
   ("des", 8); ("blowfish", 8); ("chacha20", 12)].


(** [table[key] || fallback]; a stored [0] would be falsy as well. *)
Definition size_or (p : Property) (fallback : Z) : Property :=
  match p with
  | Own 0 | Absent => Own fallback
  | _ => p
  end.

(** The number of bytes [new Uint8Array(size)] allocates. *)
Definition allocation (size : Property) : Z :=
  match size with
  | Own n => n
  | Inherited n => n
  | Absent => 0
  end.

(** The [byte_size] field: a number, or an object that is not one. *)
Definition byte_size_field (size : Property) : Extra :=
  match size with
  | Own n => XNum n
  | _ => XObject
  end.

(** [size * 8] *)
Definition times8 (size : Property) : Entropy :=
  match size with
  | Own n => Bits (n * 8)
  | _ => NaN
  end.

Definition generateIv (algorithm : string) : Gen GenerationResult :=
  let size := size_or (lookup_table ivSizes (Js.toLowerCase algorithm)) 16 in
  bytes <- getSecureRandomBytes (allocation size) ;;
  let result := Js.str (bytesToHex bytes) in
  ret {| value := result;
         name := "initialization_vector";
         description :=
           "Generated initialization vector for " +:+ algorithm +:+ " encryption";
         metadata := {| md_type := "initialization_vector";
                        md_length := Js.len result;
                        md_algorithm := algorithm;
                        md_entropy_bits := times8 size;
                        md_charset := Some "hex";
                        md_security_level := Level "high";
                        md_extra := [("byte_size", byte_size_field size)] |} |}.


(** ** AWS-style credentials *)

(** The double-quote character. *)
Definition dquote : ascii := ascii_of_nat 34.

(** [JSON.stringify] of a string: the quoted, escaped text. *)
Definition json_escape (c : ascii) : list ascii :=
  let n := nat_of_ascii c in
  if (n =? 34)%nat then ["\"%char; dquote]
  else if (n =? 92)%nat then ["\"; "\"]%char
  else if (n =? 8)%nat then ["\"; "b"]%char
  else if (n =? 12)%nat then ["\"; "f"]%char
  else if (n =? 10)%nat then ["\"; "n"]%char
  else if (n =? 13)%nat then ["\"; "r"]%char
  else if (n =? 9)%nat then ["\"; "t"]%char
  else if (n <? 32)%nat
       then ["\"; "u"; "0"; "0"]%char ++
            [hex_digit (Z.of_nat n / 16); hex_digit (Z.of_nat n mod 16)]
  else [c].

Definition json_string (s : string) : list ascii :=
  [dquote] ++ concat (map json_escape (Js.chars s)) ++ [dquote].

Definition newline : list ascii := [ascii_of_nat 10].

(** [JSON.stringify({access_key, secret_key})] *)
Definition json_compact (access_key secret_key : string) : list ascii :=
  Js.chars "{" ++ json_string "access_key" ++ Js.chars ":" ++
  json_string access_key ++ Js.chars "," ++
  json_string "secret_key" ++ Js.chars ":" ++ json_string secret_key ++
  Js.chars "}".

(** [JSON.stringify({access_key, secret_key}, null, 2)] *)
Definition json_pretty (access_key secret_key : string) : list ascii :=
  Js.chars "{" ++ newline ++ Js.chars "  " ++
  json_string "access_key" ++ Js.chars ": " ++ json_string access_key ++
  Js.chars "," ++ newline ++ Js.chars "  " ++
  json_string "secret_key" ++ Js.chars ": " ++ json_string secret_key ++
  newline ++ Js.chars "}".

Definition generateAwsCredentials : Gen GenerationResult :=
  alnum <- generateAlphanumeric 16 ;;
  let accessKey := "AKIA" +:+ value alnum in
  key <- generateApiKey "base64" 40 ;;
  let secretKey := value key in
  ret {| value := Js.str (json_pretty accessKey secretKey);
         name := "aws_credentials";
         description := "Generated AWS-style access credentials";
         metadata := {| md_type := "aws_credentials";
                        md_length :=
                          Z.of_nat (List.length (json_compact accessKey secretKey));
                        md_algorithm := "aws_format";
                        md_entropy_bits := Bits 240;
                        md_charset := Some "alphanumeric+base64";
                        md_security_level := Level "high";
                        md_extra := [] |} |}.

(** ** Batch generation *)

Module Req.
Record BatchRequest := {
  type : string;
  count : Z;
  options : option Options
}.
End Req.

Abbreviation BatchRequest := Req.BatchRequest.

(** An array index: a name that is the decimal numeral, without sign, spaces
    or leading zero, of an integer from 0 to [2^32 - 2]. *)
Definition digit (c : ascii) : option Z :=
  let n := Z.of_nat (nat_of_ascii c) in
  if (48 <=? n) && (n <=? 57) then Some (n - 48) else None.

Fixpoint decimal (acc : Z) (s : list ascii) : option Z :=
  match s with
  | [] => Some acc
  | c :: rest =>
      match digit c with
      | Some d => decimal (10 * acc + d) rest
      | None => None
      end
  end.

Definition array_index (key : string) : option Z :=
  match Js.chars key with
  | [] => None
  | c :: rest =>
      if bool_decide (c = "0"%char) && negb (bool_decide (rest = [])) then None
      else match decimal 0 (c :: rest) with
           | Some n => if n <=? 4294967294 then Some n else None
           | None => None
           end
  end.

(** The [results] object: a [Record<string, GenerationResult[]>] that starts
    as [{}].  The list holds what assignments to [results[key]] have stored,
    in the order in which a JavaScript object keeps its own properties: the
    array indices first, in ascending numeric order, then the other names in
    the order of their creation.  The name [__proto__] is not an own
    property: [results['__proto__'] = v] makes the array [v] the prototype of
    the object and [results['__proto__']] reads it back.  The list keeps that
    slot under its name, among the other names, and [own_properties] leaves
    it out. *)
Definition Results : Type := list (string * list GenerationResult).

(** The own properties: what [Object.keys] and [JSON.stringify] see. *)
Definition own_properties (results : Results) : Results :=
  filter (B := list _) (fun kv => fst kv <> "__proto__") results.

(** [Object.keys(results)] *)
Definition own_keys (results : Results) : list string :=
  map fst (own_properties results).

(** [results[key]], for a name that has been assigned. *)
Definition obj_get (key : string) (results : Results)
  : option (list GenerationResult) :=
  snd <$> List.find (fun kv => bool_decide (fst kv = key)) results.

(** Whether a new property [key] is placed before the property [k]: an
    array index comes before every larger index and every other name. *)
Definition precedes (key k : string) : bool :=
  match array_index key, array_index k with
  | Some i, Some j => i <? j
  | Some _, None => true
  | None, _ => false
  end.

(** A new property takes its place in the order. *)
Fixpoint insert_key (key : string) (v : list GenerationResult) (results : Results)
  : Results :=
  match results with
  | [] => [(key, v)]
  | (k, old) :: rest =>
      if precedes key k then (key, v) :: (k, old) :: rest
      else (k, old) :: insert_key key v rest
  end.

(** An existing property keeps its place. *)
Fixpoint replace_key (key : string) (v : list GenerationResult) (results : Results)
  : Results :=
  match results with
  | [] => []
  | (k, old) :: rest =>
      if bool_decide (k = key) then (k, v) :: rest
      else (k, old) :: replace_key key v rest
  end.

(** [results[key] = v] *)
Definition obj_set (key : string) (v : list GenerationResult) (results : Results)
  : Results :=
  if bool_decide (key ∈ map fst results) then replace_key key v results
  else insert_key key v results.

(** [results[key].push(result)]; the property exists when this runs. *)
Definition obj_push (key : string) (result : GenerationResult) (results : Results)
  : Results :=
  match obj_get key results with
  | Some items => obj_set key (items ++ [result]) results
  | None => results
  end.

(** The [switch] on the entry's type. *)
Definition generate_one (type : string) (options : Options)
  : Gen GenerationResult :=
  if bool_decide (type = "uuid4") then generateUuid4
  else if bool_decide (type = "ulid") then generateUlid
  else if bool_decide (type = "nano_id") then generateNanoId (Opt.length options)
  else if bool_decide (type = "password")
  then generatePassword (num_or (Opt.length options) 16) options
  else if bool_decide (type = "pin")
  then generatePin (num_or (Opt.length options) 6)
  else if bool_decide (type = "passphrase")
  then generatePassphrase (num_or (Opt.words options) 6)
                          (str_or (Opt.separator options) "-")
  else if bool_decide (type = "api_key")
  then generateApiKey (str_or (Opt.format options) "hex")
                      (num_or (Opt.length options) 32)
  else if bool_decide (type = "token") then throw (ReferenceError "generateToken")
  else if bool_decide (type = "random_string")
  then generateRandomString (num_or (Opt.length options) 32) options
  else if bool_decide (type = "secret") then throw (ReferenceError "generateSecret")
  else throw (Error ("Unknown credential type: " +:+ type)).

(** The body of the outer loop for one request. *)
Definition run_request (request : BatchRequest) (results : Results) : Gen Results :=
  let type := Req.type request in
  let options := default no_options (Req.options request) in
  let results := obj_set type [] results in
  for_loop (Z.to_nat (Req.count request))
    (fun results =>
       result <- generate_one type options ;;
       ret (obj_push type result results))
    results.

Fixpoint run_requests (requests : list BatchRequest) (results : Results)
  : Gen Results :=
  match requests with
  | [] => ret results
  | request :: rest =>
      results' <- run_request request results ;;
      run_requests rest results'
  end.

(** [requests.reduce((sum, req) => sum + req.count, 0)] *)
Definition sum_counts (requests : list BatchRequest) : Z :=
  fold_left (fun sum req => sum + Req.count req) requests 0.

(** What [generateBatch] returns.  The source serialises [results] into the
    [value] string with [JSON.stringify]; the record keeps the object that is
    serialised, next to the two computed metadata fields. *)
Record BatchResult := {
  results : Results;
  total_items : Z;
  types_generated : list string
}.

Definition generateBatch (requests : list BatchRequest) : Gen BatchResult :=
  results <- run_requests requests [] ;;
  ret {| results := results;
         total_items := sum_counts requests;
         types_generated := own_keys results |}.

(** ** The tool layer: validation and handlers *)

Record Validation := { valid : bool; errors : list string }.

(** [a + b + c + d > length], false when an operand is [undefined] (NaN). *)
Definition minimums_exceed (options : Options) : bool :=
  match Opt.min_uppercase options, Opt.min_lowercase options,
        Opt.min_numbers options, Opt.min_special options,
        Opt.length options with
  | Some a, Some b, Some c, Some d, Some length => length <? a + b + c + d
  | _, _, _, _, _ => false
  end.

(** [[...].filter(Boolean).length] over the four class toggles. *)
Definition enabledTypes (options : Options) : nat :=
  List.length (filter (fun x => x = Some true)
    [Opt.include_uppercase options; Opt.include_lowercase options;
     Opt.include_numbers options; Opt.include_special_chars options]).

Definition validatePasswordSecurity (options : Options) : Validation :=
  let errors :=
    (if minimums_exceed options
     then ["Sum of minimum character requirements exceeds password length"]
     else []) ++
    (if (enabledTypes options <? 2)%nat
     then ["Password must include at least 2 character types for security"]
     else []) ++
    (if truthy_str (Opt.custom_charset options) &&
        (Js.len (default "" (Opt.custom_charset options)) <? 10)
     then ["Custom charset must contain at least 10 characters for security"]
     else []) in
  {| valid := bool_decide (errors = []); errors := errors |}.

Definition validateBatchSecurity (requests : list BatchRequest) : Validation :=
  let totalItems := sum_counts requests in
  let highCountItems := filter (fun req => 20 < Req.count req) requests in
  let errors :=
    (if 100 <? totalItems
     then ["Total batch items cannot exceed 100 for resource protection"]
     else []) ++
    (if (0 <? List.length highCountItems)%nat
     then ["Individual request count cannot exceed 20 for resource protection"]
     else []) in
  {| valid := bool_decide (errors = []); errors := errors |}.

(** What a handler answers: the formatted result, the validation failure
    (an [isError] text block listing the errors), or the caught exception
    (an [isError] text block with its message). *)
Inductive ToolResponse (A : Type) :=
| Content (a : A)
| ValidationFailed (errors : list string)
| Failed (e : JsError).
Arguments Content {A} a.
Arguments ValidationFailed {A} errors.
Arguments Failed {A} e.

Definition Handler (A : Type) : Type := World -> ToolResponse A * World.

(** [try { ... } catch (error) { ... }] around a generator call. *)
Definition try_catch {A} (c : Gen A) : Handler A :=
  fun w =>
    match c w with
    | (Returned a, w') => (Content a, w')
    | (Thrown e, w') => (Failed e, w')
    end.

(** [{ length, ...passwordOptions }] *)
Definition with_length (length : Z) (o : Options) : Options :=
  {| Opt.length := Some length; Opt.format := Opt.format o;
     Opt.prefix := Opt.prefix o; Opt.suffix := Opt.suffix o;
     Opt.case := Opt.case o;
     Opt.include_uppercase := Opt.include_uppercase o;
     Opt.include_lowercase := Opt.include_lowercase o;
     Opt.include_numbers := Opt.include_numbers o;
     Opt.include_special_chars := Opt.include_special_chars o;
     Opt.exclude_chars := Opt.exclude_chars o;
     Opt.custom_charset := Opt.custom_charset o;
     Opt.exclude_ambiguous := Opt.exclude_ambiguous o;
     Opt.min_uppercase := Opt.min_uppercase o;
     Opt.min_lowercase := Opt.min_lowercase o;
     Opt.min_numbers := Opt.min_numbers o;
     Opt.min_special := Opt.min_special o;
     Opt.special_char_set := Opt.special_char_set o;
     Opt.strength := Opt.strength o; Opt.words := Opt.words o;
     Opt.separator := Opt.separator o |}.

(** The handler of the [generatePassword] tool, on the parsed arguments. *)
Definition generatePasswordTool (length : Z) (passwordOptions : Options)
  : Handler GenerationResult :=
  fun w =>
    let validation := validatePasswordSecurity (with_length length passwordOptions) in
    if negb (valid validation) then (ValidationFailed (errors validation), w)
    else try_catch (generatePassword length passwordOptions) w.

(** The handler of the [generateBatch] tool, on the parsed arguments. *)
Definition generateBatchTool (requests : list BatchRequest) : Handler BatchResult :=
  fun w =>
    let batchRequests :=
      map (fun req => {| Req.type := Req.type req; Req.count := Req.count req;
                         Req.options := Some (default no_options (Req.options req)) |})
          requests in
    let validation := validateBatchSecurity batchRequests in
    if negb (valid validation) then (ValidationFailed (errors validation), w)
    else try_catch (generateBatch batchRequests) w.

(** ** Predicates and abbreviations used in the statements *)

(** A lowercase hexadecimal digit. *)
Definition is_hex_char (c : ascii) : bool :=
  bool_decide (c ∈ Js.chars hex_lower).

(** The 8-4-4-4-12 layout: dashes at 8, 13, 18 and 23, hex digits elsewhere. *)
Definition uuid_layout (s : list ascii) : bool :=
  (List.length s =? 36)%nat &&
  forallb (fun ic : nat * ascii =>
             if bool_decide (fst ic ∈ [8; 13; 18; 23]%nat)
             then bool_decide (snd ic = "-"%char)
             else is_hex_char (snd ic))
          (zip (seq 0 36) s).

(** The world after [n] more bytes have been consumed. *)
Definition advance (n : nat) (w : World) : World :=
  {| entropy := entropy w; drawn := drawn w + n;
     clock := clock w; ticks := ticks w |}.

(** The next [n] bytes of the tape. *)
Definition upcoming (n : nat) (w : World) : list Z :=
  map (fun i => byte_value (entropy w (drawn w + i))) (seq 0 n).

(** Two characters per byte: what [bytesToHex] emits for one byte. *)
Definition hex_byte (b : Z) : list ascii := padStart 2 "0"%char (toString16 b).

(** [c] is a character of the charset [cs]. *)
Definition in_class (cs : string) (c : ascii) : Prop := c ∈ Js.chars cs.

(** How many characters of [s] belong to the charset [cs]. *)
Definition count_class (cs : string) (s : list ascii) : nat :=
  List.length (filter (fun c => c ∈ Js.chars cs) s).

(** The sum of the minimum counts of the enabled classes. *)
Definition sum_minimums (sets : list CharSet) : Z :=
  fold_right (fun s acc => min s + acc) 0 sets.

(** ** Sample inputs *)

(** A world whose random source delivers zero bytes and whose clock reads 0. *)
Definition zero_world : World :=
  {| entropy := fun _ => x00; drawn := 0; clock := fun _ => 0; ticks := 0 |}.

(** [{ min_uppercase: 2, min_lowercase: 2, min_numbers: 2 }] *)
Definition two_of_each : PasswordOptions :=
  {| Opt.length := None; Opt.format := None; Opt.prefix := None;
     Opt.suffix := None; Opt.case := None;
     Opt.include_uppercase := None; Opt.include_lowercase := None;
     Opt.include_numbers := None; Opt.include_special_chars := None;
     Opt.exclude_chars := None; Opt.custom_charset := None;
     Opt.exclude_ambiguous := None;
     Opt.min_uppercase := Some 2; Opt.min_lowercase := Some 2;
     Opt.min_numbers := Some 2; Opt.min_special := None;
     Opt.special_char_set := None; Opt.strength := None;
     Opt.words := None; Opt.separator := None |}.

(** All four classes switched off. *)
Definition no_classes : PasswordOptions :=
  {| Opt.length := None; Opt.format := None; Opt.prefix := None;
     Opt.suffix := None; Opt.case := None;
     Opt.include_uppercase := Some false; Opt.include_lowercase := Some false;
     Opt.include_numbers := Some false; Opt.include_special_chars := Some false;
     Opt.exclude_chars := None; Opt.custom_charset := None;
     Opt.exclude_ambiguous := None;
     Opt.min_uppercase := None; Opt.min_lowercase := None;
     Opt.min_numbers := None; Opt.min_special := None;
     Opt.special_char_set := None; Opt.strength := None;
     Opt.words := None; Opt.separator := None |}.

(** The parsed arguments of the password tool with its schema defaults and
    three of each class requested. *)
Definition three_of_each : PasswordOptions :=
  {| Opt.length := None; Opt.format := None; Opt.prefix := None;
     Opt.suffix := None; Opt.case := None;
     Opt.include_uppercase := Some true; Opt.include_lowercase := Some true;
     Opt.include_numbers := Some true; Opt.include_special_chars := Some true;
     Opt.exclude_chars := None; Opt.custom_charset := None;
     Opt.exclude_ambiguous := Some false;
     Opt.min_uppercase := Some 3; Opt.min_lowercase := Some 3;
     Opt.min_numbers := Some 3; Opt.min_special := Some 3;
     Opt.special_char_set := None; Opt.strength := Some "high";
     Opt.words := None; Opt.separator := None |}.

(** The password tool's schema defaults with an empty special-character set. *)
Definition empty_special_set : PasswordOptions :=
  {| Opt.length := None; Opt.format := None; Opt.prefix := None;
     Opt.suffix := None; Opt.case := None;
     Opt.include_uppercase := Some true; Opt.include_lowercase := Some true;
     Opt.include_numbers := Some true; Opt.include_special_chars := Some true;
     Opt.exclude_chars := None; Opt.custom_charset := None;
     Opt.exclude_ambiguous := Some false;
     Opt.min_uppercase := Some 1; Opt.min_lowercase := Some 1;
     Opt.min_numbers := Some 1; Opt.min_special := Some 1;
     Opt.special_char_set := Some ""; Opt.strength := Some "high";
     Opt.words := None; Opt.separator := None |}.

(** [{ custom_charset: 'abc', exclude_chars: 'abc' }] *)
Definition all_excluded : StringOptions :=
  {| Opt.length := None; Opt.format := None; Opt.prefix := None;
     Opt.suffix := None; Opt.case := None;
     Opt.include_uppercase := None; Opt.include_lowercase := None;
     Opt.include_numbers := None; Opt.include_special_chars := None;
     Opt.exclude_chars := Some "abc"; Opt.custom_charset := Some "abc";
     Opt.exclude_ambiguous := None;
     Opt.min_uppercase := None; Opt.min_lowercase := None;
     Opt.min_numbers := None; Opt.min_special := None;
     Opt.special_char_set := None; Opt.strength := None;
     Opt.words := None; Opt.separator := None |}.

(** As [zero_world], but the first random byte is 32. *)
Definition high_bit_world : World :=
  {| entropy := fun i => match i with O => x20 | _ => x00 end; drawn := 0;
     clock := fun _ => 0; ticks := 0 |}.

(** A batch entry without options. *)
Definition entry (type : string) (count : Z) : BatchRequest :=
  {| Req.type := type; Req.count := count; Req.options := None |}.

(** Six entries whose counts sum to 101, none above 20. *)
Definition batch_of_101 : list BatchRequest :=
  [entry "uuid4" 20; entry "ulid" 20; entry "nano_id" 20; entry "pin" 20;
   entry "password" 20; entry "passphrase" 1].

(** ** Predicates for the cipher tables *)

(** The sizes the cipher table documents, with the default for other names. *)
Definition documented_iv_size (key : string) : Z :=
  if bool_decide (key ∈ ["aes128"; "aes192"; "aes256"]) then 16
  else if bool_decide (key ∈ ["des"; "blowfish"]) then 8
  else if bool_decide (key = "chacha20") then 12
  else 16.

(** Names that an object literal inherits from [Object.prototype]. *)
Definition inherited_name (key : string) : Prop :=
  key = "constructor" \/ key = "__proto__".

(** The metadata of an initialization vector of [size] bytes made for
    [algorithm]: every field is determined by these two values. *)
Definition iv_metadata (algorithm : string) (size : Z) : Metadata :=
  {| md_type := "initialization_vector";
     md_length := 2 * size;
     md_algorithm := algorithm;
     md_entropy_bits := Bits (size * 8);
     md_charset := Some "hex";
     md_security_level := Level "high";
     md_extra := [("byte_size", XNum size)] |}.

(** ** Abbreviations for the batch *)

(** The results one entry generates, collected in order: what the inner loop
    of [generateBatch] pushes for that entry. *)
Definition generate_many (type : string) (options : Options) (n : nat)
  : Gen (list GenerationResult) :=
  for_loop n
    (fun items => result <- generate_one type options ;; ret (items ++ [result]))
    [].

(** Two entries of the same type. *)
Definition two_pin_entries : list BatchRequest := [entry "pin" 2; entry "pin" 3].

(** ** Abbreviations for ULIDs *)

(** The Crockford digit of a value below 32. *)
Definition crockford (d : Z) : ascii :=
  default "0"%char (Js.index base32 (Some d)).

(** The first [k] rounds of the timestamp loop: the low [k] base-32 digits of
    [t], most significant first; [ulid_time_part] is [time_digits 10]. *)
Definition time_digits (k : nat) (t : Z) : list ascii :=
  fst (Nat.iter k ulid_time_step ([], t)).

(** A character of the Crockford alphabet. *)
Definition is_crockford (c : ascii) : bool := bool_decide (c ∈ Js.chars base32).

(** The digits are in increasing character order (checked by evaluation). *)
Definition crockford_increasing_check : bool :=
  forallb (fun i =>
    forallb (fun j =>
      if (i <? j)%nat
      then match Ascii.compare (crockford (Z.of_nat i)) (crockford (Z.of_nat j)) with
           | Lt => true
           | _ => false
           end
      else true) (seq 0 32)) (seq 0 32).

(** ** The remaining generators *)

(** [generateNumericString] *)
Definition generateNumericString (length : Z) : Gen GenerationResult :=
  generateRandomString length
    {| Opt.length := None; Opt.format := None; Opt.prefix := None;
       Opt.suffix := None; Opt.case := None;
       Opt.include_uppercase := None; Opt.include_lowercase := None;
       Opt.include_numbers := None; Opt.include_special_chars := None;
       Opt.exclude_chars := None; Opt.custom_charset := Some CHARSETS.numbers;
       Opt.exclude_ambiguous := None;
       Opt.min_uppercase := None; Opt.min_lowercase := None;
       Opt.min_numbers := None; Opt.min_special := None;
       Opt.special_char_set := None; Opt.strength := None;
       Opt.words := None; Opt.separator := None |}.

(** [generateBase64String] *)
Definition generateBase64String (length : Z) : Gen GenerationResult :=
  let byteLength := Js.ceil_div (length * 3) 4 in
  bytes <- getSecureRandomBytes byteLength ;;
  let base64 := Js.slice0 (bytesToBase64 bytes) length in
  ret {| value := Js.str base64;
         name := "base64_string";
         description := "Generated Base64 encoded string";
         metadata := {| md_type := "base64_string";
                        md_length := length;
                        md_algorithm := "secure_random";
                        md_entropy_bits := CalculateEntropy 64 length;
                        md_charset := Some "base64";
                        md_security_level :=
                          HighIfAtLeast64 (CalculateEntropy 64 length);
                        md_extra := [] |} |}.

(** [{ ...result, name, description }] *)
Definition renamed (result : GenerationResult) (name description : string)
  : GenerationResult :=
  {| value := value result; name := name; description := description;
     metadata := metadata result |}.

Definition generateBearerToken (length : Z) : Gen GenerationResult :=
  result <- generateApiKey "base64url" length ;;
  ret (renamed result "bearer_token"
         "Generated bearer token for API authentication").

Definition generateSessionToken (length : Z) : Gen GenerationResult :=
  result <- generateApiKey "base64url" length ;;
  ret (renamed result "session_token"
         "Generated session token for web session management").

Definition generateCsrfToken (length : Z) : Gen GenerationResult :=
  result <- generateApiKey "base64url" length ;;
  ret (renamed result "csrf_token"
         "Generated CSRF token for cross-site request forgery protection").

(** The result record shared by the generators that encode [length] random
    bytes and report [length * 8] bits. *)
Definition encoded_bytes_result (result name description type charset : string)
    (length : Z) : GenerationResult :=
  {| value := result;
     name := name;
     description := description;
     metadata := {| md_type := type;
                    md_length := Js.len result;
                    md_algorithm := "secure_random";
                    md_entropy_bits := Bits (length * 8);
                    md_charset := Some charset;
                    md_security_level := Level "high";
                    md_extra := [] |} |}.

Definition generateJwtSecret (length : Z) : Gen GenerationResult :=
  bytes <- getSecureRandomBytes length ;;
  let result := Js.str (bytesToBase64Url bytes) in
  ret (encoded_bytes_result result "jwt_secret" "Generated JWT signing secret"
         "jwt_secret" "base64url" length).



Definition generateNonce (length : Z) : Gen GenerationResult :=
  bytes <- getSecureRandomBytes length ;;
  let result := Js.str (bytesToBase64Url bytes) in
  ret (encoded_bytes_result result "nonce"
         "Generated nonce for cryptographic operations"
         "nonce" "hex" length).

(** [generateGithubToken] *)
Definition generateGithubToken : Gen GenerationResult :=
  let prefix := "ghp_" in
  alnum <- generateAlphanumeric 36 ;;
  let token := value alnum in
  let result := prefix +:+ token in
  ret {| value := result;
         name := "github_token";
         description := "Generated GitHub personal access token format";
         metadata := {| md_type := "github_token";
                        md_length := Js.len result;
                        md_algorithm := "github_format";
                        md_entropy_bits := Bits 180;
                        md_charset := Some "base62_with_prefix";
                        md_security_level := Level "high";
                        md_extra := [] |} |}.

(** ** The token tool, on the parsed arguments *)

(** The handler of the [generateToken] tool. *)
Definition generateTokenTool (type : string) (length : Z)
  : Handler GenerationResult :=
  try_catch
    (if bool_decide (type = "bearer") then generateBearerToken length
     else if bool_decide (type = "jwt_secret") then generateJwtSecret length
     else if bool_decide (type = "session") then generateSessionToken length
     else if bool_decide (type = "csrf") then generateCsrfToken length
     else throw (Error ("Unsupported token type: " +:+ type))).


(** ** Predicates for the further properties *)

(** The alphabet an API key of the given format is written in. *)
Definition api_key_alphabet (format : string) : string :=
  if bool_decide (format = "base64") then base64_alphabet
  else if bool_decide (format = "base64url") then CHARSETS.url_safe
  else hex_lower.


(** [{ exclude_chars: '0O1lI' }] *)
Definition no_lookalikes : StringOptions :=
  {| Opt.length := None; Opt.format := None; Opt.prefix := None;
     Opt.suffix := None; Opt.case := None;
     Opt.include_uppercase := None; Opt.include_lowercase := None;
     Opt.include_numbers := None; Opt.include_special_chars := None;
     Opt.exclude_chars := Some "0O1lI"; Opt.custom_charset := None;
     Opt.exclude_ambiguous := None;
     Opt.min_uppercase := None; Opt.min_lowercase := None;
     Opt.min_numbers := None; Opt.min_special := None;
     Opt.special_char_set := None; Opt.strength := None;
     Opt.words := None; Opt.separator := None |}.


(** The computation returns a token of the given name: exactly [length]
    URL-safe characters, with the metadata of an API key. *)
Definition returns_token (c : Gen GenerationResult) (w : World)
    (token_name : string) (length : Z) : Prop :=
  exists r w',
    c w = (Returned r, w') /\
    name r = token_name /\
    Js.len (value r) = length /\
    Forall (in_class CHARSETS.url_safe) (Js.chars (value r)) /\
    md_type (metadata r) = "api_key" /\
    md_length (metadata r) = length.

(** ** Decoders, used to state that the encodings lose nothing *)

(** The position of a character in an alphabet (0 when it is absent). *)
Fixpoint position (alphabet : list ascii) (c : ascii) : Z :=
  match alphabet with
  | [] => 0
  | a :: rest => if bool_decide (a = c) then 0 else 1 + position rest c
  end.

(** Reads pairs of hex digits back into bytes. *)
Fixpoint decode_hex (s : list ascii) : list Z :=
  match s with
  | c1 :: c2 :: rest =>
      (position (Js.chars hex_lower) c1 * 16 + position (Js.chars hex_lower) c2)
      :: decode_hex rest
  | _ => []
  end.

(** Reads groups of four base64 characters back into bytes. *)
Fixpoint decode_base64 (s : list ascii) : list Z :=
  match s with
  | c1 :: c2 :: c3 :: c4 :: rest =>
      let v1 := position (Js.chars base64_alphabet) c1 in
      let v2 := position (Js.chars base64_alphabet) c2 in
      let v3 := position (Js.chars base64_alphabet) c3 in
      let v4 := position (Js.chars base64_alphabet) c4 in
      if bool_decide (c3 = "="%char) then [v1 * 4 + v2 / 16]
      else if bool_decide (c4 = "="%char)
      then [v1 * 4 + v2 / 16; v2 mod 16 * 16 + v3 / 4]
      else [v1 * 4 + v2 / 16; v2 mod 16 * 16 + v3 / 4; v3 mod 4 * 64 + v4]
           ++ decode_base64 rest
  | _ => []
  end.

(** The two substitutions of [bytesToBase64Url] on one character, and their
    inverse. *)
Definition to_url_char (c : ascii) : ascii :=
  let c' := if bool_decide (c = "+"%char) then "-"%char else c in
  if bool_decide (c' = "/"%char) then "_"%char else c'.

Definition of_url_char (c : ascii) : ascii :=
  if bool_decide (c = "-"%char) then "+"%char
  else if bool_decide (c = "_"%char) then "/"%char else c.

(** Restores the padding and reads the URL-safe text back into bytes. *)
Definition decode_base64url (s : list ascii) : list Z :=
  decode_base64
    (map of_url_char s ++
     replicate (Z.to_nat ((4 - Z.of_nat (List.length s) mod 4) mod 4)) "="%char).

(** [bytes[6] & 0x0f] and [bytes[8] & 0x3f]: the bits of the sixteen random
    bytes that [generateUuid4] keeps. *)
Definition uuid_kept_bits (bytes : list Z) : list Z :=
  <[8%nat := Z.land (at_index bytes 8) 0x3f]>
    (<[6%nat := Z.land (at_index bytes 6) 0x0f]> bytes).

(** The four classes a database password is drawn from: the letters and
    digits left after [I], [L], [i], [l], [0] and [1] are removed, and the
    preset's special characters. *)
Definition database_classes : list string :=
  ["ABCDEFGHJKMNOPQRSTUVWXYZ"; "abcdefghjkmnopqrstuvwxyz"; "23456789";
   "@#$%^&*_+-="].

(** The password tool's schema defaults. *)
Definition password_tool_defaults : PasswordOptions :=
  {| Opt.length := None; Opt.format := None; Opt.prefix := None;
     Opt.suffix := None; Opt.case := None;
     Opt.include_uppercase := Some true; Opt.include_lowercase := Some true;
     Opt.include_numbers := Some true; Opt.include_special_chars := Some true;
     Opt.exclude_chars := None; Opt.custom_charset := None;
     Opt.exclude_ambiguous := Some false;
     Opt.min_uppercase := Some 1; Opt.min_lowercase := Some 1;
     Opt.min_numbers := Some 1; Opt.min_special := Some 1;
     Opt.special_char_set := None; Opt.strength := Some "high";
     Opt.words := None; Opt.separator := None |}.

(** ** Abbreviations for the further batch properties *)

(** The types whose [case] calls a function that exists. *)
Definition implemented_types : list string :=
  ["uuid4"; "ulid"; "nano_id"; "password"; "pin"; "passphrase"; "api_key";
   "random_string"].

(** What the [switch] throws for any other type. *)
Definition unsupported_error (type : string) : JsError :=
  if bool_decide (type = "token") then ReferenceError "generateToken"
  else if bool_decide (type = "secret") then ReferenceError "generateSecret"
  else Error ("Unknown credential type: " +:+ type).

(** The distinct elements of a list, in the order of their first occurrence. *)
Definition add_key (keys : list string) (key : string) : list string :=
  if bool_decide (key ∈ keys) then keys else keys ++ [key].

Definition first_occurrences (l : list string) : list string :=
  fold_left add_key l [].

(** The names that make own properties kept in order of creation: neither
    array indices nor [__proto__]. *)
Definition plain_names (l : list string) : list string :=
  filter (fun t => array_index t = None /\ t <> "__proto__") l.

(** Two array indices in ascending order. *)
Definition index_le (a b : string) : Prop :=
  match array_index a, array_index b with
  | Some i, Some j => i <= j
  | _, _ => False
  end.

(** The names of a [results] object after [results[key] = v]. *)
Fixpoint place_key (key : string) (keys : list string) : list string :=
  match keys with
  | [] => [key]
  | k :: rest =>
      if precedes key k then key :: k :: rest else k :: place_key key rest
  end.

Definition set_key (keys : list string) (key : string) : list string :=
  if bool_decide (key ∈ keys) then keys else place_key key keys.

(** No name of the list is placed before an earlier one. *)
Definition key_order (keys : list string) : Prop :=
  StronglySorted (fun a b => precedes b a = false) keys.

(** The number of results the own properties of a [results] object hold. *)
Definition result_count (results : Results) : nat :=
  List.length (concat (map snd (own_properties results))).

(** A [pin] entry with an explicit length. *)
Definition pin_entry (count length : Z) : BatchRequest :=
  {| Req.type := "pin"; Req.count := count;
     Req.options :=
       Some {| Opt.length := Some length; Opt.format := None;
               Opt.prefix := None; Opt.suffix := None; Opt.case := None;
               Opt.include_uppercase := None; Opt.include_lowercase := None;
               Opt.include_numbers := None; Opt.include_special_chars := None;
               Opt.exclude_chars := None; Opt.custom_charset := None;
               Opt.exclude_ambiguous := None;
               Opt.min_uppercase := None; Opt.min_lowercase := None;
               Opt.min_numbers := None; Opt.min_special := None;
               Opt.special_char_set := None; Opt.strength := None;
               Opt.words := None; Opt.separator := None |} |}.

(** ** Abbreviations for the selection of characters *)

(** The 256 values a random byte can take. *)
Definition all_bytes : list Z := map Z.of_nat (seq 0 256).

(** The byte values for which [charset[byte % charset.length]] is [c]. *)
Definition bytes_selecting (charset : string) (c : ascii) : list Z :=
  filter (fun b => pick charset b = Some c) all_bytes.

(** A world whose clock reads a later time than [zero_world]'s. *)
Definition later_world : World :=
  {| entropy := fun _ => xff; drawn := 0;
     clock := fun _ => 1469918176385; ticks := 0 |}.

(** * Properties *)

(** ** Running the monad *)

Lemma ret_run {A} (a : A) w : ret a w = (Returned a, w).
Proof. reflexivity. Qed.

Lemma bind_run {A B} (c : Gen A) (k : A -> Gen B) w :
  bind c k w =
  match c w with
  | (Returned a, w') => k a w'
  | (Thrown e, w') => (Thrown e, w')
  end.
Proof. reflexivity. Qed.

Lemma for_loop_S {A} n (body : A -> Gen A) acc w :
  for_loop (S n) body acc w =
  match body acc w with
  | (Returned acc', w') => for_loop n body acc' w'
  | (Thrown e, w') => (Thrown e, w')
  end.
Proof. reflexivity. Qed.

(** ** The embedding on known values *)

Example bytesToHex_sample : Js.str (bytesToHex [0; 255; 16; 9]) = "00ff1009"%string.
Proof. reflexivity. Qed.

Example bytesToBase64_three : Js.str (bytesToBase64 [77; 97; 110]) = "TWFu"%string.
Proof. reflexivity. Qed.

Example bytesToBase64_two : Js.str (bytesToBase64 [77; 97]) = "TWE="%string.
Proof. reflexivity. Qed.

Example bytesToBase64_one : Js.str (bytesToBase64 [77]) = "TQ=="%string.
Proof. reflexivity. Qed.

Example bytesToBase64Url_sample :
  Js.str (bytesToBase64Url [251; 255; 254; 1]) = "-__-AQ"%string.
Proof. reflexivity. Qed.

Example ulid_time_part_sample :
  Js.str (ulid_time_part 1469918176385) = "01ARYZ6S41"%string.
Proof. reflexivity. Qed.

Example ceil_div_samples :
  Js.ceil_div 5 2 = 3 /\ Js.ceil_div 4 2 = 2 /\ Js.ceil_div 120 4 = 30.
Proof. repeat split; reflexivity. Qed.

Example toLowerCase_sample : Js.toLowerCase "AES-256-Gcm" = "aes-256-gcm"%string.
Proof. reflexivity. Qed.

(** The e with an acute accent (233, capital 201) and the sharp s. *)
Example toUpperCase_sample :
  Js.toUpperCase (Js.str [ascii_of_nat 233; Js.sharp_s; "a"%char]) =
  Js.str [ascii_of_nat 201; "S"; "S"; "A"]%char /\
  Js.toLowerCase (Js.str [ascii_of_nat 201; Js.sharp_s; "A"%char]) =
  Js.str [ascii_of_nat 233; Js.sharp_s; "a"%char].
Proof. split; reflexivity. Qed.

Example array_index_sample :
  map array_index ["0"; "10"; "4294967294"; "4294967295"; "01"; "-1"; "1.5"; "";
                   "pin"] =
  [Some 0; Some 10; Some 4294967294; None; None; None; None; None; None].
Proof. reflexivity. Qed.

(** Array indices are listed first, in ascending order, whatever the order of
    the assignments, and [__proto__] makes no key. *)
Example own_keys_sample :
  own_keys (obj_set "2" [] (obj_set "__proto__" []
             (obj_set "10" [] (obj_set "pin" [] (obj_set "7" [] []))))) =
  ["2"; "7"; "10"; "pin"].
Proof. reflexivity. Qed.

Example slice0_negative :
  Js.str (Js.slice0 (Js.chars "abcdef") (-2)) = "abcd"%string.
Proof. reflexivity. Qed.

(** ** Evaluation on a concrete world *)

(** Runs a generator on a concrete world and supplies the outcome as the
    witness of a goal [exists r w', c = (Returned r, w') /\ _]. *)
Ltac run_generator :=
  match goal with
  | |- exists r w', ?c = (Returned r, w') /\ _ =>
      let v := eval vm_compute in c in
      match v with
      | (Returned ?r0, ?w0) =>
          exists r0, w0; split; [vm_compute; reflexivity|]
      end
  | |- exists r w', ?c = (Content r, w') /\ _ =>
      let v := eval vm_compute in c in
      match v with
      | (Content ?r0, ?w0) =>
          exists r0, w0; split; [vm_compute; reflexivity|]
      end
  end.

(** ** Strings and bytes *)

Lemma chars_str l : Js.chars (Js.str l) = l.
Proof. apply list_ascii_of_string_of_list_ascii. Qed.

Lemma str_chars s : Js.str (Js.chars s) = s.
Proof. apply string_of_list_ascii_of_string. Qed.

Lemma length_str l : String.length (Js.str l) = List.length l.
Proof. induction l as [|c l IH]; simpl; [reflexivity | now rewrite IH]. Qed.

Lemma length_chars s : List.length (Js.chars s) = String.length s.
Proof. rewrite <- (str_chars s) at 2. now rewrite length_str. Qed.

Lemma len_str l : Js.len (Js.str l) = Z.of_nat (List.length l).
Proof. unfold Js.len. now rewrite length_str. Qed.

Lemma get_str l i : String.get i (Js.str l) = l !! i.
Proof.
  revert i. induction l as [|c l IH]; intros [|i]; simpl; try reflexivity.
  apply IH.
Qed.

Lemma byte_value_range b : 0 <= byte_value b < 256.
Proof.
  unfold byte_value. pose proof (Byte.to_N_bounded b). lia.
Qed.

Lemma getSecureRandomBytes_run n w :
  0 <= n <= 65536 ->
  getSecureRandomBytes n w =
    (Returned (upcoming (Z.to_nat n) w), advance (Z.to_nat n) w).
Proof.
  intros Hn. unfold getSecureRandomBytes, quota.
  destruct (Z.ltb_spec n 0); [lia|].
  destruct (Z.ltb_spec 65536 n); [lia | reflexivity].
Qed.

(** Above the quota nothing is delivered and nothing is read from the tape. *)
Lemma getSecureRandomBytes_quota n w :
  65536 < n -> getSecureRandomBytes n w = (Thrown QuotaExceededError, w).
Proof.
  intros Hn. unfold getSecureRandomBytes, quota.
  destruct (Z.ltb_spec n 0); [lia|].
  destruct (Z.ltb_spec 65536 n); [reflexivity | lia].
Qed.

Lemma length_upcoming n w : List.length (upcoming n w) = n.
Proof. unfold upcoming. now rewrite length_map, length_seq. Qed.

Lemma upcoming_range n w : Forall (fun b => 0 <= b < 256) (upcoming n w).
Proof.
  unfold upcoming. apply Forall_map, Forall_forall. intros i _.
  apply byte_value_range.
Qed.

(** ** Hexadecimal encoding *)

Lemma hex_digit_is_hex d : is_hex_char (hex_digit d) = true.
Proof.
  unfold hex_digit, Js.index.
  destruct (Z.ltb_spec d 0) as [Hneg|Hpos]; [reflexivity|].
  destruct (Z.to_nat d) as [|[|[|[|[|[|[|[|[|[|[|[|[|[|[|[|k]]]]]]]]]]]]]]]];
    reflexivity.
Qed.

Lemma hex_byte_pair b :
  exists c1 c2, hex_byte b = [c1; c2] /\
                is_hex_char c1 = true /\ is_hex_char c2 = true.
Proof.
  unfold hex_byte, toString16, padStart.
  destruct (b <? 16).
  - exists "0"%char, (hex_digit b). repeat split. apply hex_digit_is_hex.
  - exists (hex_digit (b / 16)), (hex_digit (b mod 16)).
    repeat split; apply hex_digit_is_hex.
Qed.

Lemma bytesToHex_cons b bytes : bytesToHex (b :: bytes) = hex_byte b ++ bytesToHex bytes.
Proof. reflexivity. Qed.

Lemma length_bytesToHex bytes :
  List.length (bytesToHex bytes) = (2 * List.length bytes)%nat.
Proof.
  induction bytes as [|b bytes IH]; [reflexivity|].
  rewrite bytesToHex_cons, length_app, IH.
  destruct (hex_byte_pair b) as (c1 & c2 & -> & _). simpl. lia.
Qed.

Lemma bytesToHex_hex bytes :
  Forall (fun c => is_hex_char c = true) (bytesToHex bytes).
Proof.
  induction bytes as [|b bytes IH]; [constructor|].
  rewrite bytesToHex_cons.
  destruct (hex_byte_pair b) as (c1 & c2 & -> & H1 & H2).
  repeat constructor; assumption.
Qed.

(** The version byte prints as [4] followed by a hex digit. *)
Lemma version_byte x :
  exists c, hex_byte (Z.lor (Z.land (byte_value x) 0x0f) 0x40) = ["4"%char; c] /\
            is_hex_char c = true.
Proof. destruct x; eexists; split; reflexivity. Qed.

(** The variant byte prints as one of [8], [9], [a], [b] followed by a hex digit. *)
Lemma variant_byte x :
  exists v c, hex_byte (Z.lor (Z.land (byte_value x) 0x3f) 0x80) = [v; c] /\
              v ∈ ["8"; "9"; "a"; "b"]%char /\ is_hex_char c = true.
Proof.
  destruct x; eexists; eexists; (split; [reflexivity|]);
    (split; [|reflexivity]); repeat constructor.
Qed.

(** ** UUID v4 *)

(** C7.  Whatever 16 bytes the random source delivers, [generateUuid4] returns
    a 36-character string in the 8-4-4-4-12 layout of lowercase hex digits,
    whose character at position 14 is [4] and whose character at position 19
    is one of [8], [9], [a], [b]; the reported entropy is 122 bits. *)
Theorem generateUuid4_format (w : World) :
  exists r,
    generateUuid4 w = (Returned r, advance 16 w) /\
    String.length (value r) = 36%nat /\
    uuid_layout (Js.chars (value r)) = true /\
    String.get 14 (value r) = Some "4"%char /\
    (exists v, String.get 19 (value r) = Some v /\ v ∈ ["8"; "9"; "a"; "b"]%char) /\
    md_length (metadata r) = 36 /\
    md_entropy_bits (metadata r) = Bits 122.
Proof.
  unfold generateUuid4, bind.
  rewrite getSecureRandomBytes_run by lia.
  change (Z.to_nat 16) with 16%nat.
  unfold upcoming; cbn [seq map at_index list_insert insert lookup list_lookup default
                          from_option id].
  eexists; split; [reflexivity|].
  cbn [value metadata md_length md_entropy_bits].
  rewrite length_str, chars_str, !get_str.
  rewrite !bytesToHex_cons.
  destruct (version_byte (entropy w (drawn w + 6))) as (c6 & -> & H6).
  destruct (variant_byte (entropy w (drawn w + 8))) as (v8 & c8 & -> & Hv & H8).
  repeat match goal with
         | |- context [hex_byte ?b] =>
             let c := fresh "c" in let d := fresh "d" in
             let Hc := fresh "Hc" in let Hd := fresh "Hd" in
             destruct (hex_byte_pair b) as (c & d & -> & Hc & Hd)
         end.
  cbn [bytesToHex map concat app Js.slice take drop Nat.sub dash].
  repeat split; try reflexivity.
  - unfold uuid_layout. cbn [List.length Nat.eqb seq zip zip_with forallb fst snd andb].
    repeat match goal with
           | H : is_hex_char _ = true |- _ => rewrite H; clear H
           end.
    assert (is_hex_char v8 = true) as ->.
    { rewrite !elem_of_cons in Hv.
      destruct Hv as [->|[->|[->|[->|Hv]]]]; try reflexivity.
      now apply elem_of_nil in Hv. }
    reflexivity.
  - exists v8. split; [reflexivity | exact Hv].
Qed.

(** ** Hexadecimal strings *)

Lemma ceil_half_covers n : 1 <= n -> 0 <= Js.ceil_div n 2 /\ n <= 2 * Js.ceil_div n 2.
Proof.
  intros Hn. unfold Js.ceil_div.
  pose proof (Z.div_mod (- n) 2 ltac:(lia)).
  pose proof (Z.mod_pos_bound (- n) 2 ltac:(lia)). lia.
Qed.

(** A length over 131072 asks [getRandomValues] for more than its quota: the
    call throws and no hex string is returned. *)
Lemma generateHexString_over_quota :
  generateHexString 131073 zero_world = (Thrown QuotaExceededError, zero_world).
Proof. vm_compute. reflexivity. Qed.

(** The same for every length over 131072, in every world. *)
Lemma generateHexString_quota (length : Z) (w : World) :
  131072 < length -> generateHexString length w = (Thrown QuotaExceededError, w).
Proof.
  intros Hlen. unfold generateHexString. rewrite bind_run.
  rewrite getSecureRandomBytes_quota; [reflexivity|].
  unfold Js.ceil_div. Z.to_euclidean_division_equations. lia.
Qed.

(** C9.  For a length from 1 to 131072, [generateHexString] returns exactly
    [length] characters, each a lowercase hex digit, and reports
    [4 * length] bits of entropy (128 for 32 characters). *)
Theorem generateHexString_exact (length : Z) (w : World) :
  1 <= length <= 131072 ->
  exists r,
    generateHexString length w =
      (Returned r, advance (Z.to_nat (Js.ceil_div length 2)) w) /\
    Js.len (value r) = length /\
    Forall (fun c => is_hex_char c = true) (Js.chars (value r)) /\
    md_length (metadata r) = length /\
    md_entropy_bits (metadata r) = Bits (4 * length).
Proof.
  intros [Hlen Hmax]. destruct (ceil_half_covers length Hlen) as [Hpos Hcover].
  assert (Js.ceil_div length 2 <= 65536) as Hquota
    by (unfold Js.ceil_div; Z.to_euclidean_division_equations; lia).
  unfold generateHexString, bind.
  rewrite getSecureRandomBytes_run by lia.
  eexists; split; [reflexivity|].
  cbn [value metadata md_length md_entropy_bits].
  rewrite len_str, chars_str. unfold Js.slice0.
  destruct (Z.ltb_spec length 0); [lia|].
  repeat split.
  - rewrite length_take, length_bytesToHex, length_upcoming. lia.
  - apply Forall_take, bytesToHex_hex.
  - f_equal. lia.
Qed.

Lemma generateHexString_exact_witness :
  exists r,
    generateHexString 32 {| entropy := fun _ => x00; drawn := 0;
                            clock := fun _ => 0; ticks := 0 |} =
      (Returned r, {| entropy := fun _ => x00; drawn := 16;
                      clock := fun _ => 0; ticks := 0 |}) /\
    Js.len (value r) = 32 /\
    Forall (fun c => is_hex_char c = true) (Js.chars (value r)) /\
    md_length (metadata r) = 32 /\
    md_entropy_bits (metadata r) = Bits 128.
Proof.
  apply (generateHexString_exact 32
           {| entropy := fun _ => x00; drawn := 0;
              clock := fun _ => 0; ticks := 0 |}).
  lia.
Defined.

(** ** Drawing characters *)

Lemma advance_advance n m w : advance m (advance n w) = advance (n + m) w.
Proof. unfold advance; simpl. f_equal. lia. Qed.

Lemma advance_0 w : advance 0 w = w.
Proof. destruct w; unfold advance; simpl. f_equal. lia. Qed.

Lemma push_draw_run cs pw w :
  push_draw cs pw w =
    (Returned (pw ++ [pick cs (byte_value (entropy w (drawn w)))]), advance 1 w).
Proof.
  unfold push_draw, bind. rewrite getSecureRandomBytes_run by lia.
  change (Z.to_nat 1) with 1%nat. unfold upcoming. simpl.
  rewrite Nat.add_0_r. reflexivity.
Qed.

Section NonEmptyCharset.

Variable cs : string.
Hypothesis cs_nonempty : cs <> ""%string.

Lemma len_pos : 0 < Js.len cs.
Proof using cs_nonempty.
  destruct cs; [congruence | unfold Js.len; simpl; lia].
Qed.

(** A byte always selects a character of a non-empty charset. *)
Lemma pick_nonempty b :
  0 <= b -> exists c, pick cs b = Some c /\ in_class cs c.
Proof using cs_nonempty.
  intros Hb. pose proof len_pos as Hlen.
  unfold pick, Js.rem, Js.index.
  destruct (Z.eqb_spec (Js.len cs) 0); [lia|].
  pose proof (Z.rem_bound_pos b (Js.len cs) Hb Hlen) as Hr.
  destruct (Z.ltb_spec (Z.rem b (Js.len cs)) 0); [lia|].
  destruct (lookup_lt_is_Some_2 (Js.chars cs) (Z.to_nat (Z.rem b (Js.len cs))))
    as [c Hc].
  { rewrite length_chars. unfold Js.len in *. lia. }
  exists c. split; [exact Hc|]. unfold in_class.
  apply list_elem_of_lookup. eauto.
Qed.

(** [n] draws append [n] characters of the charset, for [n] bytes. *)
Lemma push_draws_run n : forall pw w,
  exists drawn_chars,
    for_loop n (push_draw cs) pw w =
      (Returned (pw ++ map Some drawn_chars), advance n w) /\
    List.length drawn_chars = n /\ Forall (in_class cs) drawn_chars.
Proof using cs_nonempty.
  induction n as [|n IH]; intros pw w.
  - exists []. simpl. rewrite app_nil_r, advance_0. repeat split. constructor.
  - rewrite for_loop_S, push_draw_run.
    destruct (pick_nonempty (byte_value (entropy w (drawn w))))
      as (c & -> & Hc); [apply byte_value_range|].
    destruct (IH (pw ++ [Some c]) (advance 1 w)) as (cs' & -> & Hlen & Hall).
    exists (c :: cs'). rewrite advance_advance, <- app_assoc. simpl.
    repeat split; [now rewrite Hlen | now constructor].
Qed.

End NonEmptyCharset.

(** The minimum-meeting loop appends, for each set in turn, exactly its
    minimum count of characters of that set. *)
Lemma meet_minimums_run sets : forall pw w,
  Forall (fun s => chars s <> ""%string /\ 0 <= min s) sets ->
  exists mins,
    meet_minimums sets pw w =
      (Returned (pw ++ map Some (concat mins)),
       advance (Z.to_nat (sum_minimums sets)) w) /\
    Forall2 (fun s m => List.length m = Z.to_nat (min s) /\
                        Forall (in_class (chars s)) m) sets mins.
Proof.
  induction sets as [|s sets IH]; intros pw w Hsets.
  - exists []. simpl. rewrite app_nil_r, advance_0. split; constructor.
  - apply Forall_cons in Hsets as [[Hcs Hmin] Hsets].
    simpl. unfold bind.
    destruct (push_draws_run (chars s) Hcs (Z.to_nat (min s)) pw w)
      as (m & -> & Hlen & Hall).
    destruct (IH (pw ++ map Some m) (advance (Z.to_nat (min s)) w) Hsets)
      as (mins & -> & Hmins).
    exists (m :: mins). split.
    + rewrite advance_advance, <- app_assoc, <- map_app. simpl. do 2 f_equal.
      assert (0 <= sum_minimums sets).
      { clear -Hsets. induction Hsets as [|s' l [_ H] _ IH']; simpl; lia. }
      lia.
    + constructor; [split; assumption | assumption].
Qed.

Lemma sum_minimums_nonneg sets :
  Forall (fun s => chars s <> ""%string /\ 0 <= min s) sets -> 0 <= sum_minimums sets.
Proof. induction 1 as [|s l [_ H] _ IH]; simpl; lia. Qed.

Lemma length_concat_mins sets mins :
  Forall (fun s => chars s <> ""%string /\ 0 <= min s) sets ->
  Forall2 (fun s m => List.length m = Z.to_nat (min s) /\
                      Forall (in_class (chars s)) m) sets mins ->
  Z.of_nat (List.length (concat mins)) = sum_minimums sets.
Proof.
  intros Hsets H. induction H as [|s m sets mins [Hlen _] _ IH]; [reflexivity|].
  apply Forall_cons in Hsets as [[_ Hmin] Hsets].
  simpl. rewrite length_app, Nat2Z.inj_add, IH, Hlen by assumption. lia.
Qed.

Lemma password_charset_nonempty options :
  Forall (fun s => chars s <> ""%string /\ 0 <= min s) (password_sets options) ->
  password_sets options <> [] ->
  password_charset options <> ""%string.
Proof.
  unfold password_charset. intros Hall Hne.
  destruct (password_sets options) as [|s sets]; [congruence|].
  apply Forall_cons in Hall as [[Hcs _] _]. simpl.
  destruct (chars s) as [|c cs]; [congruence|]. simpl. discriminate.
Qed.

(** ** The shuffle *)

Lemma insert_swap_head {A} (l : list A) : forall j x a,
  l !! j = Some x -> x :: <[j := a]> l ≡ₚ a :: l.
Proof.
  induction l as [|b l IH]; intros [|j] x a Hj; simpl in *; try discriminate.
  - injection Hj as ->. apply perm_swap.
  - rewrite perm_swap, (IH j x a Hj). apply perm_swap.
Qed.

Lemma swap_Permutation {A} (l : list (option A)) : forall i j,
  (i < List.length l)%nat -> (j < List.length l)%nat -> swap i j l ≡ₚ l.
Proof.
  unfold swap. induction l as [|a l IH]; intros i j Hi Hj; simpl in *; [lia|].
  destruct i as [|i], j as [|j]; simpl.
  - reflexivity.
  - destruct (lookup_lt_is_Some_2 l j ltac:(lia)) as [y Hy].
    rewrite Hy. simpl. now apply insert_swap_head.
  - destruct (lookup_lt_is_Some_2 l i ltac:(lia)) as [x Hx].
    rewrite Hx. simpl. now apply insert_swap_head.
  - apply perm_skip, IH; lia.
Qed.

(** Every round swaps two positions inside the array, so the shuffle returns a
    permutation of the array it was given, after one byte per round. *)
Lemma shuffle_Permutation i : forall pw w,
  (i = 0 \/ i < List.length pw)%nat ->
  exists pw', shuffle i pw w = (Returned pw', advance i w) /\ pw' ≡ₚ pw.
Proof.
  induction i as [|i IH]; intros pw w Hi.
  - exists pw. simpl. now rewrite advance_0.
  - destruct Hi as [Hi|Hi]; [discriminate|].
    simpl. unfold bind. rewrite getSecureRandomBytes_run by lia.
    change (Z.to_nat 1) with 1%nat.
    set (b := at_index (upcoming 1 w) 0).
    assert (0 <= b) as Hb.
    { subst b. unfold upcoming, at_index. simpl. apply byte_value_range. }
    pose proof (Z.rem_bound_pos b (Z.of_nat (S i) + 1) Hb ltac:(lia)) as Hj.
    set (j := Z.to_nat (Z.rem b (Z.of_nat (S i) + 1))) in *.
    assert (swap (S i) j pw ≡ₚ pw) as Hswap by (apply swap_Permutation; lia).
    destruct (IH (swap (S i) j pw) (advance 1 w)) as (pw' & Hrun & Hperm).
    { right. rewrite (Permutation_length Hswap). lia. }
    exists pw'. split.
    + rewrite Hrun, advance_advance. reflexivity.
    + now rewrite Hperm.
Qed.

Lemma join_chars_Some l : join_chars (map Some l) = l.
Proof. induction l as [|c l IH]; [reflexivity|]. unfold join_chars in *. simpl. now rewrite IH. Qed.

#[local] Instance join_chars_Permutation :
  Proper (Permutation ==> Permutation) join_chars.
Proof.
  unfold join_chars. intros pw pw'.
  induction 1 as [|x l l' _ IH|x y l|l l' l'' _ IH1 _ IH2]; simpl.
  - reflexivity.
  - now rewrite IH.
  - rewrite !app_assoc. f_equiv. apply Permutation_app_comm.
  - now rewrite IH1.
Qed.

(** ** Password assembly *)

(** The array before the shuffle: the minimum-class characters of each set in
    turn, then the filler characters drawn from the whole charset. *)
Lemma assemble_password_run length options w :
  Forall (fun s => chars s <> ""%string /\ 0 <= min s) (password_sets options) ->
  (sum_minimums (password_sets options) < length -> password_sets options <> []) ->
  exists mins filler,
    assemble_password length options w =
      (Returned (map Some (concat mins ++ filler)),
       advance (Z.to_nat (sum_minimums (password_sets options)) +
                Z.to_nat (length - sum_minimums (password_sets options))) w) /\
    Forall2 (fun s m => List.length m = Z.to_nat (min s) /\
                        Forall (in_class (chars s)) m)
            (password_sets options) mins /\
    List.length filler = Z.to_nat (length - sum_minimums (password_sets options)) /\
    Forall (in_class (password_charset options)) filler.
Proof.
  intros Hsets Hfill. unfold assemble_password, bind.
  destruct (meet_minimums_run (password_sets options) [] w Hsets)
    as (mins & -> & Hmins).
  rewrite app_nil_l, length_map.
  rewrite (length_concat_mins _ _ Hsets Hmins).
  set (remaining := length - sum_minimums (password_sets options)).
  destruct (Z.le_gt_cases remaining 0) as [Hle|Hgt].
  - exists mins, []. replace (Z.to_nat remaining) with 0%nat by lia.
    simpl. rewrite app_nil_r, Nat.add_0_r. repeat split; [assumption | constructor].
  - assert (password_charset options <> ""%string) as Hcharset.
    { apply password_charset_nonempty; [assumption|]. apply Hfill.
      subst remaining. lia. }
    destruct (push_draws_run (password_charset options) Hcharset
                (Z.to_nat remaining) (map Some (concat mins))
                (advance (Z.to_nat (sum_minimums (password_sets options))) w))
      as (filler & -> & Hlen & Hall).
    exists mins, filler. rewrite advance_advance, map_app.
    repeat split; assumption.
Qed.

Lemma count_class_Permutation cs l l' :
  l ≡ₚ l' -> count_class cs l = count_class cs l'.
Proof. intros H. unfold count_class. now rewrite H. Qed.

Lemma count_class_app cs l l' :
  count_class cs (l ++ l') = (count_class cs l + count_class cs l')%nat.
Proof. unfold count_class. now rewrite filter_app, length_app. Qed.

Lemma count_class_all cs l :
  Forall (in_class cs) l -> count_class cs l = List.length l.
Proof.
  unfold count_class, in_class. induction 1 as [|c l Hc _ IH]; [reflexivity|].
  rewrite filter_cons_True by assumption. simpl. now rewrite IH.
Qed.

(** Each set's own segment already holds its minimum count. *)
Lemma count_class_mins sets mins :
  Forall2 (fun s m => List.length m = Z.to_nat (min s) /\
                      Forall (in_class (chars s)) m) sets mins ->
  Forall (fun s => (Z.to_nat (min s) <= count_class (chars s) (concat mins))%nat) sets.
Proof.
  induction 1 as [|s m sets mins [Hlen Hall] _ IH]; constructor.
  - simpl. rewrite count_class_app, (count_class_all _ _ Hall). lia.
  - eapply Forall_impl; [exact IH|]. intros s' Hs'. simpl in *.
    rewrite count_class_app. lia.
Qed.

(** ** The password generator *)

(** What [generatePassword] returns when every enabled class has a non-empty
    charset and non-negative minimum: the shuffled concatenation of the
    minimum-class characters and the filler, with the requested length in the
    metadata. *)
Lemma generatePassword_run length options w :
  Forall (fun s => chars s <> ""%string /\ 0 <= min s) (password_sets options) ->
  (sum_minimums (password_sets options) < length -> password_sets options <> []) ->
  exists r w' mins filler,
    generatePassword length options w = (Returned r, w') /\
    Forall2 (fun s m => List.length m = Z.to_nat (min s) /\
                        Forall (in_class (chars s)) m)
            (password_sets options) mins /\
    List.length filler = Z.to_nat (length - sum_minimums (password_sets options)) /\
    Forall (in_class (password_charset options)) filler /\
    Js.chars (value r) ≡ₚ concat mins ++ filler /\
    md_length (metadata r) = length.
Proof.
  intros Hsets Hfill. unfold generatePassword, bind.
  destruct (assemble_password_run length options w Hsets Hfill)
    as (mins & filler & -> & Hmins & Hlen & Hall).
  match goal with
  | |- context [shuffle ?i ?pw ?w0] =>
      destruct (shuffle_Permutation i pw w0) as (pw' & -> & Hperm); [lia|]
  end.
  eexists _, _, mins, filler. split; [reflexivity|].
  cbn [value metadata md_length]. rewrite chars_str.
  repeat split; try assumption.
  rewrite Hperm. now rewrite join_chars_Some.
Qed.

(** C6, as the code has it.  When every enabled class has a non-empty charset
    and a non-negative minimum, some class is enabled unless no filler is
    needed, and the minimums sum to at most [length], the password has
    exactly [length] characters, is a permutation of the minimum-class draws
    followed by the filler draws, and holds at least the minimum count of
    characters of every enabled class. *)
Theorem generatePassword_meets_minimums (length : Z) (options : PasswordOptions)
    (w : World) :
  Forall (fun s => chars s <> ""%string /\ 0 <= min s) (password_sets options) ->
  (sum_minimums (password_sets options) < length -> password_sets options <> []) ->
  sum_minimums (password_sets options) <= length ->
  exists r w' mins filler,
    generatePassword length options w = (Returned r, w') /\
    Js.len (value r) = length /\
    Forall2 (fun s m => List.length m = Z.to_nat (min s) /\
                        Forall (in_class (chars s)) m)
            (password_sets options) mins /\
    Z.of_nat (List.length filler) = length - sum_minimums (password_sets options) /\
    Forall (in_class (password_charset options)) filler /\
    Js.chars (value r) ≡ₚ concat mins ++ filler /\
    Forall (fun s => min s <= Z.of_nat (count_class (chars s) (Js.chars (value r))))
           (password_sets options).
Proof.
  intros Hsets Hfill Hsum.
  destruct (generatePassword_run length options w Hsets Hfill)
    as (r & w' & mins & filler & Hrun & Hmins & Hlen & Hall & Hperm & _).
  exists r, w', mins, filler.
  pose proof (length_concat_mins _ _ Hsets Hmins) as Hcat.
  repeat split; try assumption.
  - unfold Js.len. rewrite <- length_chars, (Permutation_length Hperm), length_app.
    lia.
  - lia.
  - pose proof (count_class_mins _ _ Hmins) as Hcount.
    rewrite Forall_forall in Hcount, Hsets |- *. intros s Hs.
    specialize (Hcount s Hs). destruct (Hsets s Hs) as [_ Hmin].
    rewrite (count_class_Permutation _ _ _ Hperm), count_class_app. lia.
Qed.

Lemma generatePassword_meets_minimums_witness :
  exists r w' mins filler,
    generatePassword 8 no_options zero_world = (Returned r, w') /\
    Js.len (value r) = 8 /\
    Forall2 (fun s m => List.length m = Z.to_nat (min s) /\
                        Forall (in_class (chars s)) m)
            (password_sets no_options) mins /\
    Z.of_nat (List.length filler) = 8 - sum_minimums (password_sets no_options) /\
    Forall (in_class (password_charset no_options)) filler /\
    Js.chars (value r) ≡ₚ concat mins ++ filler /\
    Forall (fun s => min s <= Z.of_nat (count_class (chars s) (Js.chars (value r))))
           (password_sets no_options).
Proof.
  apply (generatePassword_meets_minimums 8 no_options zero_world).
  - repeat constructor; try discriminate; simpl; lia.
  - intros _. discriminate.
  - simpl. lia.
Defined.

(** C6, as the claim words it, fails: with every class switched off the sum of
    the enabled minimums is 0, at most the requested 8, and the password is
    the empty string. *)
Lemma generatePassword_without_classes :
  sum_minimums (password_sets no_classes) <= 8 /\
  exists r w',
    generatePassword 8 no_classes zero_world = (Returned r, w') /\
    value r = ""%string /\ Js.len (value r) <> 8.
Proof.
  split; [simpl; lia|].
  run_generator. split; [reflexivity | discriminate].
Qed.

(** C3.  The metadata of a password reports the requested length, not the
    length of the value: asked for 4 characters with two uppercase, two
    lowercase and two digits (and the default one special character), the
    generator returns 7 characters and reports 4, whatever the random source
    delivers. *)
Theorem generatePassword_reports_requested_length (w : World) :
  exists r w',
    generatePassword 4 two_of_each w = (Returned r, w') /\
    String.length (value r) = 7%nat /\
    md_length (metadata r) = 4.
Proof.
  destruct (generatePassword_run 4 two_of_each w)
    as (r & w' & mins & filler & Hrun & Hmins & Hlen & _ & Hperm & Hmd).
  - repeat constructor; try discriminate; simpl; lia.
  - simpl. lia.
  - exists r, w'. repeat split; try assumption.
    rewrite <- length_chars, (Permutation_length Hperm), length_app, Hlen.
    assert (Z.of_nat (List.length (concat mins)) = 7) as Hcat.
    { rewrite (length_concat_mins (password_sets two_of_each) mins); [reflexivity| |assumption].
      repeat constructor; try discriminate; simpl; lia. }
    simpl in *. lia.
Qed.



(** And through the validated password tool: with an empty special-character
    set the handler accepts the call, one slot is filled with [undefined],
    and the 7-character value is reported as 8. *)
Lemma generatePasswordTool_empty_special_set :
  exists r w',
    generatePasswordTool 8 empty_special_set zero_world = (Content r, w') /\
    String.length (value r) = 7%nat /\
    md_length (metadata r) = 8.
Proof. run_generator. split; reflexivity. Qed.

(** C2, as the claim words it, fails: the core generator returns a password
    for length 4 with minimums 2, 2 and 2. *)
Lemma generatePassword_core_accepts :
  exists r w',
    generatePassword 4 two_of_each zero_world = (Returned r, w') /\
    value r = "Aaa00!A"%string.
Proof. run_generator. reflexivity. Qed.

(** C2, as the code has it.  The check lives in the handler of the password
    tool: when the four minimum counts sum to more than the requested length
    the handler answers with the validation failure, and neither calls the
    generator nor draws a random byte. *)
Theorem generatePasswordTool_rejects_excess_minimums
    (length : Z) (options : PasswordOptions) (w : World) (a b c d : Z) :
  Opt.min_uppercase options = Some a ->
  Opt.min_lowercase options = Some b ->
  Opt.min_numbers options = Some c ->
  Opt.min_special options = Some d ->
  length < a + b + c + d ->
  exists errs,
    generatePasswordTool length options w = (ValidationFailed errs, w) /\
    "Sum of minimum character requirements exceeds password length" ∈ errs.
Proof.
  intros Ha Hb Hc Hd Hsum.
  unfold generatePasswordTool, validatePasswordSecurity.
  assert (minimums_exceed (with_length length options) = true) as ->.
  { unfold minimums_exceed, with_length. simpl. rewrite Ha, Hb, Hc, Hd.
    apply Z.ltb_lt. exact Hsum. }
  cbn [valid errors app]. rewrite bool_decide_eq_false_2 by discriminate.
  eexists. split; [reflexivity|]. constructor.
Qed.

Lemma generatePasswordTool_rejects_excess_minimums_witness :
  exists errs,
    generatePasswordTool 8 three_of_each zero_world = (ValidationFailed errs, zero_world) /\
    "Sum of minimum character requirements exceeds password length" ∈ errs.
Proof.
  apply (generatePasswordTool_rejects_excess_minimums 8 three_of_each zero_world
           3 3 3 3); try reflexivity.
Defined.

(** ** Batch validation *)

Lemma fold_counts_shift (requests : list BatchRequest) : forall acc,
  fold_left (fun sum req => sum + Req.count req) requests acc =
  acc + sum_counts requests.
Proof.
  unfold sum_counts. induction requests as [|r rs IH]; intros acc; simpl; [lia|].
  rewrite IH, (IH (0 + Req.count r)). lia.
Qed.

Lemma sum_counts_cons r rs : sum_counts (r :: rs) = Req.count r + sum_counts rs.
Proof. unfold sum_counts at 1. simpl. rewrite fold_counts_shift. lia. Qed.

Lemma sum_counts_app rs rs' : sum_counts (rs ++ rs') = sum_counts rs + sum_counts rs'.
Proof.
  induction rs as [|r rs IH]; simpl; [reflexivity|].
  rewrite !sum_counts_cons, IH. lia.
Qed.

Lemma sum_counts_normalised (f : BatchRequest -> BatchRequest) requests :
  (forall r, Req.count (f r) = Req.count r) ->
  sum_counts (map f requests) = sum_counts requests.
Proof.
  intros Hf. induction requests as [|r rs IH]; [reflexivity|].
  simpl. rewrite !sum_counts_cons, IH, Hf. reflexivity.
Qed.

(** C1.  A batch whose counts sum to more than 100, or that has an entry with
    a count above 20, is refused by the batch tool with the resource-limit
    messages; the world is returned untouched, so no random byte has been
    drawn and the answer carries no result. *)
Theorem generateBatchTool_enforces_limits (requests : list BatchRequest) (w : World) :
  100 < sum_counts requests \/ Exists (fun r => 20 < Req.count r) requests ->
  exists errs,
    generateBatchTool requests w = (ValidationFailed errs, w) /\
    (100 < sum_counts requests ->
     "Total batch items cannot exceed 100 for resource protection" ∈ errs) /\
    (Exists (fun r => 20 < Req.count r) requests ->
     "Individual request count cannot exceed 20 for resource protection" ∈ errs).
Proof.
  intros Hlimit. unfold generateBatchTool, validateBatchSecurity.
  cbn [valid errors].
  rewrite sum_counts_normalised by reflexivity.
  match goal with
  | |- context [List.length (filter ?P ?l)] => set (high := filter P l)
  end.
  assert (Exists (fun r => 20 < Req.count r) requests <-> (0 < List.length high)%nat)
    as Hhigh.
  { subst high. rewrite Exists_exists. split.
    - intros (r & Hin & Hr).
      assert ({| Req.type := Req.type r; Req.count := Req.count r;
                 Req.options := Some (default no_options (Req.options r)) |}
              ∈ filter (fun req => 20 < Req.count req)
                  (map (fun req => {| Req.type := Req.type req;
                                      Req.count := Req.count req;
                                      Req.options :=
                                        Some (default no_options (Req.options req)) |})
                       requests)) as Hmem.
      { apply list_elem_of_filter. split; [exact Hr|].
        apply list_elem_of_fmap. exists r. split; [reflexivity | exact Hin]. }
      destruct (filter _ _); [now apply elem_of_nil in Hmem | simpl; lia].
    - intros Hpos.
      destruct (filter _ _) as [|x xs] eqn:E; [simpl in Hpos; lia|].
      assert (x ∈ x :: xs) as Hx by constructor. rewrite <- E in Hx.
      apply list_elem_of_filter in Hx as [Hx Hin].
      apply list_elem_of_fmap in Hin as (r & -> & Hin).
      exists r. split; [exact Hin | exact Hx]. }
  destruct (Z.ltb_spec 100 (sum_counts requests)) as [Htot|Htot];
    destruct (Nat.ltb_spec 0 (List.length high)) as [Hcnt|Hcnt];
    cbn [app]; try (rewrite bool_decide_eq_false_2 by discriminate; cbn [negb]).
  - eexists. split; [reflexivity|]. split; intros _; repeat constructor.
  - eexists. split; [reflexivity|]. split; [intros _; repeat constructor|].
    intros H. apply Hhigh in H. lia.
  - eexists. split; [reflexivity|]. split; [lia | intros _; repeat constructor].
  - exfalso. destruct Hlimit as [H|H]; [lia | apply Hhigh in H; lia].
Qed.

Lemma generateBatchTool_enforces_limits_witness :
  exists errs,
    generateBatchTool batch_of_101 zero_world = (ValidationFailed errs, zero_world) /\
    (100 < sum_counts batch_of_101 ->
     "Total batch items cannot exceed 100 for resource protection" ∈ errs) /\
    (Exists (fun r => 20 < Req.count r) batch_of_101 ->
     "Individual request count cannot exceed 20 for resource protection" ∈ errs).
Proof.
  apply (generateBatchTool_enforces_limits batch_of_101 zero_world).
  left. vm_compute. reflexivity.
Defined.

(** The limits are the handler's: called on its own, the core [generateBatch]
    generates all 101 requested items. *)
Remark generateBatch_has_no_limit :
  exists res w',
    generateBatch batch_of_101 zero_world = (Returned res, w') /\
    total_items res = 101 /\
    List.length (concat (map snd (results res))) = 101%nat.
Proof. run_generator. split; reflexivity. Qed.

(** ** Random strings over an emptied charset *)

Lemma pick_empty b : pick "" b = None.
Proof. reflexivity. Qed.

(** C4.  With the custom charset [abc] and the exclusions [abc] the charset is
    empty after the exclusions, and [generateRandomString] still returns: for
    every random source the four requested characters are four copies of the
    text [undefined]. *)
Theorem generateRandomString_empty_charset (w : World) :
  final_charset all_excluded = ""%string /\
  exists r,
    generateRandomString 4 all_excluded w = (Returned r, advance 4 w) /\
    value r = "undefinedundefinedundefinedundefined"%string.
Proof.
  split; [reflexivity|].
  unfold generateRandomString, bind.
  rewrite getSecureRandomBytes_run by lia.
  change (final_charset all_excluded) with ""%string.
  eexists. split; [reflexivity|].
  cbn [value]. unfold draw_string.
  change (Z.to_nat 4) with 4%nat. cbn [seq fold_left].
  rewrite !pick_empty. reflexivity.
Qed.

(** ** ULID *)

(** Only the low five bits of a byte reach the random part. *)
Lemma ulid_random_part_low_bits bytes bytes' :
  map (fun b => Z.rem b 32) bytes = map (fun b => Z.rem b 32) bytes' ->
  ulid_random_part bytes = ulid_random_part bytes'.
Proof.
  intros Heq. unfold ulid_random_part.
  assert (forall i, pick base32 (at_index bytes i) = pick base32 (at_index bytes' i))
    as Hpick.
  { intros i. unfold pick, Js.rem. change (Js.len base32) with 32.
    cbn [Z.eqb]. do 2 f_equal. unfold at_index.
    assert (map (fun b => Z.rem b 32) bytes !! i =
            map (fun b => Z.rem b 32) bytes' !! i) as Hi by now rewrite Heq.
    rewrite !list_lookup_fmap in Hi.
    destruct (bytes !! i), (bytes' !! i); simpl in *; congruence. }
  cbn [seq fold_left]. now rewrite !Hpick.
Qed.

Lemma pick_base32 x : 0 <= x -> pick base32 x = Some (crockford (x mod 32)).
Proof.
  intros Hx. unfold pick, Js.rem. change (Js.len base32) with 32. cbn [Z.eqb].
  rewrite Z.rem_mod_nonneg by lia.
  pose proof (Z.mod_pos_bound x 32 ltac:(lia)) as Hr.
  unfold crockford, Js.index.
  destruct (Z.ltb_spec (x mod 32) 0); [lia|].
  destruct (lookup_lt_is_Some_2 (Js.chars base32) (Z.to_nat (x mod 32))) as [c Hc].
  { change (List.length (Js.chars base32)) with 32%nat. lia. }
  now rewrite Hc.
Qed.

Lemma crockford_is_crockford d : is_crockford (crockford d) = true.
Proof.
  unfold crockford, Js.index.
  destruct (Z.ltb_spec d 0); [reflexivity|].
  destruct (Js.chars base32 !! Z.to_nat d) as [c|] eqn:Hc; [|reflexivity].
  apply bool_decide_eq_true_2, list_elem_of_lookup. eauto.
Qed.

Lemma iter_time_step k t :
  snd (Nat.iter k ulid_time_step ([], t)) = t / 32 ^ Z.of_nat k.
Proof.
  induction k as [|k IH]; [simpl; now rewrite Z.div_1_r|].
  rewrite Nat2Z.inj_succ, Z.pow_succ_r by lia.
  cbn [Nat.iter ulid_time_step snd nat_rect]. 
  change (nat_rect _ _ _ k) with (Nat.iter k ulid_time_step ([], t)).
  rewrite IH, Z.div_div by lia. f_equal. lia.
Qed.

Lemma time_digits_S k t :
  0 <= t ->
  time_digits (S k) t = crockford ((t / 32 ^ Z.of_nat k) mod 32) :: time_digits k t.
Proof.
  intros Ht. unfold time_digits. cbn [Nat.iter nat_rect].
  change (nat_rect _ _ _ k) with (Nat.iter k ulid_time_step ([], t)).
  unfold ulid_time_step at 1. cbn [fst]. rewrite iter_time_step.
  rewrite pick_base32 by (apply Z.div_pos; lia). reflexivity.
Qed.

Lemma crockford_increasing d1 d2 :
  0 <= d1 < d2 -> d2 < 32 ->
  Ascii.compare (crockford d1) (crockford d2) = Lt.
Proof.
  intros H1 H2.
  assert (crockford_increasing_check = true) as Hcheck by (vm_compute; reflexivity).
  unfold crockford_increasing_check in Hcheck.
  rewrite forallb_forall in Hcheck.
  specialize (Hcheck (Z.to_nat d1)). rewrite forallb_forall in Hcheck.
  specialize (Hcheck ltac:(apply in_seq; lia) (Z.to_nat d2) ltac:(apply in_seq; lia)).
  rewrite !Z2Nat.id in Hcheck by lia.
  destruct (Nat.ltb_spec (Z.to_nat d1) (Z.to_nat d2)); [|lia].
  destruct (Ascii.compare _ _); congruence.
Qed.

Lemma ascii_compare_refl c : Ascii.compare c c = Eq.
Proof. apply N.compare_refl. Qed.

Lemma compare_app_lt l1 : forall l2 r1 r2,
  List.length l1 = List.length l2 ->
  String.compare (Js.str l1) (Js.str l2) = Lt ->
  String.compare (Js.str (l1 ++ r1)) (Js.str (l2 ++ r2)) = Lt.
Proof.
  induction l1 as [|c1 l1 IH]; intros [|c2 l2] r1 r2 Hlen Hlt;
    simpl in *; try discriminate.
  destruct (Ascii.compare c1 c2); try congruence.
  apply IH; [lia | assumption].
Qed.

Lemma mod_pow32_S k t :
  0 <= t ->
  (t mod 32 ^ Z.of_nat (S k)) / 32 ^ Z.of_nat k = (t / 32 ^ Z.of_nat k) mod 32 /\
  (t mod 32 ^ Z.of_nat (S k)) mod 32 ^ Z.of_nat k = t mod 32 ^ Z.of_nat k.
Proof.
  intros Ht. rewrite Nat2Z.inj_succ, Z.pow_succ_r by lia.
  assert (0 < 32 ^ Z.of_nat k) as Ha by (apply Z.pow_pos_nonneg; lia).
  set (a := 32 ^ Z.of_nat k) in *.
  replace (32 * a) with (a * 32) by lia.
  rewrite Z.rem_mul_r by lia.
  pose proof (Z.mod_pos_bound t a Ha).
  split.
  - rewrite Z.mul_comm, Z.div_add by lia. rewrite Z.div_small by lia. lia.
  - rewrite Z.mul_comm, Z.mod_add by lia. apply Z.mod_mod. lia.
Qed.

Lemma time_digits_mod k : forall t,
  0 <= t -> time_digits k t = time_digits k (t mod 32 ^ Z.of_nat k).
Proof.
  induction k as [|k IH]; intros t Ht; [reflexivity|].
  assert (0 < 32 ^ Z.of_nat (S k)) as Hpos by (apply Z.pow_pos_nonneg; lia).
  pose proof (Z.mod_pos_bound t _ Hpos) as Hm.
  destruct (mod_pow32_S k t Ht) as [Hq Hr].
  rewrite (time_digits_S k t Ht), (time_digits_S k _ (proj1 Hm)).
  rewrite Hq, Z.mod_mod by lia. f_equal.
  rewrite (IH t Ht), (IH _ (proj1 Hm)), Hr. reflexivity.
Qed.

(** Over timestamps below [32 ^ k], the [k]-character encoding is strictly
    increasing for the order on strings. *)
Lemma time_digits_increasing k : forall t1 t2,
  0 <= t1 < t2 -> t2 < 32 ^ Z.of_nat k ->
  String.compare (Js.str (time_digits k t1)) (Js.str (time_digits k t2)) = Lt.
Proof.
  induction k as [|k IH]; intros t1 t2 H12 Hk; [simpl in Hk; lia|].
  rewrite !time_digits_S by lia.
  rewrite Nat2Z.inj_succ, Z.pow_succ_r in Hk by lia.
  assert (0 < 32 ^ Z.of_nat k) as Ha by (apply Z.pow_pos_nonneg; lia).
  set (a := 32 ^ Z.of_nat k) in *.
  pose proof (Z.div_mod t1 a ltac:(lia)) as E1.
  pose proof (Z.div_mod t2 a ltac:(lia)) as E2.
  pose proof (Z.mod_pos_bound t1 a Ha) as B1.
  pose proof (Z.mod_pos_bound t2 a Ha) as B2.
  assert (0 <= t1 / a) as Q1 by (apply Z.div_pos; lia).
  assert (t2 / a < 32) as Q2 by (apply Z.div_lt_upper_bound; lia).
  assert (t1 / a <= t2 / a) as Q12 by (apply Z.div_le_mono; lia).
  rewrite !Z.mod_small by lia.
  change (Js.str (?c :: ?l)) with (String c (Js.str l)). cbn [String.compare].
  destruct (Z.eq_dec (t1 / a) (t2 / a)) as [Heq|Hne].
  - rewrite Heq, ascii_compare_refl.
    rewrite (time_digits_mod k t1), (time_digits_mod k t2) by lia.
    apply IH; fold a; nia.
  - rewrite crockford_increasing by lia. reflexivity.
Qed.

Lemma at_index_range bytes i :
  Forall (fun b => 0 <= b < 256) bytes -> 0 <= at_index bytes i < 256.
Proof.
  intros Hall. unfold at_index.
  destruct (bytes !! i) as [b|] eqn:Hb; simpl; [|lia].
  rewrite Forall_forall in Hall. apply Hall, list_elem_of_lookup. eauto.
Qed.

Lemma length_time_digits k t : 0 <= t -> List.length (time_digits k t) = k.
Proof.
  intros Ht. induction k as [|k IH]; [reflexivity|].
  rewrite time_digits_S by assumption. simpl. now rewrite IH.
Qed.

Lemma time_digits_crockford k t :
  0 <= t -> Forall (fun c => is_crockford c = true) (time_digits k t).
Proof.
  intros Ht. induction k as [|k IH]; [constructor|].
  rewrite time_digits_S by assumption. constructor; [apply crockford_is_crockford | exact IH].
Qed.

Lemma ulid_random_part_crockford bytes :
  Forall (fun b => 0 <= b < 256) bytes ->
  List.length (ulid_random_part bytes) = 16%nat /\
  Forall (fun c => is_crockford c = true) (ulid_random_part bytes).
Proof.
  intros Hall. unfold ulid_random_part. cbn [seq fold_left].
  repeat match goal with
         | |- context [pick base32 (at_index bytes ?i)] =>
             rewrite (pick_base32 (at_index bytes i))
               by apply (at_index_range bytes i Hall)
         end.
  cbn [Js.append_char app]. split; [reflexivity|].
  repeat constructor; apply crockford_is_crockford.
Qed.

Lemma generateUlid_run w :
  generateUlid w =
  (Returned
     {| value := Js.str (ulid_time_part (clock w (ticks w)) ++
                         ulid_random_part (upcoming 10 (snd (date_now w))));
        name := "ulid";
        description := "Generated ULID for time-sortable unique identification";
        metadata := {| md_type := "ulid";
                       md_length := 26;
                       md_algorithm := "timestamp+secure_random";
                       md_entropy_bits := Bits 80;
                       md_charset := Some "crockford_base32";
                       md_security_level := Level "high";
                       md_extra := [] |} |},
   advance 10 (snd (date_now w))).
Proof. reflexivity. Qed.

(** X28.  A ULID made at a non-negative clock reading has 26 characters of
    the Crockford alphabet. *)
Lemma generateUlid_layout w :
  0 <= clock w (ticks w) ->
  exists r w',
    generateUlid w = (Returned r, w') /\
    String.length (value r) = 26%nat /\
    Forall (fun c => is_crockford c = true) (Js.chars (value r)).
Proof.
  intros Ht. rewrite generateUlid_run. eexists _, _. split; [reflexivity|].
  cbn [value]. rewrite length_str, chars_str, length_app.
  destruct (ulid_random_part_crockford (upcoming 10 (snd (date_now w))))
    as [Hlen Hall]; [apply upcoming_range|].
  change (ulid_time_part ?t) with (time_digits 10 t).
  rewrite length_time_digits, Hlen by assumption. split; [reflexivity|].
  apply Forall_app. split; [now apply time_digits_crockford | exact Hall].
Qed.

(** X29.  Of two ULIDs made at different clock readings below [2 ^ 50], the
    one with the larger reading is the larger string, whatever the random
    parts. *)
Lemma generateUlid_time_ordered w1 w2 :
  0 <= clock w1 (ticks w1) < clock w2 (ticks w2) ->
  clock w2 (ticks w2) < 2 ^ 50 ->
  exists r1 w1' r2 w2',
    generateUlid w1 = (Returned r1, w1') /\
    generateUlid w2 = (Returned r2, w2') /\
    String.compare (value r1) (value r2) = Lt.
Proof.
  intros H12 Hbound. rewrite !generateUlid_run.
  eexists _, _, _, _. split; [reflexivity|]. split; [reflexivity|].
  cbn [value]. change (ulid_time_part ?t) with (time_digits 10 t).
  apply compare_app_lt.
  - rewrite !length_time_digits by lia. reflexivity.
  - apply time_digits_increasing; [assumption|].
    change (32 ^ Z.of_nat 10) with (2 ^ 50). assumption.
Qed.

(** C5.  Two random inputs that differ (the first byte is 0 in one and 32 in
    the other) give, at the same clock reading, the same ULID, while the
    metadata reports 80 bits of entropy. *)
Theorem generateUlid_loses_random_bits :
  upcoming 10 zero_world <> upcoming 10 high_bit_world /\
  exists r1 w1 r2 w2,
    generateUlid zero_world = (Returned r1, w1) /\
    generateUlid high_bit_world = (Returned r2, w2) /\
    value r1 = value r2 /\
    md_entropy_bits (metadata r1) = Bits 80.
Proof.
  split; [discriminate|].
  eexists _, _, _, _. repeat split; vm_compute; reflexivity.
Qed.

(** ** Initialization vectors *)

Lemma lookup_ivSizes key :
  ~ inherited_name key ->
  size_or (lookup_table ivSizes key) 16 = Own (documented_iv_size key).
Proof.
  intros Hkey. unfold lookup_table, documented_iv_size, ivSizes.
  cbn [List.find fst snd].
  do 6 (case_bool_decide; [subst key; reflexivity|]).
  cbn [List.find].
  case_bool_decide; [exfalso; apply Hkey; now left|].
  case_bool_decide; [exfalso; apply Hkey; now right|].
  rewrite !bool_decide_eq_false_2; [reflexivity|..];
    rewrite ?elem_of_cons, ?elem_of_nil; intuition congruence.
Qed.

Lemma documented_iv_size_range key : 0 <= documented_iv_size key <= 16.
Proof. unfold documented_iv_size. repeat case_bool_decide; lia. Qed.

(** C8, as the code has it.  The size follows the cipher table, matched on the
    lower-cased name, and is 16 for any other name; the call always returns,
    with twice that many hex characters.  The metadata is a function of the
    name as given and of the size used: it has no field that records whether
    the size came from the table or from the default. *)
Theorem generateIv_sizes (algorithm : string) (w : World) :
  ~ inherited_name (Js.toLowerCase algorithm) ->
  let size := documented_iv_size (Js.toLowerCase algorithm) in
  exists r,
    generateIv algorithm w = (Returned r, advance (Z.to_nat size) w) /\
    Js.len (value r) = 2 * size /\
    Forall (fun c => is_hex_char c = true) (Js.chars (value r)) /\
    metadata r = iv_metadata algorithm size.
Proof.
  intros Hkey size. unfold generateIv, bind.
  rewrite (lookup_ivSizes _ Hkey). fold size. cbn [allocation].
  rewrite getSecureRandomBytes_run
    by (pose proof (documented_iv_size_range (Js.toLowerCase algorithm)); lia).
  eexists. split; [reflexivity|]. cbn [value metadata].
  assert (Js.len (Js.str (bytesToHex (upcoming (Z.to_nat size) w))) = 2 * size)
    as Hlen.
  { rewrite len_str, length_bytesToHex, length_upcoming.
    pose proof (documented_iv_size_range (Js.toLowerCase algorithm)).
    subst size. lia. }
  repeat split.
  - exact Hlen.
  - rewrite chars_str. apply bytesToHex_hex.
  - unfold iv_metadata. rewrite Hlen. reflexivity.
Qed.

Lemma generateIv_sizes_witness :
  exists r,
    generateIv "ChaCha20" zero_world = (Returned r, advance 12 zero_world) /\
    Js.len (value r) = 24 /\
    Forall (fun c => is_hex_char c = true) (Js.chars (value r)) /\
    metadata r = iv_metadata "ChaCha20" 12.
Proof.
  apply (generateIv_sizes "ChaCha20" zero_world).
  intros [H|H]; vm_compute in H; discriminate.
Defined.

(** C8, as the claim words it, fails: [aes512] is not in the table and
    [aes256] is, yet apart from the echoed name the two results carry the same
    metadata, so nothing in it shows that a default was used. *)
Lemma generateIv_fallback_unmarked :
  lookup_table ivSizes (Js.toLowerCase "aes512") = Absent /\
  lookup_table ivSizes (Js.toLowerCase "aes256") = Own 16 /\
  exists r1 r2 w',
    generateIv "aes512" zero_world = (Returned r1, w') /\
    generateIv "aes256" zero_world = (Returned r2, w') /\
    metadata r1 = iv_metadata "aes512" 16 /\
    metadata r2 = iv_metadata "aes256" 16.
Proof.
  split; [reflexivity|]. split; [reflexivity|].
  eexists _, _, _. repeat split; vm_compute; reflexivity.
Qed.

(** ** The batch accumulator *)

Lemma obj_get_replace_eq key v results :
  key ∈ map fst results -> obj_get key (replace_key key v results) = Some v.
Proof.
  unfold obj_get. induction results as [|[k old] rest IH]; simpl; intros Hin.
  - now apply elem_of_nil in Hin.
  - case_bool_decide as Hk; simpl.
    + now rewrite bool_decide_eq_true_2.
    + rewrite bool_decide_eq_false_2 by assumption. apply IH.
      apply elem_of_cons in Hin as [Hin|Hin]; [congruence | exact Hin].
Qed.

Lemma obj_get_insert_eq key v results :
  key ∉ map fst results -> obj_get key (insert_key key v results) = Some v.
Proof.
  unfold obj_get. induction results as [|[k old] rest IH]; simpl; intros Hin.
  - now rewrite bool_decide_eq_true_2.
  - apply not_elem_of_cons in Hin as [Hne Hin].
    destruct (precedes key k); simpl.
    + now rewrite bool_decide_eq_true_2.
    + rewrite bool_decide_eq_false_2 by congruence. now apply IH.
Qed.

Lemma obj_get_set_eq key v results : obj_get key (obj_set key v results) = Some v.
Proof.
  unfold obj_set. case_bool_decide.
  - now apply obj_get_replace_eq.
  - now apply obj_get_insert_eq.
Qed.

Lemma obj_get_set_ne key key' v results :
  key' <> key -> obj_get key' (obj_set key v results) = obj_get key' results.
Proof.
  intros Hne. unfold obj_set, obj_get. case_bool_decide as Hin; clear Hin.
  - induction results as [|[k old] rest IH]; simpl; [reflexivity|].
    case_bool_decide as Hk; simpl.
    + subst k. now rewrite !bool_decide_eq_false_2 by congruence.
    + case_bool_decide; [reflexivity | exact IH].
  - induction results as [|[k old] rest IH]; simpl.
    + now rewrite bool_decide_eq_false_2 by congruence.
    + destruct (precedes key k); simpl.
      * now rewrite (bool_decide_eq_false_2 (key = key')) by congruence.
      * case_bool_decide; [reflexivity | exact IH].
Qed.

Lemma obj_get_push_eq key x items results :
  obj_get key results = Some items ->
  obj_get key (obj_push key x results) = Some (items ++ [x]).
Proof. intros H. unfold obj_push. rewrite H. apply obj_get_set_eq. Qed.

Lemma obj_get_push_ne key key' x results :
  key' <> key -> obj_get key' (obj_push key x results) = obj_get key' results.
Proof.
  intros Hne. unfold obj_push.
  destruct (obj_get key results); [now apply obj_get_set_ne | reflexivity].
Qed.

(** The inner loop pushes onto the entry's own array exactly what the entry
    generates and leaves every other property alone; it throws when one of
    the generator calls throws. *)
Lemma request_loop type options n : forall results items w,
  obj_get type results = Some items ->
  match for_loop n
          (fun items => result <- generate_one type options ;; ret (items ++ [result]))
          items w with
  | (Returned items', w') =>
      exists results',
        for_loop n
          (fun results =>
             result <- generate_one type options ;;
             ret (obj_push type result results))
          results w = (Returned results', w') /\
        obj_get type results' = Some items' /\
        forall key, key <> type -> obj_get key results' = obj_get key results
  | (Thrown e, w') =>
      for_loop n
        (fun results =>
           result <- generate_one type options ;;
           ret (obj_push type result results))
        results w = (Thrown e, w')
  end.
Proof.
  induction n as [|n IH]; intros results items w Hget.
  - exists results. repeat split. exact Hget.
  - rewrite !for_loop_S. cbv beta. rewrite !bind_run.
    destruct (generate_one type options w) as [[x|e] w1]; [|reflexivity].
    rewrite !ret_run.
    specialize (IH (obj_push type x results) (items ++ [x]) w1
                  (obj_get_push_eq _ _ _ _ Hget)).
    destruct (for_loop n _ (items ++ [x]) w1) as [[items'|e] w2]; [|exact IH].
    destruct IH as (results' & Hrun & Hres & Hother).
    exists results'. repeat split; try assumption.
    intros key Hkey. rewrite (Hother key Hkey). now apply obj_get_push_ne.
Qed.

Lemma run_request_spec request results w :
  match generate_many (Req.type request)
          (default no_options (Req.options request))
          (Z.to_nat (Req.count request)) w with
  | (Returned items, w') =>
      exists results',
        run_request request results w = (Returned results', w') /\
        obj_get (Req.type request) results' = Some items /\
        forall key, key <> Req.type request ->
                    obj_get key results' = obj_get key results
  | (Thrown e, w') => run_request request results w = (Thrown e, w')
  end.
Proof.
  unfold generate_many, run_request.
  pose proof (request_loop (Req.type request)
                (default no_options (Req.options request))
                (Z.to_nat (Req.count request))
                (obj_set (Req.type request) [] results) [] w
                (obj_get_set_eq _ _ _)) as H.
  destruct (for_loop _ _ [] w) as [[items|e] w']; [|exact H].
  destruct H as (results' & Hrun & Hres & Hother).
  exists results'. repeat split; try assumption.
  intros key Hkey. rewrite (Hother key Hkey). now apply obj_get_set_ne.
Qed.

(** Later entries of other types do not touch a type's array. *)
Lemma run_requests_other t requests : forall results w results' w',
  Forall (fun r => Req.type r <> t) requests ->
  run_requests requests results w = (Returned results', w') ->
  obj_get t results' = obj_get t results.
Proof.
  induction requests as [|r rs IH]; intros results w results' w' Hall Hrun.
  - simpl in Hrun. unfold ret in Hrun. now injection Hrun as <- _.
  - apply Forall_cons in Hall as [Hr Hall].
    simpl in Hrun. unfold bind in Hrun.
    pose proof (run_request_spec r results w) as Hspec.
    destruct (generate_many _ _ _ w) as [[items|e] w1].
    + destruct Hspec as (results1 & Hrun1 & _ & Hother).
      rewrite Hrun1 in Hrun. rewrite (IH _ _ _ _ Hall Hrun).
      apply Hother. congruence.
    + rewrite Hspec in Hrun. discriminate.
Qed.

Lemma run_requests_app pre rest : forall results w,
  run_requests (pre ++ rest) results w =
  (results' <- run_requests pre results ;; run_requests rest results') w.
Proof.
  induction pre as [|r pre IH]; intros results w; [reflexivity|].
  simpl. rewrite !bind_run.
  destruct (run_request r results w) as [[results1|e] w1]; [|reflexivity].
  rewrite IH, bind_run. reflexivity.
Qed.

Lemma length_generate_loop type options n : forall items w items' w',
  for_loop n
    (fun items => result <- generate_one type options ;; ret (items ++ [result]))
    items w = (Returned items', w') ->
  List.length items' = (List.length items + n)%nat.
Proof.
  induction n as [|n IH]; intros items w items' w' Hrun.
  - simpl in Hrun. rewrite ret_run in Hrun. injection Hrun as <- _. lia.
  - rewrite for_loop_S in Hrun. cbv beta in Hrun. rewrite bind_run in Hrun.
    destruct (generate_one type options w) as [[x|e] w1]; [|discriminate].
    rewrite ret_run in Hrun. apply IH in Hrun. rewrite length_app in Hrun.
    simpl in Hrun. lia.
Qed.

(** C10.  When [generateBatch] returns, the array stored under a type holds
    exactly what the last entry of that type generated, in the world its turn
    started in, so it has that entry's count of items and whatever earlier
    entries of the same type produced is gone; [total_items] is nevertheless
    the sum of the counts of all the entries. *)
Theorem generateBatch_keeps_last_entry
    (pre post : list BatchRequest) (request : BatchRequest)
    (w w' : World) (res : BatchResult) :
  generateBatch (pre ++ request :: post) w = (Returned res, w') ->
  Forall (fun r => Req.type r <> Req.type request) post ->
  exists results1 w1 items w2,
    run_requests pre [] w = (Returned results1, w1) /\
    generate_many (Req.type request) (default no_options (Req.options request))
      (Z.to_nat (Req.count request)) w1 = (Returned items, w2) /\
    obj_get (Req.type request) (results res) = Some items /\
    List.length items = Z.to_nat (Req.count request) /\
    total_items res = sum_counts pre + Req.count request + sum_counts post.
Proof.
  intros Hrun Hpost. unfold generateBatch, bind in Hrun.
  rewrite run_requests_app in Hrun. unfold bind in Hrun.
  destruct (run_requests pre [] w) as [[results1|e] w1]; [|discriminate].
  simpl in Hrun. unfold bind in Hrun.
  pose proof (run_request_spec request results1 w1) as Hspec.
  destruct (generate_many _ _ _ w1) as [[items|e] w2] eqn:Hmany.
  - destruct Hspec as (results2 & Hrun2 & Hget & _). rewrite Hrun2 in Hrun.
    destruct (run_requests post results2 w2) as [[results3|e] w3] eqn:Hrest;
      [|discriminate].
    unfold ret in Hrun. injection Hrun as <- <-.
    exists results1, w1, items, w2. cbn [results total_items].
    repeat split.
    + exact Hmany.
    + rewrite (run_requests_other _ _ _ _ _ _ Hpost Hrest). exact Hget.
    + apply length_generate_loop in Hmany. simpl in Hmany. exact Hmany.
    + rewrite sum_counts_app, sum_counts_cons. lia.
  - rewrite Hspec in Hrun. discriminate.
Qed.

(** Two [pin] entries of counts 2 and 3: three results are returned under
    [pin] and [total_items] is 5. *)
Lemma generateBatch_keeps_last_entry_witness :
  exists res w',
    generateBatch two_pin_entries zero_world = (Returned res, w') /\
    map fst (results res) = ["pin"] /\
    exists results1 w1 items w2,
      run_requests [entry "pin" 2] [] zero_world = (Returned results1, w1) /\
      generate_many "pin" no_options 3 w1 = (Returned items, w2) /\
      obj_get "pin" (results res) = Some items /\
      List.length items = 3%nat /\
      total_items res = 2 + 3 + 0.
Proof.
  run_generator. split; [reflexivity|].
  eapply (generateBatch_keeps_last_entry [entry "pin" 2] [] (entry "pin" 3)
            zero_world).
  - vm_compute. reflexivity.
  - constructor.
Defined.

(** * Further properties of the generators *)

(** ** Strings drawn character by character *)

Lemma draw_loop cs bytes :
  cs <> ""%string -> Forall (fun b => 0 <= b < 256) bytes ->
  forall n a acc,
    exists l,
      fold_left (fun r i => Js.append_char r (pick cs (at_index bytes i)))
                (seq a n) acc = acc ++ l /\
      List.length l = n /\ Forall (in_class cs) l.
Proof.
  intros Hcs Hbytes. induction n as [|n IH]; intros a acc.
  - exists []. simpl. rewrite app_nil_r. repeat split. constructor.
  - cbn [seq fold_left].
    destruct (pick_nonempty cs Hcs (at_index bytes a)) as (c & -> & Hc);
      [apply at_index_range, Hbytes|].
    cbn [Js.append_char].
    destruct (IH (S a) (acc ++ [c])) as (l & -> & Hlen & Hall).
    exists (c :: l). rewrite <- app_assoc. simpl.
    repeat split; [now rewrite Hlen | now constructor].
Qed.

(** Drawing [n] characters from a non-empty charset gives [n] characters of
    that charset. *)
Lemma draw_string_chars cs bytes n :
  cs <> ""%string -> Forall (fun b => 0 <= b < 256) bytes ->
  List.length (draw_string cs bytes n) = n /\
  Forall (in_class cs) (draw_string cs bytes n).
Proof.
  intros Hcs Hbytes. unfold draw_string.
  destruct (draw_loop cs bytes Hcs Hbytes n 0%nat []) as (l & -> & Hlen & Hall).
  split; assumption.
Qed.

(** X1.  For a length from 0 to 65536 (21 when none is given)
    [generateNanoId] reads that many random bytes and returns exactly that
    many characters, all of the 64 URL-safe characters; [metadata.length] is
    that length. *)
Theorem generateNanoId_exact (length : option Z) (w : World) :
  0 <= default 21 length <= 65536 ->
  exists r,
    generateNanoId length w =
      (Returned r, advance (Z.to_nat (default 21 length)) w) /\
    Js.len (value r) = default 21 length /\
    Forall (in_class CHARSETS.url_safe) (Js.chars (value r)) /\
    md_length (metadata r) = default 21 length.
Proof.
  intros Hlen. unfold generateNanoId. rewrite bind_run.
  rewrite getSecureRandomBytes_run by lia. rewrite ret_run.
  eexists. split; [reflexivity|]. cbn [value metadata md_length].
  rewrite len_str, chars_str.
  destruct (draw_string_chars CHARSETS.url_safe
              (upcoming (Z.to_nat (default 21 length)) w)
              (Z.to_nat (default 21 length)))
    as [Hl Hall]; [discriminate | apply upcoming_range |].
  rewrite Hl. repeat split; [lia | exact Hall].
Qed.

Lemma generateNanoId_exact_witness :
  exists r,
    generateNanoId None zero_world = (Returned r, advance 21 zero_world) /\
    Js.len (value r) = 21 /\
    Forall (in_class CHARSETS.url_safe) (Js.chars (value r)) /\
    md_length (metadata r) = 21.
Proof.
  apply (generateNanoId_exact None zero_world). simpl. lia.
Defined.

(** What [generatePin] returns for a length within the quota. *)
Lemma generatePin_run length w :
  0 <= length <= 65536 ->
  exists r,
    generatePin length w = (Returned r, advance (Z.to_nat length) w) /\
    Js.len (value r) = length /\
    Forall (in_class CHARSETS.numbers) (Js.chars (value r)) /\
    md_length (metadata r) = length.
Proof.
  intros Hlen. unfold generatePin. rewrite bind_run.
  rewrite getSecureRandomBytes_run by lia. rewrite ret_run.
  eexists. split; [reflexivity|]. cbn [value metadata md_length].
  rewrite len_str, chars_str.
  destruct (draw_string_chars CHARSETS.numbers
              (upcoming (Z.to_nat length) w) (Z.to_nat length))
    as [Hl Hall]; [discriminate | apply upcoming_range |].
  rewrite Hl. repeat split; [lia | exact Hall].
Qed.

(** X2.  For a length from 0 to 65536 [generatePin] reads [length] random
    bytes and returns exactly [length] decimal digits; [metadata.length] is
    the length. *)
Theorem generatePin_digits (length : Z) (w : World) :
  0 <= length <= 65536 ->
  exists r,
    generatePin length w = (Returned r, advance (Z.to_nat length) w) /\
    Js.len (value r) = length /\
    Forall (in_class CHARSETS.numbers) (Js.chars (value r)) /\
    md_length (metadata r) = length.
Proof. apply generatePin_run. Qed.

Lemma generatePin_digits_witness :
  exists r,
    generatePin 6 zero_world = (Returned r, advance 6 zero_world) /\
    Js.len (value r) = 6 /\
    Forall (in_class CHARSETS.numbers) (Js.chars (value r)) /\
    md_length (metadata r) = 6.
Proof. apply (generatePin_digits 6 zero_world). lia. Defined.

(** ** Random strings *)

Lemma chars_append a b : Js.chars (a +:+ b) = Js.chars a ++ Js.chars b.
Proof. induction a as [|c a IH]; simpl; [reflexivity | now rewrite IH]. Qed.

Lemma len_append a b : Js.len (a +:+ b) = Js.len a + Js.len b.
Proof.
  unfold Js.len. rewrite <- !length_chars, chars_append, length_app. lia.
Qed.

(** The [switch] of [applyCase], by decision on the option. *)
Lemma applyCase_decide s caseOption :
  applyCase s caseOption =
  if bool_decide (caseOption = Some "upper") then Js.toUpperCase s
  else if bool_decide (caseOption = Some "lower") then Js.toLowerCase s
  else s.
Proof.
  destruct caseOption as [c|]; [|reflexivity].
  destruct (string_dec c "upper") as [->|Hu]; [reflexivity|].
  destruct (string_dec c "lower") as [->|Hl]; [reflexivity|].
  rewrite !bool_decide_eq_false_2 by congruence. unfold applyCase.
  repeat (destruct c as [|[[] [] [] [] [] [] [] []] c]; try reflexivity;
          try congruence).
Qed.



(** The exclusion loop is a filter: it keeps, in order, the characters that do
    not occur in the exclusions. *)
Lemma remove_loop_filter (excluded : list ascii) : forall cs,
  fold_left (fun cs c => Js.remove_char c cs) excluded cs =
  filter (fun c => c ∉ excluded) cs.
Proof.
  induction excluded as [|e excluded IH]; intros cs; simpl.
  - induction cs as [|c cs IHcs]; [reflexivity|].
    rewrite filter_cons_True by apply not_elem_of_nil. now f_equal.
  - rewrite IH. unfold Js.remove_char. rewrite list_filter_filter.
    apply list_filter_iff. intros c. rewrite not_elem_of_cons. tauto.
Qed.

(** What the exclusions leave of the charset. *)
Lemma final_charset_filter (options : StringOptions) :
  Js.chars (final_charset options) =
  filter (fun c => c ∉ Js.chars (default "" (Opt.exclude_chars options)))
         (Js.chars (assembled_charset options)).
Proof.
  unfold final_charset, remove_excluded.
  destruct (Opt.exclude_chars options) as [[|e ex]|]; simpl.
  - induction (Js.chars _) as [|c cs IH]; [reflexivity|].
    rewrite filter_cons_True by apply not_elem_of_nil. now f_equal.
  - rewrite chars_str. apply (remove_loop_filter (e :: Js.chars ex)).
  - induction (Js.chars _) as [|c cs IH]; [reflexivity|].
    rewrite filter_cons_True by apply not_elem_of_nil. now f_equal.
Qed.

(** What [generateRandomString] returns over a non-empty charset. *)
Lemma generateRandomString_run (length : Z) (options : StringOptions)
    (w : World) :
  0 <= length <= 65536 ->
  final_charset options <> ""%string ->
  exists r body,
    generateRandomString length options w =
      (Returned r, advance (Z.to_nat length) w) /\
    value r = default "" (Opt.prefix options) +:+
              applyCase body (Opt.case options) +:+
              default "" (Opt.suffix options) /\
    Js.len body = length /\
    Forall (in_class (final_charset options)) (Js.chars body) /\
    md_length (metadata r) = Js.len (value r).
Proof.
  intros Hlen Hcs. unfold generateRandomString. rewrite bind_run.
  rewrite getSecureRandomBytes_run by lia. rewrite ret_run.
  destruct (draw_string_chars (final_charset options)
              (upcoming (Z.to_nat length) w) (Z.to_nat length))
    as [Hl Hall]; [assumption | apply upcoming_range |].
  eexists _, _. split; [reflexivity|]. cbn [value metadata md_length].
  unfold addAffixes. split; [reflexivity|].
  rewrite len_str, chars_str, Hl.
  repeat split; [lia | exact Hall].
Qed.



(** X4.  When the length is from 0 to 65536, the exclusions leave a non-empty
    charset and no [upper] or [lower] case transformation is asked for, no
    character of [exclude_chars] occurs in the generated body, the part of
    the value between the prefix and the suffix. *)
Theorem generateRandomString_respects_exclusions (length : Z)
    (options : StringOptions) (w : World) :
  0 <= length <= 65536 ->
  final_charset options <> ""%string ->
  Opt.case options <> Some "upper" ->
  Opt.case options <> Some "lower" ->
  exists r body,
    generateRandomString length options w =
      (Returned r, advance (Z.to_nat length) w) /\
    value r = default "" (Opt.prefix options) +:+ body +:+
              default "" (Opt.suffix options) /\
    Js.len body = length /\
    Forall (fun c => c ∉ Js.chars (default "" (Opt.exclude_chars options)))
           (Js.chars body).
Proof.
  intros Hlen Hcs Hup Hlow.
  destruct (generateRandomString_run length options w Hlen Hcs)
    as (r & body & Hrun & Hval & Hbody & Hall & _).
  exists r, body. rewrite applyCase_decide in Hval.
  rewrite !bool_decide_eq_false_2 in Hval by assumption.
  repeat split; try assumption.
  eapply Forall_impl; [exact Hall|]. intros c Hc. unfold in_class in Hc.
  rewrite final_charset_filter in Hc. now apply list_elem_of_filter in Hc.
Qed.

Lemma generateRandomString_respects_exclusions_witness :
  exists r body,
    generateRandomString 32 no_lookalikes zero_world =
      (Returned r, advance 32 zero_world) /\
    value r = default "" (Opt.prefix no_lookalikes) +:+ body +:+
              default "" (Opt.suffix no_lookalikes) /\
    Js.len body = 32 /\
    Forall (fun c => c ∉ Js.chars (default "" (Opt.exclude_chars no_lookalikes)))
           (Js.chars body).
Proof.
  apply (generateRandomString_respects_exclusions 32 no_lookalikes zero_world);
    [lia | discriminate..].
Defined.

(** ** Base64 *)

Ltac div_lia := Z.to_euclidean_division_equations; lia.

(** Induction that follows the three-byte groups of [bytesToBase64]. *)
Lemma list_ind_groups {A} (P : list A -> Prop) :
  P [] -> (forall a, P [a]) -> (forall a b, P [a; b]) ->
  (forall a b c rest, P rest -> P (a :: b :: c :: rest)) ->
  forall l, P l.
Proof.
  intros H0 H1 H2 H3.
  assert (forall l, P l /\ (forall a, P (a :: l)) /\ (forall a b, P (a :: b :: l)))
    as H.
  { induction l as [|x l (IHl & IH1 & IH2)].
    - repeat split; auto.
    - repeat split; auto. }
  intros l. apply H.
Qed.

Lemma b64_in_alphabet d : in_class base64_alphabet (b64 d).
Proof.
  unfold b64, Js.index, in_class.
  destruct (Z.ltb_spec d 0); [repeat constructor|].
  destruct (Js.chars base64_alphabet !! Z.to_nat d) as [c|] eqn:Hc;
    [|repeat constructor].
  apply list_elem_of_lookup. eauto.
Qed.

(** The encoding is a run of alphabet characters followed by the padding:
    [ceil(4n/3)] characters and then [=] up to a multiple of four. *)
Lemma bytesToBase64_split bytes :
  exists body,
    bytesToBase64 bytes =
      body ++ replicate (Z.to_nat ((3 - Z.of_nat (List.length bytes) mod 3) mod 3))
                        "="%char /\
    Forall (in_class base64_alphabet) body /\
    Z.of_nat (List.length body) = Js.ceil_div (4 * Z.of_nat (List.length bytes)) 3.
Proof.
  induction bytes as [|a|a b|a b c rest (body & Heq & Hall & Hlen)]
    using list_ind_groups.
  - exists []. repeat split. constructor.
  - exists [b64 (a / 4); b64 (a mod 4 * 16)].
    split; [reflexivity|]. split; [|reflexivity].
    repeat (constructor; [apply b64_in_alphabet|]). constructor.
  - exists [b64 (a / 4); b64 (a mod 4 * 16 + b / 16); b64 (b mod 16 * 4)].
    split; [reflexivity|]. split; [|reflexivity].
    repeat (constructor; [apply b64_in_alphabet|]). constructor.
  - cbn [bytesToBase64]. rewrite Heq.
    exists (b64 (a / 4) :: b64 (a mod 4 * 16 + b / 16) ::
            b64 (b mod 16 * 4 + c / 64) :: b64 (c mod 64) :: body).
    split; [|split].
    + cbn [app]. do 5 f_equal. cbn [List.length].
      rewrite !Nat2Z.inj_succ. f_equal. div_lia.
    + repeat (constructor; [apply b64_in_alphabet|]). exact Hall.
    + cbn [List.length]. rewrite !Nat2Z.inj_succ, Hlen.
      unfold Js.ceil_div. div_lia.
Qed.

Lemma length_bytesToBase64 bytes :
  Z.of_nat (List.length (bytesToBase64 bytes)) =
  4 * Js.ceil_div (Z.of_nat (List.length bytes)) 3.
Proof.
  destruct (bytesToBase64_split bytes) as (body & -> & _ & Hlen).
  rewrite length_app, length_replicate, Nat2Z.inj_add, Hlen.
  unfold Js.ceil_div. div_lia.
Qed.

(** Decides a closed decidable proposition by evaluation. *)
Ltac decide_by_evaluation :=
  match goal with
  | |- ?P => apply (bool_decide_eq_true_1 P); vm_compute; reflexivity
  end.

Lemma equals_not_base64 : ~ in_class base64_alphabet "="%char.
Proof. unfold in_class. decide_by_evaluation. Qed.

(** The two substitutions of [bytesToBase64Url] send the alphabet into the
    URL-safe one and never produce the padding character. *)
Lemma url_substitution_safe :
  Forall (fun c =>
            let c' := if bool_decide (c = "+"%char) then "-"%char else c in
            let c'' := if bool_decide (c' = "/"%char) then "_"%char else c' in
            in_class CHARSETS.url_safe c'' /\ c'' <> "="%char)
         (Js.chars base64_alphabet).
Proof. unfold in_class. decide_by_evaluation. Qed.

(** Without its padding the URL-safe encoding has [ceil(4n/3)] characters, all
    of the URL-safe alphabet. *)
Lemma bytesToBase64Url_chars bytes :
  Forall (in_class CHARSETS.url_safe) (bytesToBase64Url bytes) /\
  Z.of_nat (List.length (bytesToBase64Url bytes)) =
    Js.ceil_div (4 * Z.of_nat (List.length bytes)) 3.
Proof.
  unfold bytesToBase64Url.
  destruct (bytesToBase64_split bytes) as (body & -> & Hall & Hlen).
  rewrite <- Hlen. clear Hlen.
  generalize (Z.to_nat ((3 - Z.of_nat (List.length bytes) mod 3) mod 3)).
  intros k. pose proof url_substitution_safe as Hsafe.
  rewrite Forall_forall in Hsafe.
  induction Hall as [|c body Hc _ IH]; simpl.
  - induction k as [|k IHk]; [split; [constructor | reflexivity]|].
    simpl. unfold Js.remove_char in *. rewrite filter_cons_False by tauto.
    exact IHk.
  - destruct (Hsafe c Hc) as [Hin Hne]. cbv zeta in Hin, Hne.
    unfold Js.remove_char in *. rewrite filter_cons_True by exact Hne.
    destruct IH as [IH1 IH2]. split; [now constructor|].
    simpl. lia.
Qed.

(** ** API keys and tokens *)

Lemma slice0_take (s : list ascii) n :
  0 <= n -> n <= Z.of_nat (List.length s) ->
  Js.slice0 s n = take (Z.to_nat n) s /\
  Z.of_nat (List.length (Js.slice0 s n)) = n.
Proof.
  intros H0 Hn. unfold Js.slice0. destruct (Z.ltb_spec n 0); [lia|].
  split; [reflexivity|]. rewrite length_take. lia.
Qed.

(** The first [n] characters of the padded encoding are alphabet characters
    whenever [n] is at most the unpadded length. *)
Lemma take_bytesToBase64 bytes n :
  Z.of_nat n <= Js.ceil_div (4 * Z.of_nat (List.length bytes)) 3 ->
  Forall (in_class base64_alphabet) (take n (bytesToBase64 bytes)).
Proof.
  intros Hn. destruct (bytesToBase64_split bytes) as (body & -> & Hall & Hlen).
  rewrite take_app_le by lia. now apply Forall_take.
Qed.

Lemma hex_chars_in_class bytes : Forall (in_class hex_lower) (bytesToHex bytes).
Proof.
  eapply Forall_impl; [apply bytesToHex_hex|].
  intros c Hc. unfold is_hex_char in Hc. now apply bool_decide_eq_true_1 in Hc.
Qed.

(** What [generateApiKey] returns for a length whose
    [ceil (length * 3 / 4)] bytes are within the quota. *)
Lemma generateApiKey_run format length w :
  0 <= length <= 87381 ->
  exists r,
    generateApiKey format length w =
      (Returned r, advance (Z.to_nat (Js.ceil_div (length * 3) 4)) w) /\
    Js.len (value r) = length /\
    Forall (in_class (api_key_alphabet format)) (Js.chars (value r)) /\
    metadata r =
      {| md_type := "api_key"; md_length := length;
         md_algorithm := "secure_random";
         md_entropy_bits :=
           CalculateEntropy (if bool_decide (format = "hex") then 16 else 64) length;
         md_charset := Some format;
         md_security_level := Level (if 32 <=? length then "high" else "medium");
         md_extra := [("format", XStr format)] |}.
Proof.
  intros Hlen. unfold generateApiKey. rewrite bind_run.
  assert (0 <= Js.ceil_div (length * 3) 4 <= 65536) as Hbytes
    by (unfold Js.ceil_div; div_lia).
  rewrite getSecureRandomBytes_run by lia. rewrite ret_run.
  eexists. split; [reflexivity|]. cbn [value metadata].
  rewrite len_str, chars_str.
  set (n := Z.to_nat (Js.ceil_div (length * 3) 4)).
  assert (Z.of_nat (List.length (upcoming n w)) = Js.ceil_div (length * 3) 4)
    as Hn by (rewrite length_upcoming; subst n; lia).
  assert (length <= Js.ceil_div (4 * Js.ceil_div (length * 3) 4) 3) as Hcover
    by (unfold Js.ceil_div; div_lia).
  unfold api_key_alphabet.
  case_bool_decide; [|case_bool_decide].
  - destruct (slice0_take (bytesToBase64 (upcoming n w)) length) as [-> Hl];
      [lia | rewrite length_bytesToBase64, Hn; unfold Js.ceil_div in *; div_lia |].
    rewrite length_take in Hl. rewrite length_take.
    repeat split; [lia|].
    apply take_bytesToBase64. rewrite Hn. lia.
  - destruct (bytesToBase64Url_chars (upcoming n w)) as [Hall Hl'].
    rewrite Hn in Hl'.
    destruct (slice0_take (bytesToBase64Url (upcoming n w)) length) as [-> Hl];
      [lia | lia |].
    repeat split; [exact Hl | now apply Forall_take].
  - destruct (slice0_take (bytesToHex (upcoming n w)) length) as [-> Hl];
      [lia | rewrite length_bytesToHex; unfold Js.ceil_div in *; div_lia |].
    repeat split; [exact Hl | apply Forall_take, hex_chars_in_class].
Qed.

(** X5.  For a length from 0 to 87381 (so that the bytes asked for are
    within the quota of 65536) [generateApiKey] reads
    [ceil (length * 3 / 4)] random bytes and returns exactly [length]
    characters of the alphabet of its format (base64 with [+] and [/], the
    URL-safe alphabet, or lower-case hex digits); [metadata.length] is the
    length. *)
Theorem generateApiKey_alphabet (format : string) (length : Z) (w : World) :
  0 <= length <= 87381 ->
  exists r,
    generateApiKey format length w =
      (Returned r, advance (Z.to_nat (Js.ceil_div (length * 3) 4)) w) /\
    Js.len (value r) = length /\
    Forall (in_class (api_key_alphabet format)) (Js.chars (value r)) /\
    md_length (metadata r) = length.
Proof.
  intros Hlen.
  destruct (generateApiKey_run format length w Hlen) as (r & Hrun & Hl & Hall & Hmd).
  exists r. rewrite Hmd. repeat split; assumption.
Qed.

Lemma generateApiKey_alphabet_witness :
  exists r,
    generateApiKey "base64" 40 zero_world = (Returned r, advance 30 zero_world) /\
    Js.len (value r) = 40 /\
    Forall (in_class base64_alphabet) (Js.chars (value r)) /\
    md_length (metadata r) = 40.
Proof. apply (generateApiKey_alphabet "base64" 40 zero_world). lia. Defined.

(** X6.  A format other than [base64], [base64url] and [hex] is not rejected:
    for a length from 0 to 87381 the key is written in lower-case hex digits,
    while the entropy is computed for an alphabet of 64 characters and the
    unknown name is reported as the charset. *)
Theorem generateApiKey_unknown_format (format : string) (length : Z) (w : World) :
  0 <= length <= 87381 ->
  format <> "base64" -> format <> "base64url" -> format <> "hex" ->
  exists r w',
    generateApiKey format length w = (Returned r, w') /\
    Forall (in_class hex_lower) (Js.chars (value r)) /\
    md_entropy_bits (metadata r) = CalculateEntropy 64 length /\
    md_charset (metadata r) = Some format.
Proof.
  intros Hlen H1 H2 H3.
  destruct (generateApiKey_run format length w Hlen) as (r & Hrun & _ & Hall & Hmd).
  eexists r, _. split; [exact Hrun|]. rewrite Hmd.
  cbn [md_entropy_bits md_charset].
  unfold api_key_alphabet in Hall.
  rewrite !bool_decide_eq_false_2 in Hall by assumption.
  rewrite bool_decide_eq_false_2 by assumption. repeat split. exact Hall.
Qed.

Lemma generateApiKey_unknown_format_witness :
  exists r w',
    generateApiKey "jwt" 32 zero_world = (Returned r, w') /\
    Forall (in_class hex_lower) (Js.chars (value r)) /\
    md_entropy_bits (metadata r) = CalculateEntropy 64 32 /\
    md_charset (metadata r) = Some "jwt".
Proof.
  apply (generateApiKey_unknown_format "jwt" 32 zero_world);
    [lia | discriminate..].
Defined.

(** What the three token wrappers return. *)
Lemma token_wrapper_run token_name description length w :
  0 <= length <= 87381 ->
  returns_token
    (result <- generateApiKey "base64url" length ;;
     ret (renamed result token_name description)) w token_name length.
Proof.
  intros Hlen. unfold returns_token. rewrite bind_run.
  destruct (generateApiKey_run "base64url" length w Hlen)
    as (r & -> & Hl & Hall & Hmd).
  rewrite ret_run. eexists _, _. split; [reflexivity|].
  cbn [renamed name value metadata]. rewrite Hmd.
  repeat split; assumption.
Qed.

(** X7.  For a length from 0 to 87381, [generateBearerToken],
    [generateSessionToken] and [generateCsrfToken] each return exactly
    [length] URL-safe characters under their own name, with the metadata of
    an API key (type [api_key], the requested length). *)
Theorem url_safe_tokens (length : Z) (w : World) :
  0 <= length <= 87381 ->
  returns_token (generateBearerToken length) w "bearer_token" length /\
  returns_token (generateSessionToken length) w "session_token" length /\
  returns_token (generateCsrfToken length) w "csrf_token" length.
Proof.
  intros Hlen. repeat split; apply token_wrapper_run; assumption.
Qed.

Lemma url_safe_tokens_witness :
  returns_token (generateBearerToken 128) zero_world "bearer_token" 128 /\
  returns_token (generateSessionToken 128) zero_world "session_token" 128 /\
  returns_token (generateCsrfToken 128) zero_world "csrf_token" 128.
Proof. apply (url_safe_tokens 128 zero_world). lia. Defined.

(** ** Encoded random bytes *)

(** What [generateJwtSecret] returns for a number of bytes within the
    quota. *)
Lemma generateJwtSecret_run length w :
  0 <= length <= 65536 ->
  exists r,
    generateJwtSecret length w = (Returned r, advance (Z.to_nat length) w) /\
    Js.len (value r) = Js.ceil_div (4 * length) 3 /\
    Forall (in_class CHARSETS.url_safe) (Js.chars (value r)).
Proof.
  intros [Hlen Hmax].
  destruct (bytesToBase64Url_chars (upcoming (Z.to_nat length) w)) as [Hall Hl].
  rewrite length_upcoming, Z2Nat.id in Hl by assumption.
  unfold generateJwtSecret.
  rewrite bind_run, getSecureRandomBytes_run, ret_run by lia.
  eexists. split; [reflexivity|]. cbn [encoded_bytes_result value].
  rewrite len_str, chars_str. split; assumption.
Qed.

(** X8.  [generateJwtSecret] and [generateNonce] take [length] as a number
    of bytes: for a length from 0 to 65536 they read [length] random bytes
    and return [ceil (4 * length / 3)] URL-safe characters without padding.
    [metadata.length] is the number of characters and [entropy_bits] is
    [length * 8]. *)
Theorem unpadded_secrets (length : Z) (w : World) :
  0 <= length <= 65536 ->
  Forall (fun c : Gen GenerationResult =>
            exists r,
              c w = (Returned r, advance (Z.to_nat length) w) /\
              Js.len (value r) = Js.ceil_div (4 * length) 3 /\
              Forall (in_class CHARSETS.url_safe) (Js.chars (value r)) /\
              md_length (metadata r) = Js.len (value r) /\
              md_entropy_bits (metadata r) = Bits (length * 8))
         [generateJwtSecret length; generateNonce length].
Proof.
  intros [Hlen Hmax].
  destruct (bytesToBase64Url_chars (upcoming (Z.to_nat length) w)) as [Hall Hl].
  rewrite length_upcoming, Z2Nat.id in Hl by assumption.
  repeat (constructor;
          [unfold generateJwtSecret, generateNonce;
           rewrite bind_run, getSecureRandomBytes_run, ret_run by lia;
           eexists; split; [reflexivity|];
           cbn [encoded_bytes_result value metadata md_length md_entropy_bits];
           rewrite len_str, chars_str; repeat split; assumption|]).
  constructor.
Qed.

Lemma unpadded_secrets_witness :
  Forall (fun c : Gen GenerationResult =>
            exists r,
              c zero_world = (Returned r, advance 64 zero_world) /\
              Js.len (value r) = 86 /\
              Forall (in_class CHARSETS.url_safe) (Js.chars (value r)) /\
              md_length (metadata r) = Js.len (value r) /\
              md_entropy_bits (metadata r) = Bits 512)
         [generateJwtSecret 64; generateNonce 64].
Proof. apply (unpadded_secrets 64 zero_world). lia. Defined.



(** ** The encodings lose nothing *)

Lemma bytes_below_256 :
  Forall (fun b => hex_byte b =
                   [hex_digit (b / 16); hex_digit (b mod 16)] /\
                   position (Js.chars hex_lower) (hex_digit (b / 16)) = b / 16 /\
                   position (Js.chars hex_lower) (hex_digit (b mod 16)) = b mod 16)
         (map Z.of_nat (seq 0 256)).
Proof. decide_by_evaluation. Qed.

Lemma in_byte_range b : 0 <= b < 256 -> b ∈ map Z.of_nat (seq 0 256).
Proof.
  intros Hb. apply list_elem_of_fmap. exists (Z.to_nat b).
  split; [lia|]. apply list_elem_of_In, in_seq. lia.
Qed.

Lemma decode_hex_bytesToHex bytes :
  Forall (fun b => 0 <= b < 256) bytes -> decode_hex (bytesToHex bytes) = bytes.
Proof.
  pose proof bytes_below_256 as Htable. rewrite Forall_forall in Htable.
  induction 1 as [|b bytes Hb _ IH]; [reflexivity|].
  rewrite bytesToHex_cons.
  destruct (Htable b (in_byte_range b Hb)) as (-> & H1 & H2).
  cbn [app decode_hex]. rewrite H1, H2, IH. f_equal. div_lia.
Qed.

(** X10.  [bytesToHex] loses nothing: different lists of bytes have
    different hex texts. *)
Theorem bytesToHex_injective (bytes bytes' : list Z) :
  Forall (fun b => 0 <= b < 256) bytes ->
  Forall (fun b => 0 <= b < 256) bytes' ->
  bytes <> bytes' -> bytesToHex bytes <> bytesToHex bytes'.
Proof.
  intros H H' Hne Heq. apply Hne.
  rewrite <- (decode_hex_bytesToHex bytes H), Heq.
  now apply decode_hex_bytesToHex.
Qed.

Lemma bytesToHex_injective_witness : bytesToHex [1; 16] <> bytesToHex [17].
Proof.
  apply (bytesToHex_injective [1; 16] [17]);
    [repeat constructor; lia.. | discriminate].
Defined.

Lemma sextets :
  Forall (fun d => position (Js.chars base64_alphabet) (b64 d) = d /\
                   b64 d <> "="%char)
         (map Z.of_nat (seq 0 64)).
Proof. decide_by_evaluation. Qed.

Lemma sextet d :
  0 <= d < 64 ->
  position (Js.chars base64_alphabet) (b64 d) = d /\ b64 d <> "="%char.
Proof.
  intros Hd. pose proof sextets as H. rewrite Forall_forall in H.
  apply H, list_elem_of_fmap. exists (Z.to_nat d).
  split; [lia|]. apply list_elem_of_In, in_seq. lia.
Qed.

Lemma decode_base64_bytesToBase64 bytes :
  Forall (fun b => 0 <= b < 256) bytes ->
  decode_base64 (bytesToBase64 bytes) = bytes.
Proof.
  induction bytes as [|a|a b|a b c rest IH] using list_ind_groups; intros Hall.
  - reflexivity.
  - apply Forall_cons in Hall as [Ha _].
    cbn [bytesToBase64 decode_base64].
    rewrite bool_decide_eq_true_2 by reflexivity.
    destruct (sextet (a / 4)) as [-> _]; [div_lia|].
    destruct (sextet (a mod 4 * 16)) as [-> _]; [div_lia|].
    f_equal. div_lia.
  - apply Forall_cons in Hall as [Ha Hall]. apply Forall_cons in Hall as [Hb _].
    cbn [bytesToBase64 decode_base64].
    destruct (sextet (a / 4)) as [-> _]; [div_lia|].
    destruct (sextet (a mod 4 * 16 + b / 16)) as [-> _]; [div_lia|].
    destruct (sextet (b mod 16 * 4)) as [-> Hne]; [div_lia|].
    rewrite bool_decide_eq_false_2 by exact Hne.
    rewrite bool_decide_eq_true_2 by reflexivity.
    f_equal; [div_lia|]. f_equal. div_lia.
  - apply Forall_cons in Hall as [Ha Hall]. apply Forall_cons in Hall as [Hb Hall].
    apply Forall_cons in Hall as [Hc Hall].
    cbn [bytesToBase64 decode_base64 app].
    destruct (sextet (a / 4)) as [-> _]; [div_lia|].
    destruct (sextet (a mod 4 * 16 + b / 16)) as [-> _]; [div_lia|].
    destruct (sextet (b mod 16 * 4 + c / 64)) as [-> Hne3]; [div_lia|].
    destruct (sextet (c mod 64)) as [-> Hne4]; [div_lia|].
    rewrite !bool_decide_eq_false_2 by assumption.
    rewrite (IH Hall). cbn [app].
    f_equal; [div_lia|]. f_equal; [div_lia|]. f_equal. div_lia.
Qed.

(** X11.  [bytesToBase64] loses nothing: different lists of bytes have
    different base64 texts. *)
Theorem bytesToBase64_injective (bytes bytes' : list Z) :
  Forall (fun b => 0 <= b < 256) bytes ->
  Forall (fun b => 0 <= b < 256) bytes' ->
  bytes <> bytes' -> bytesToBase64 bytes <> bytesToBase64 bytes'.
Proof.
  intros H H' Hne Heq. apply Hne.
  rewrite <- (decode_base64_bytesToBase64 bytes H), Heq.
  now apply decode_base64_bytesToBase64.
Qed.

Lemma bytesToBase64_injective_witness :
  bytesToBase64 [77; 97] <> bytesToBase64 [77; 97; 0].
Proof.
  apply (bytesToBase64_injective [77; 97] [77; 97; 0]);
    [repeat constructor; lia.. | discriminate].
Defined.

Lemma url_characters :
  Forall (fun c => of_url_char (to_url_char c) = c /\ to_url_char c <> "="%char)
         (Js.chars base64_alphabet).
Proof. decide_by_evaluation. Qed.

(** The URL-safe text is the unpadded run, character by character. *)
Lemma bytesToBase64Url_body bytes body k :
  bytesToBase64 bytes = body ++ replicate k "="%char ->
  Forall (in_class base64_alphabet) body ->
  bytesToBase64Url bytes = map to_url_char body /\
  map of_url_char (bytesToBase64Url bytes) = body.
Proof.
  intros Heq Hall. unfold bytesToBase64Url. rewrite Heq. clear Heq.
  pose proof url_characters as Hurl. rewrite Forall_forall in Hurl.
  rewrite !map_app. unfold Js.remove_char. rewrite filter_app.
  match goal with
  | |- context [filter _ (map ?g (map ?f (replicate k "="%char)))] =>
      assert (filter (fun x => x <> "="%char)
                (map g (map f (replicate k "="%char))) = []) as ->
  end.
  { induction k as [|k IHk]; [reflexivity|]. simpl.
    rewrite filter_cons_False by tauto. exact IHk. }
  rewrite app_nil_r.
  induction Hall as [|c body Hc _ IH]; [split; reflexivity|].
  destruct (Hurl c Hc) as [Hback Hne]. simpl.
  rewrite filter_cons_True by exact Hne.
  destruct IH as [IH1 IH2]. fold (to_url_char c).
  split; simpl; [now rewrite IH1 | now rewrite IH2, Hback].
Qed.

Lemma decode_base64url_bytesToBase64Url bytes :
  Forall (fun b => 0 <= b < 256) bytes ->
  decode_base64url (bytesToBase64Url bytes) = bytes.
Proof.
  intros Hrange.
  destruct (bytesToBase64_split bytes) as (body & Heq & Hall & Hlen).
  destruct (bytesToBase64Url_body bytes body _ Heq Hall) as [Hurl Hback].
  unfold decode_base64url. rewrite Hback.
  rewrite Hurl, length_map, Hlen.
  replace ((4 - Js.ceil_div (4 * Z.of_nat (List.length bytes)) 3 mod 4) mod 4)
    with ((3 - Z.of_nat (List.length bytes) mod 3) mod 3)
    by (unfold Js.ceil_div; div_lia).
  rewrite <- Heq. now apply decode_base64_bytesToBase64.
Qed.

(** X12.  [bytesToBase64Url] loses nothing, although it drops the padding:
    different lists of bytes have different URL-safe texts. *)
Theorem bytesToBase64Url_injective (bytes bytes' : list Z) :
  Forall (fun b => 0 <= b < 256) bytes ->
  Forall (fun b => 0 <= b < 256) bytes' ->
  bytes <> bytes' -> bytesToBase64Url bytes <> bytesToBase64Url bytes'.
Proof.
  intros H H' Hne Heq. apply Hne.
  rewrite <- (decode_base64url_bytesToBase64Url bytes H), Heq.
  now apply decode_base64url_bytesToBase64Url.
Qed.

Lemma bytesToBase64Url_injective_witness :
  bytesToBase64Url [251; 255] <> bytesToBase64Url [251; 255; 0].
Proof.
  apply (bytesToBase64Url_injective [251; 255] [251; 255; 0]);
    [repeat constructor; lia.. | discriminate].
Defined.

(** ** The bits a UUID keeps *)

Lemma hex_byte_injective b b' :
  0 <= b < 256 -> 0 <= b' < 256 -> hex_byte b = hex_byte b' -> b = b'.
Proof.
  intros Hb Hb' Heq.
  assert (decode_hex (bytesToHex [b]) = decode_hex (bytesToHex [b'])) as H.
  { unfold bytesToHex. cbn [map concat]. fold (hex_byte b) (hex_byte b').
    now rewrite Heq. }
  rewrite !decode_hex_bytesToHex in H by (repeat constructor; lia).
  now injection H.
Qed.

Lemma version_variant_bits :
  Forall (fun a =>
            0 <= Z.lor (Z.land a 0x0f) 0x40 < 256 /\
            0 <= Z.lor (Z.land a 0x3f) 0x80 < 256 /\
            Z.lor (Z.land a 0x0f) 0x40 = Z.land a 0x0f + 64 /\
            Z.lor (Z.land a 0x3f) 0x80 = Z.land a 0x3f + 128)
         (map Z.of_nat (seq 0 256)).
Proof. decide_by_evaluation. Qed.

Lemma version_variant_byte a :
  0 <= a < 256 ->
  0 <= Z.lor (Z.land a 0x0f) 0x40 < 256 /\
  0 <= Z.lor (Z.land a 0x3f) 0x80 < 256 /\
  Z.lor (Z.land a 0x0f) 0x40 = Z.land a 0x0f + 64 /\
  Z.lor (Z.land a 0x3f) 0x80 = Z.land a 0x3f + 128.
Proof.
  intros Ha. pose proof version_variant_bits as H. rewrite Forall_forall in H.
  apply H, in_byte_range, Ha.
Qed.

(** X13.  [generateUuid4] reads 16 random bytes, and two UUIDs are equal
    exactly when their bytes agree after the high four bits of byte 6 and the
    high two bits of byte 8 are cleared: a UUID carries the other 122 random
    bits, and only those. *)
Theorem generateUuid4_keeps_122_bits (w1 w2 : World) :
  exists r1 r2,
    generateUuid4 w1 = (Returned r1, advance 16 w1) /\
    generateUuid4 w2 = (Returned r2, advance 16 w2) /\
    (value r1 = value r2 <->
     uuid_kept_bits (upcoming 16 w1) = uuid_kept_bits (upcoming 16 w2)).
Proof.
  unfold generateUuid4. rewrite !bind_run, !getSecureRandomBytes_run by lia.
  rewrite !ret_run. eexists _, _. split; [reflexivity|]. split; [reflexivity|].
  cbn [value]. change (Z.to_nat 16) with 16%nat.
  pose proof (upcoming_range 16 w1) as R1.
  pose proof (upcoming_range 16 w2) as R2.
  unfold upcoming in *. cbn [seq map] in *.
  repeat match goal with
         | |- context [byte_value ?x] =>
             let a := fresh "a" in set (a := byte_value x) in *; clearbody a
         end.
  repeat match goal with
         | H : Forall _ (_ :: _) |- _ =>
             let Hr := fresh "Hr" in apply Forall_cons in H as [Hr H]
         end.
  clear R1 R2.
  cbn [uuid_kept_bits at_index list_insert insert lookup list_lookup default
       from_option id].
  repeat match goal with
         | H : 0 <= ?a < 256 |- _ =>
             pose proof (version_variant_byte a H); destruct H as [? ?]
         end.
  repeat match goal with
         | H : _ /\ _ |- _ => destruct H
         end.
  split.
  - intros Hvalue. apply (f_equal Js.chars) in Hvalue.
    rewrite !chars_str in Hvalue.
    rewrite !bytesToHex_cons in Hvalue.
    repeat match type of Hvalue with
           | context [hex_byte ?b] =>
               let c := fresh "c" in let d := fresh "d" in
               let E := fresh "E" in
               destruct (hex_byte_pair b) as (c & d & E & _ & _);
               rewrite E in Hvalue
           end.
    cbn [bytesToHex map concat app Js.slice take drop Nat.sub dash] in Hvalue.
    injection Hvalue; clear Hvalue; intros; subst.
    repeat match goal with
           | E1 : hex_byte ?b = ?l, E2 : hex_byte ?b' = ?l |- _ =>
               assert (b = b')
                 by (apply hex_byte_injective; [lia | lia | congruence]);
               clear E1 E2
           end.
    repeat (apply (f_equal2 cons); [lia|]). reflexivity.
  - intros Hkept. injection Hkept; clear Hkept; intros; subst.
    repeat match goal with
           | H : Z.lor _ _ = _ |- _ => rewrite H; clear H
           end.
    congruence.
Qed.

(** ** Encryption keys *)





(** ** Fixed-charset strings *)

(** X15.  For a length from 0 to 87381 (so that the bytes asked for are
    within the quota of 65536) [generateBase64String] reads
    [ceil (length * 3 / 4)] random bytes and returns exactly [length]
    characters of the base64 alphabet, never a padding character;
    [metadata.length] is the length. *)
Theorem generateBase64String_exact (length : Z) (w : World) :
  0 <= length <= 87381 ->
  exists r,
    generateBase64String length w =
      (Returned r, advance (Z.to_nat (Js.ceil_div (length * 3) 4)) w) /\
    Js.len (value r) = length /\
    Forall (in_class base64_alphabet) (Js.chars (value r)) /\
    md_length (metadata r) = length.
Proof.
  intros Hlen. unfold generateBase64String. cbv zeta. rewrite bind_run.
  assert (0 <= Js.ceil_div (length * 3) 4 <= 65536) as Hbytes
    by (unfold Js.ceil_div; div_lia).
  rewrite getSecureRandomBytes_run by lia. rewrite ret_run.
  eexists. split; [reflexivity|]. cbn [value metadata md_length].
  rewrite len_str, chars_str.
  set (n := Z.to_nat (Js.ceil_div (length * 3) 4)).
  assert (Z.of_nat (List.length (upcoming n w)) = Js.ceil_div (length * 3) 4)
    as Hn by (rewrite length_upcoming; subst n; lia).
  destruct (slice0_take (bytesToBase64 (upcoming n w)) length) as [-> Hl];
    [lia | rewrite length_bytesToBase64, Hn; unfold Js.ceil_div in *; div_lia |].
  rewrite length_take in Hl. rewrite length_take.
  repeat split; [lia|].
  apply take_bytesToBase64. rewrite Hn. unfold Js.ceil_div. div_lia.
Qed.

Lemma generateBase64String_exact_witness :
  exists r,
    generateBase64String 32 zero_world = (Returned r, advance 24 zero_world) /\
    Js.len (value r) = 32 /\
    Forall (in_class base64_alphabet) (Js.chars (value r)) /\
    md_length (metadata r) = 32.
Proof. apply (generateBase64String_exact 32 zero_world). lia. Defined.

(** What a random string over a fixed non-empty charset, without affixes and
    case change, looks like. *)
Lemma plain_random_string length options w :
  0 <= length <= 65536 ->
  final_charset options <> ""%string ->
  Opt.case options = None -> Opt.prefix options = None ->
  Opt.suffix options = None ->
  exists r,
    generateRandomString length options w =
      (Returned r, advance (Z.to_nat length) w) /\
    Js.len (value r) = length /\
    Forall (in_class (final_charset options)) (Js.chars (value r)) /\
    md_length (metadata r) = length.
Proof.
  intros Hlen Hcs Hcase Hpre Hsuf.
  unfold generateRandomString. rewrite bind_run.
  rewrite getSecureRandomBytes_run by lia. rewrite ret_run.
  destruct (draw_string_chars (final_charset options)
              (upcoming (Z.to_nat length) w) (Z.to_nat length))
    as [Hl Hall]; [assumption | apply upcoming_range |].
  eexists. split; [reflexivity|]. cbn [value metadata md_length].
  rewrite Hcase, Hpre, Hsuf. unfold applyCase, addAffixes.
  cbn [default from_option id].
  rewrite !len_append, !chars_append, len_str, chars_str, Hl.
  change (Js.len "") with 0. change (Js.chars "") with (@nil ascii).
  rewrite app_nil_r. cbn [app]. repeat split; [lia | exact Hall | lia].
Qed.

(** X16.  For a length from 0 to 65536, [generateAlphanumeric] returns
    exactly [length] letters and digits and [generateNumericString] exactly
    [length] decimal digits; each reads [length] random bytes and reports the
    length. *)
Theorem fixed_charset_strings (length : Z) (w : World) :
  0 <= length <= 65536 ->
  (exists r,
     generateAlphanumeric length w = (Returned r, advance (Z.to_nat length) w) /\
     Js.len (value r) = length /\
     Forall (in_class CHARSETS.alphanumeric) (Js.chars (value r)) /\
     md_length (metadata r) = length) /\
  (exists r,
     generateNumericString length w = (Returned r, advance (Z.to_nat length) w) /\
     Js.len (value r) = length /\
     Forall (in_class CHARSETS.numbers) (Js.chars (value r)) /\
     md_length (metadata r) = length).
Proof.
  intros Hlen. split.
  - unfold generateAlphanumeric.
    match goal with
    | |- context [generateRandomString length ?o w] =>
        destruct (plain_random_string length o w Hlen)
          as (r & Hrun & Hl & Hall & Hmd); [discriminate | reflexivity..|]
    end.
    exists r. repeat split; assumption.
  - unfold generateNumericString.
    match goal with
    | |- context [generateRandomString length ?o w] =>
        destruct (plain_random_string length o w Hlen)
          as (r & Hrun & Hl & Hall & Hmd); [discriminate | reflexivity..|]
    end.
    exists r. repeat split; assumption.
Qed.

Lemma fixed_charset_strings_witness :
  (exists r,
     generateAlphanumeric 16 zero_world = (Returned r, advance 16 zero_world) /\
     Js.len (value r) = 16 /\
     Forall (in_class CHARSETS.alphanumeric) (Js.chars (value r)) /\
     md_length (metadata r) = 16) /\
  (exists r,
     generateNumericString 16 zero_world = (Returned r, advance 16 zero_world) /\
     Js.len (value r) = 16 /\
     Forall (in_class CHARSETS.numbers) (Js.chars (value r)) /\
     md_length (metadata r) = 16).
Proof. apply (fixed_charset_strings 16 zero_world). lia. Defined.

(** X17.  [generateGithubToken] reads 36 random bytes and returns [ghp_]
    followed by 36 letters and digits; [metadata.length] is 40, the prefix
    included. *)
Theorem generateGithubToken_shape (w : World) :
  exists r token,
    generateGithubToken w = (Returned r, advance 36 w) /\
    value r = "ghp_" +:+ token /\
    Js.len token = 36 /\
    Forall (in_class CHARSETS.alphanumeric) (Js.chars token) /\
    md_length (metadata r) = 40.
Proof.
  unfold generateGithubToken. rewrite bind_run.
  destruct (plain_random_string 36
              {| Opt.length := None; Opt.format := None; Opt.prefix := None;
                 Opt.suffix := None; Opt.case := None;
                 Opt.include_uppercase := Some true;
                 Opt.include_lowercase := Some true;
                 Opt.include_numbers := Some true;
                 Opt.include_special_chars := Some false;
                 Opt.exclude_chars := None; Opt.custom_charset := None;
                 Opt.exclude_ambiguous := None;
                 Opt.min_uppercase := None; Opt.min_lowercase := None;
                 Opt.min_numbers := None; Opt.min_special := None;
                 Opt.special_char_set := None; Opt.strength := None;
                 Opt.words := None; Opt.separator := None |} w)
    as (r & Hrun & Hl & Hall & _); [lia | discriminate | reflexivity..|].
  unfold generateAlphanumeric. rewrite Hrun, ret_run.
  eexists _, (value r). split; [reflexivity|]. cbn [value metadata md_length].
  rewrite len_append, Hl. repeat split. exact Hall.
Qed.

(** ** Passwords of the exact length *)

Lemma in_password_charset sets mins :
  Forall2 (fun s m => List.length m = Z.to_nat (min s) /\
                      Forall (in_class (chars s)) m) sets mins ->
  Forall (fun c => c ∈ concat (map (fun s => Js.chars (chars s)) sets))
         (concat mins).
Proof.
  induction 1 as [|s m sets mins [_ Hm] _ IH]; [constructor|].
  cbn [map concat]. apply Forall_app. split.
  - eapply Forall_impl; [exact Hm|]. intros c Hc. apply elem_of_app. now left.
  - eapply Forall_impl; [exact IH|]. intros c Hc. apply elem_of_app. now right.
Qed.

(** When the enabled classes are non-empty with non-negative minimums that
    fit in the length, the password has the requested length, consists of
    characters of the charset and holds every class's minimum. *)
Lemma generatePassword_exact length options w :
  Forall (fun s => chars s <> ""%string /\ 0 <= min s) (password_sets options) ->
  password_sets options <> [] ->
  sum_minimums (password_sets options) <= length ->
  exists r w',
    generatePassword length options w = (Returned r, w') /\
    Js.len (value r) = length /\
    Forall (in_class (password_charset options)) (Js.chars (value r)) /\
    Forall (fun s => min s <= Z.of_nat (count_class (chars s) (Js.chars (value r))))
           (password_sets options) /\
    metadata r =
      {| md_type := "secure_password"; md_length := length;
         md_algorithm := "secure_random_with_requirements";
         md_entropy_bits :=
           CalculateEntropy (Js.len (password_charset options)) length;
         md_charset := Some (charset_preview (password_charset options));
         md_security_level :=
           Level (password_security_level
                    (default "high" (Opt.strength options)));
         md_extra := [] |}.
Proof.
  intros Hsets Hne Hsum.
  destruct (generatePassword_run length options w Hsets (fun _ => Hne))
    as (r & w' & mins & filler & Hrun & Hmins & Hlen & Hall & Hperm & _).
  exists r, w'.
  pose proof (length_concat_mins _ _ Hsets Hmins) as Hcat.
  split; [exact Hrun|]. split; [|split; [|split]].
  - unfold Js.len. rewrite <- length_chars, (Permutation_length Hperm), length_app.
    lia.
  - rewrite Hperm. apply Forall_app. split; [|exact Hall].
    eapply Forall_impl; [apply (in_password_charset _ _ Hmins)|].
    intros c Hc. unfold in_class, password_charset. now rewrite chars_str.
  - pose proof (count_class_mins _ _ Hmins) as Hcount.
    rewrite Forall_forall in Hcount, Hsets |- *. intros s Hs.
    specialize (Hcount s Hs). destruct (Hsets s Hs) as [_ Hmin].
    rewrite (count_class_Permutation _ _ _ Hperm), count_class_app. lia.
  - unfold generatePassword in Hrun. rewrite bind_run in Hrun.
    destruct (assemble_password length options w) as [[pw|e] w1]; [|discriminate].
    rewrite bind_run in Hrun.
    destruct (shuffle _ pw w1) as [[pw'|e] w2]; [|discriminate].
    rewrite ret_run in Hrun. now injection Hrun as <- _.
Qed.

(** X18.  For a length of at least 4, [generateDatabasePassword] returns a
    password of exactly that length whose characters are upper-case letters,
    lower-case letters, digits or characters of [@#$%^&*_+-=], none of them
    one of the ambiguous [I L i l 0 1], with at least one character of each
    of the four classes.  [metadata.length] is the length and the security
    level is [high], the level of the preset's strength [maximum]. *)
Theorem generateDatabasePassword_classes (length : Z) (w : World) :
  4 <= length ->
  exists r w',
    generateDatabasePassword length w = (Returned r, w') /\
    Js.len (value r) = length /\
    Forall (fun c => Exists (fun cls => in_class cls c) database_classes)
           (Js.chars (value r)) /\
    Forall (fun c => c ∉ Js.chars "ILil01") (Js.chars (value r)) /\
    Forall (fun cls => (1 <= count_class cls (Js.chars (value r)))%nat)
           database_classes /\
    md_length (metadata r) = length /\
    md_security_level (metadata r) = Level "high".
Proof.
  intros Hlen. unfold generateDatabasePassword.
  match goal with
  | |- context [generatePassword length ?o w] => set (options := o)
  end.
  destruct (generatePassword_exact length options w)
    as (r & w' & Hrun & Hl & Hall & Hcount & Hmd).
  { repeat constructor; try discriminate; simpl; lia. }
  { discriminate. }
  { change (sum_minimums (password_sets options)) with 4. exact Hlen. }
  exists r, w'. rewrite Hmd. cbn [md_length md_security_level].
  split; [exact Hrun|]. split; [exact Hl|].
  assert (Forall (fun c => Exists (fun cls => in_class cls c) database_classes /\
                           c ∉ Js.chars "ILil01")
                 (Js.chars (password_charset options))) as Halphabet
    by (unfold in_class; decide_by_evaluation).
  rewrite Forall_forall in Halphabet.
  split; [|split; [|split; [|split; reflexivity]]].
  - eapply Forall_impl; [exact Hall|]. intros c Hc. now apply Halphabet.
  - eapply Forall_impl; [exact Hall|]. intros c Hc. now apply Halphabet.
  - change (password_sets options) with
      [{| chars := "ABCDEFGHJKMNOPQRSTUVWXYZ"; min := 1 |};
       {| chars := "abcdefghjkmnopqrstuvwxyz"; min := 1 |};
       {| chars := "23456789"; min := 1 |};
       {| chars := "@#$%^&*_+-="; min := 1 |}] in Hcount.
    repeat match goal with
           | H : Forall _ (_ :: _) |- _ =>
               let Hc := fresh "Hc" in apply Forall_cons in H as [Hc H]
           end.
    cbn [chars min] in *. unfold database_classes.
    repeat (constructor; [lia|]). constructor.
Qed.

Lemma generateDatabasePassword_classes_witness :
  exists r w',
    generateDatabasePassword 20 zero_world = (Returned r, w') /\
    Js.len (value r) = 20 /\
    Forall (fun c => Exists (fun cls => in_class cls c) database_classes)
           (Js.chars (value r)) /\
    Forall (fun c => c ∉ Js.chars "ILil01") (Js.chars (value r)) /\
    Forall (fun cls => (1 <= count_class cls (Js.chars (value r)))%nat)
           database_classes /\
    md_length (metadata r) = 20 /\
    md_security_level (metadata r) = Level "high".
Proof. apply (generateDatabasePassword_classes 20 zero_world). lia. Defined.

(** ** The password tool, end to end *)

Lemma strip_nonempty flag ambiguous s c rest :
  Js.chars s = c :: rest -> c ∉ ambiguous -> strip flag ambiguous s <> ""%string.
Proof.
  intros Hs Hc. unfold strip. destruct flag; [|intros ->; discriminate].
  rewrite remove_loop_filter, Hs, filter_cons_True by exact Hc. discriminate.
Qed.

(** With the four toggles and minimums given, non-negative minimums and a
    non-empty special set, every enabled class is non-empty and the enabled
    minimums sum to at most the sum of all four. *)
Lemma password_sets_wellformed options u l n s a b c d :
  Opt.include_uppercase options = Some u ->
  Opt.include_lowercase options = Some l ->
  Opt.include_numbers options = Some n ->
  Opt.include_special_chars options = Some s ->
  Opt.min_uppercase options = Some a ->
  Opt.min_lowercase options = Some b ->
  Opt.min_numbers options = Some c ->
  Opt.min_special options = Some d ->
  0 <= a -> 0 <= b -> 0 <= c -> 0 <= d ->
  Opt.special_char_set options <> Some ""%string ->
  Forall (fun s => chars s <> ""%string /\ 0 <= min s) (password_sets options) /\
  sum_minimums (password_sets options) <= a + b + c + d /\
  List.length (password_sets options) = enabledTypes options.
Proof.
  intros Hu Hl Hn Hs Ha Hb Hc Hd Ha0 Hb0 Hc0 Hd0 Hspecial.
  assert (upper_of options <> ""%string) as Hupper.
  { unfold upper_of. eapply strip_nonempty; [reflexivity|].
    rewrite !elem_of_cons, elem_of_nil. intuition discriminate. }
  assert (lower_of options <> ""%string) as Hlower.
  { unfold lower_of. eapply strip_nonempty; [reflexivity|].
    rewrite !elem_of_cons, elem_of_nil. intuition discriminate. }
  assert (nums_of options <> ""%string) as Hnums.
  { unfold nums_of.
    destruct (Opt.exclude_ambiguous options) as [[]|]; discriminate. }
  assert (special_of options <> ""%string) as Hspec.
  { unfold special_of. destruct (Opt.special_char_set options) as [x|];
      [simpl; congruence | discriminate]. }
  unfold password_sets, enabledTypes. rewrite Hu, Hl, Hn, Hs, Ha, Hb, Hc, Hd.
  destruct u, l, n, s; cbn [default from_option id app sum_minimums fold_right
                             chars min List.length];
    (split; [repeat constructor; cbn [chars min]; assumption
            | split; [lia | reflexivity]]).
Qed.

(** X19.  When the four class toggles and the four minimums are present (the
    schema's defaults fill them in) with non-negative minimums, no custom
    charset is given, the special set is not the empty string, and the
    arguments pass the tool's validation (the minimums sum to at most the
    length, at least two character classes are enabled), the password tool
    answers with a password of exactly the requested length, made of
    characters of the assembled charset, that holds the minimum number of
    characters of every enabled class; [metadata.length] is the length. *)
Theorem generatePasswordTool_accepts
    (length : Z) (options : PasswordOptions) (w : World)
    (u l n s : bool) (a b c d : Z) :
  Opt.include_uppercase options = Some u ->
  Opt.include_lowercase options = Some l ->
  Opt.include_numbers options = Some n ->
  Opt.include_special_chars options = Some s ->
  Opt.min_uppercase options = Some a ->
  Opt.min_lowercase options = Some b ->
  Opt.min_numbers options = Some c ->
  Opt.min_special options = Some d ->
  0 <= a -> 0 <= b -> 0 <= c -> 0 <= d ->
  Opt.custom_charset options = None ->
  Opt.special_char_set options <> Some ""%string ->
  a + b + c + d <= length ->
  (2 <= enabledTypes options)%nat ->
  exists r w',
    generatePasswordTool length options w = (Content r, w') /\
    Js.len (value r) = length /\
    md_length (metadata r) = length /\
    Forall (in_class (password_charset options)) (Js.chars (value r)) /\
    Forall (fun s => min s <= Z.of_nat (count_class (chars s) (Js.chars (value r))))
           (password_sets options).
Proof.
  intros Hu Hl Hn Hs Ha Hb Hc Hd Ha0 Hb0 Hc0 Hd0 Hcustom Hspecial Hsum Henabled.
  destruct (password_sets_wellformed options u l n s a b c d)
    as (Hsets & Hmins & Hcount); try assumption.
  destruct (generatePassword_exact length options w Hsets)
    as (r & w' & Hrun & Hlen & Hall & Hclasses & Hmd).
  { intros Hnil. rewrite Hnil in Hcount. simpl in Hcount. lia. }
  { lia. }
  exists r, w'. rewrite Hmd. cbn [md_length].
  split; [|repeat split; assumption].
  unfold generatePasswordTool, validatePasswordSecurity.
  assert (minimums_exceed (with_length length options) = false) as ->.
  { unfold minimums_exceed, with_length. cbn. rewrite Ha, Hb, Hc, Hd.
    apply Z.ltb_ge. exact Hsum. }
  assert (enabledTypes (with_length length options) = enabledTypes options) as ->
    by reflexivity.
  destruct (Nat.ltb_spec (enabledTypes options) 2); [lia|].
  assert (Opt.custom_charset (with_length length options) = None) as ->
    by exact Hcustom.
  cbn [truthy_str andb app valid errors]. cbn [negb bool_decide].
  unfold try_catch. rewrite Hrun. reflexivity.
Qed.

Lemma generatePasswordTool_accepts_witness :
  exists r w',
    generatePasswordTool 16 password_tool_defaults zero_world = (Content r, w') /\
    Js.len (value r) = 16 /\
    md_length (metadata r) = 16 /\
    Forall (in_class (password_charset password_tool_defaults))
           (Js.chars (value r)) /\
    Forall (fun s => min s <= Z.of_nat (count_class (chars s) (Js.chars (value r))))
           (password_sets password_tool_defaults).
Proof.
  apply (generatePasswordTool_accepts 16 password_tool_defaults zero_world
           true true true true 1 1 1 1);
    try reflexivity; try lia; try discriminate.
  vm_compute. lia.
Defined.

(** ** Types the batch cannot generate *)

Lemma generate_one_unsupported type options w :
  type ∉ implemented_types ->
  generate_one type options w = (Thrown (unsupported_error type), w).
Proof.
  intros Hnot. unfold implemented_types in Hnot.
  rewrite !not_elem_of_cons in Hnot.
  destruct Hnot as (H1 & H2 & H3 & H4 & H5 & H6 & H7 & H8 & _).
  unfold generate_one, unsupported_error.
  rewrite !(bool_decide_eq_false_2 (type = "uuid4")),
          !(bool_decide_eq_false_2 (type = "ulid")),
          !(bool_decide_eq_false_2 (type = "nano_id")),
          !(bool_decide_eq_false_2 (type = "password")),
          !(bool_decide_eq_false_2 (type = "pin")),
          !(bool_decide_eq_false_2 (type = "passphrase")),
          !(bool_decide_eq_false_2 (type = "api_key")),
          !(bool_decide_eq_false_2 (type = "random_string")) by assumption.
  repeat case_bool_decide; reflexivity.
Qed.

(** X20.  An entry with a positive count whose type [generateBatch] cannot
    generate aborts the whole batch: the results of the entries before it are
    discarded and the later entries are not run.  For [token] and [secret]
    the error is the ReferenceError of the generator the module does not
    define, for any other name [Unknown credential type]. *)
Theorem generateBatch_unsupported_type
    (pre post : list BatchRequest) (request : BatchRequest)
    (w w1 : World) (results1 : Results) :
  run_requests pre [] w = (Returned results1, w1) ->
  Req.type request ∉ implemented_types ->
  1 <= Req.count request ->
  generateBatch (pre ++ request :: post) w =
    (Thrown (unsupported_error (Req.type request)), w1).
Proof.
  intros Hpre Htype Hcount. unfold generateBatch.
  rewrite bind_run, run_requests_app, bind_run, Hpre.
  cbn [run_requests]. rewrite bind_run. unfold run_request.
  destruct (Z.to_nat (Req.count request)) as [|n] eqn:Hn; [lia|].
  rewrite for_loop_S. cbv beta. rewrite bind_run.
  rewrite (generate_one_unsupported _ _ _ Htype). reflexivity.
Qed.

Lemma generateBatch_unsupported_type_witness :
  generateBatch ([entry "pin" 1] ++ entry "token" 1 :: [entry "uuid4" 1])
                zero_world =
    (Thrown (unsupported_error "token"), advance 6 zero_world).
Proof.
  eapply (generateBatch_unsupported_type [entry "pin" 1] [entry "uuid4" 1]
            (entry "token" 1) zero_world).
  - vm_compute. reflexivity.
  - unfold implemented_types. cbn [entry Req.type].
    rewrite !not_elem_of_cons. repeat split; try discriminate.
    apply not_elem_of_nil.
  - cbn [entry Req.count]. lia.
Defined.

(** ** The keys of the results object *)

Lemma keys_replace_key key v results :
  map fst (replace_key key v results) = map fst results.
Proof.
  induction results as [|[k old] rest IH]; [reflexivity|].
  cbn [replace_key]. case_bool_decide; cbn [map fst]; [reflexivity|].
  now rewrite IH.
Qed.

Lemma keys_insert_key key v results :
  map fst (insert_key key v results) = place_key key (map fst results).
Proof.
  induction results as [|[k old] rest IH]; [reflexivity|].
  cbn [insert_key map fst place_key]. destruct (precedes key k); [reflexivity|].
  cbn [map fst]. now rewrite IH.
Qed.

Lemma keys_obj_set key v results :
  map fst (obj_set key v results) = set_key (map fst results) key.
Proof.
  unfold obj_set, set_key. case_bool_decide.
  - apply keys_replace_key.
  - apply keys_insert_key.
Qed.

Lemma obj_get_Some_key key results items :
  obj_get key results = Some items -> key ∈ map fst results.
Proof.
  unfold obj_get. induction results as [|[k old] rest IH]; [discriminate|].
  cbn [List.find fst]. case_bool_decide as Hk.
  - intros _. subst k. constructor.
  - intros H. cbn [map fst]. apply elem_of_cons. right. now apply IH.
Qed.

Lemma keys_obj_push key x results :
  map fst (obj_push key x results) = map fst results.
Proof.
  unfold obj_push. destruct (obj_get key results) as [items|] eqn:Hget;
    [|reflexivity].
  unfold obj_set. rewrite bool_decide_eq_true_2
    by (eapply obj_get_Some_key, Hget).
  apply keys_replace_key.
Qed.

Lemma keys_request_loop type options n : forall results w results' w',
  for_loop n
    (fun results =>
       result <- generate_one type options ;;
       ret (obj_push type result results))
    results w = (Returned results', w') ->
  map fst results' = map fst results.
Proof.
  induction n as [|n IH]; intros results w results' w' Hrun.
  - simpl in Hrun. rewrite ret_run in Hrun. now injection Hrun as <- _.
  - rewrite for_loop_S in Hrun. cbv beta in Hrun. rewrite bind_run in Hrun.
    destruct (generate_one type options w) as [[x|e] w1]; [|discriminate].
    rewrite ret_run in Hrun. apply IH in Hrun. now rewrite Hrun, keys_obj_push.
Qed.

Lemma keys_run_requests requests : forall results w results' w',
  run_requests requests results w = (Returned results', w') ->
  map fst results' = fold_left set_key (map Req.type requests) (map fst results).
Proof.
  induction requests as [|r rs IH]; intros results w results' w' Hrun.
  - simpl in Hrun. rewrite ret_run in Hrun. now injection Hrun as <- _.
  - cbn [run_requests] in Hrun. rewrite bind_run in Hrun.
    destruct (run_request r results w) as [[results1|e] w1] eqn:Hr; [|discriminate].
    apply IH in Hrun. rewrite Hrun. cbn [map fold_left]. f_equal.
    unfold run_request in Hr. apply keys_request_loop in Hr.
    now rewrite Hr, keys_obj_set.
Qed.

Lemma own_keys_filter results :
  own_keys results = filter (fun k => k <> "__proto__") (map fst results).
Proof.
  unfold own_keys, own_properties.
  induction results as [|[k v] rest IH]; [reflexivity|].
  cbn [map fst]. destruct (decide (k <> "__proto__")) as [Hk|Hk].
  - rewrite (filter_cons_True (fun k => k <> "__proto__")) by exact Hk.
    rewrite <- IH.
    now rewrite filter_cons_True by exact Hk.
  - rewrite (filter_cons_False (fun k => k <> "__proto__")) by exact Hk.
    rewrite <- IH.
    now rewrite filter_cons_False by exact Hk.
Qed.

(** *** The order of the names *)

Lemma place_key_Permutation key keys : place_key key keys ≡ₚ key :: keys.
Proof.
  induction keys as [|k rest IH]; [reflexivity|].
  cbn [place_key]. destruct (precedes key k); [reflexivity|].
  rewrite IH. apply Permutation_swap.
Qed.

Lemma place_key_plain key keys :
  array_index key = None -> place_key key keys = keys ++ [key].
Proof.
  intros Hkey. induction keys as [|k rest IH]; [reflexivity|].
  cbn [place_key]. unfold precedes at 1. rewrite Hkey. cbn [app]. now rewrite IH.
Qed.

Lemma elem_of_set_key keys key t : t ∈ set_key keys key <-> t = key \/ t ∈ keys.
Proof.
  unfold set_key. case_bool_decide as Hin.
  - split; [now right | intros [->|H]; assumption].
  - rewrite place_key_Permutation. apply elem_of_cons.
Qed.

Lemma NoDup_set_key keys key : NoDup keys -> NoDup (set_key keys key).
Proof.
  intros Hkeys. unfold set_key. case_bool_decide as Hin; [exact Hkeys|].
  rewrite place_key_Permutation. now constructor.
Qed.

Lemma elem_of_set_keys l : forall keys t,
  t ∈ fold_left set_key l keys <-> t ∈ l \/ t ∈ keys.
Proof.
  induction l as [|k l IH]; intros keys t; cbn [fold_left].
  - rewrite elem_of_nil. tauto.
  - rewrite IH, elem_of_set_key, elem_of_cons. tauto.
Qed.

Lemma NoDup_set_keys l : forall keys,
  NoDup keys -> NoDup (fold_left set_key l keys).
Proof.
  induction l as [|k l IH]; intros keys Hkeys; [exact Hkeys|].
  cbn [fold_left]. apply IH, NoDup_set_key, Hkeys.
Qed.

Lemma precedes_trans key k x :
  precedes key k = true -> precedes x k = false -> precedes x key = false.
Proof.
  unfold precedes.
  destruct (array_index key) as [i|], (array_index k) as [j|],
           (array_index x) as [n|]; try discriminate; try reflexivity.
  rewrite Z.ltb_lt, !Z.ltb_ge. lia.
Qed.

Lemma precedes_asym key k : precedes key k = true -> precedes k key = false.
Proof.
  unfold precedes.
  destruct (array_index key) as [i|], (array_index k) as [j|];
    try discriminate; try reflexivity.
  rewrite Z.ltb_lt, Z.ltb_ge. lia.
Qed.

Lemma key_order_place key keys : key_order keys -> key_order (place_key key keys).
Proof.
  unfold key_order. induction 1 as [|k rest Hrest IH Hk].
  - repeat constructor.
  - cbn [place_key]. destruct (precedes key k) eqn:Hp.
    + constructor; [now constructor|]. constructor.
      * now apply precedes_asym.
      * eapply Forall_impl; [exact Hk|]. intros x Hx.
        now apply (precedes_trans key k).
    + constructor; [exact IH|].
      rewrite place_key_Permutation. now constructor.
Qed.

Lemma key_order_set_keys l : forall keys,
  key_order keys -> key_order (fold_left set_key l keys).
Proof.
  induction l as [|k l IH]; intros keys Hkeys; [exact Hkeys|].
  cbn [fold_left]. apply IH. unfold set_key. case_bool_decide; [exact Hkeys|].
  now apply key_order_place.
Qed.

(** An ordered list is its array indices, ascending, then its other names. *)
Lemma key_order_split keys :
  key_order keys ->
  keys = filter (fun k => is_Some (array_index k)) keys ++
         filter (fun k => array_index k = None) keys /\
  StronglySorted index_le (filter (fun k => is_Some (array_index k)) keys).
Proof.
  unfold key_order. induction 1 as [|k rest Hrest [IH1 IH2] Hk].
  - split; [reflexivity | constructor].
  - destruct (array_index k) as [i|] eqn:Hi.
    + rewrite filter_cons_True by (rewrite Hi; eauto).
      rewrite (filter_cons_False (fun k => array_index k = None))
        by (rewrite Hi; discriminate).
      split; [cbn [app]; now f_equal|].
      constructor; [exact IH2|].
      apply Forall_forall. intros x Hx. apply list_elem_of_filter in Hx as [Hx Hin].
      rewrite Forall_forall in Hk. specialize (Hk x Hin).
      unfold precedes in Hk. unfold index_le. rewrite Hi in Hk |- *.
      destruct (array_index x) as [j|]; [|now destruct Hx].
      apply Z.ltb_ge in Hk. exact Hk.
    + assert (Forall (fun x => array_index x = None) rest) as Hnone.
      { eapply Forall_impl; [exact Hk|]. intros x Hx. unfold precedes in Hx.
        rewrite Hi in Hx. destruct (array_index x); [discriminate | reflexivity]. }
      rewrite filter_cons_False by (rewrite Hi; intros [? ?]; discriminate).
      rewrite filter_cons_True by exact Hi.
      assert (filter (fun k => is_Some (array_index k)) rest = []) as Hnil.
      { clear -Hnone. induction Hnone as [|x l Hx _ IH]; [reflexivity|].
        rewrite filter_cons_False by (rewrite Hx; intros [? ?]; discriminate).
        exact IH. }
      rewrite Hnil in *. cbn [app] in *. split; [now f_equal | constructor].
Qed.

(** The names that are not array indices are kept in order of creation. *)
Lemma other_names_set_keys (P : string -> Prop) `{!forall t, Decision (P t)} l :
  (forall t, P t -> array_index t = None) ->
  forall keys,
    filter P (fold_left set_key l keys) = fold_left add_key (filter P l) (filter P keys).
Proof.
  intros HP. induction l as [|k l IH]; intros keys; [reflexivity|].
  cbn [fold_left]. rewrite IH. destruct (decide (P k)) as [Hk|Hk].
  - rewrite (filter_cons_True P) by exact Hk. cbn [fold_left]. f_equal.
    unfold set_key, add_key.
    destruct (decide (k ∈ keys)) as [Hin|Hin].
    + rewrite !bool_decide_eq_true_2; [reflexivity | | exact Hin].
      apply list_elem_of_filter. split; assumption.
    + rewrite !bool_decide_eq_false_2; [| | exact Hin].
      * rewrite (place_key_plain k keys (HP k Hk)), filter_app.
        now rewrite (filter_cons_True P) by exact Hk.
      * intros Hin'. apply list_elem_of_filter in Hin' as [_ Hin']. contradiction.
  - rewrite (filter_cons_False P) by exact Hk. f_equal.
    unfold set_key. case_bool_decide as Hin; [reflexivity|].
    clear Hin IH. induction keys as [|x rest IH]; cbn [place_key].
    + now rewrite filter_cons_False by exact Hk.
    + destruct (precedes k x).
      * now rewrite (filter_cons_False P) by exact Hk.
      * destruct (decide (P x)) as [Hx|Hx].
        -- rewrite !(filter_cons_True P) by exact Hx. now f_equal.
        -- rewrite !(filter_cons_False P) by exact Hx. exact IH.
Qed.

Lemma array_index_proto : array_index "__proto__" = None.
Proof. reflexivity. Qed.

(** X21.  In the summary of a batch that succeeds, [types_generated] lists
    every requested type other than [__proto__] exactly once: first the types
    that are array indices, in ascending numeric order, then the other types
    in the order of their first appearance. *)
Theorem generateBatch_types_generated
    (requests : list BatchRequest) (w w' : World) (res : BatchResult) :
  generateBatch requests w = (Returned res, w') ->
  exists indices,
    types_generated res =
      indices ++ first_occurrences (plain_names (map Req.type requests)) /\
    (forall t, t ∈ indices <->
               t ∈ map Req.type requests /\ is_Some (array_index t)) /\
    StronglySorted index_le indices /\
    NoDup (types_generated res).
Proof.
  intros Hrun. unfold generateBatch in Hrun. rewrite bind_run in Hrun.
  destruct (run_requests requests [] w) as [[found|e] w1] eqn:Hreqs;
    [|discriminate].
  rewrite ret_run in Hrun. injection Hrun as <- _. cbn [types_generated].
  apply keys_run_requests in Hreqs. cbn [map] in Hreqs.
  rewrite own_keys_filter, Hreqs.
  set (types := map Req.type requests).
  set (keys := fold_left set_key types []).
  assert (key_order keys) as Hord by (apply key_order_set_keys; constructor).
  destruct (key_order_split keys Hord) as [Hsplit Hsorted].
  exists (filter (fun k => is_Some (array_index k)) keys).
  assert (NoDup keys) as Hdup by (apply NoDup_set_keys; constructor).
  split; [|split; [|split]].
  - rewrite Hsplit at 1. rewrite filter_app. f_equal.
    + rewrite list_filter_filter. apply list_filter_iff. intros k.
      split; [intros [_ Hk]; exact Hk|]. intros Hk. split; [|exact Hk].
      intros ->. rewrite array_index_proto in Hk. now destruct Hk.
    + rewrite list_filter_filter. unfold first_occurrences, plain_names.
      pose proof (other_names_set_keys
                    (fun t => array_index t = None /\ t <> "__proto__") types
                    ltac:(intros t [Ht _]; exact Ht) []) as Hother.
      rewrite filter_nil in Hother. fold keys in Hother. rewrite <- Hother.
      apply list_filter_iff. intros k. tauto.
  - intros t. rewrite list_elem_of_filter. unfold keys.
    rewrite elem_of_set_keys, elem_of_nil. tauto.
  - exact Hsorted.
  - apply NoDup_filter, Hdup.
Qed.

Lemma generateBatch_types_generated_witness :
  exists res w',
    generateBatch [entry "pin" 1; entry "7" 0; entry "uuid4" 1;
                   entry "__proto__" 0; entry "10" 0; entry "pin" 2]
                  zero_world = (Returned res, w') /\
    types_generated res = ["7"; "10"; "pin"; "uuid4"] /\
    exists indices,
      types_generated res =
        indices ++
        first_occurrences
          (plain_names ["pin"; "7"; "uuid4"; "__proto__"; "10"; "pin"]) /\
      (forall t, t ∈ indices <->
                 t ∈ ["pin"; "7"; "uuid4"; "__proto__"; "10"; "pin"] /\
                 is_Some (array_index t)) /\
      StronglySorted index_le indices /\
      NoDup (types_generated res).
Proof.
  run_generator. split; [reflexivity|].
  eapply (generateBatch_types_generated
            [entry "pin" 1; entry "7" 0; entry "uuid4" 1;
             entry "__proto__" 0; entry "10" 0; entry "pin" 2] zero_world).
  vm_compute. reflexivity.
Defined.

(** ** Batches whose types are all different *)

Lemma replace_insert_key key v v' (o : Results) :
  key ∉ map fst o ->
  replace_key key v' (insert_key key v o) = insert_key key v' o.
Proof.
  induction o as [|[k old] rest IH]; intros Hkey.
  - cbn. now rewrite bool_decide_eq_true_2.
  - cbn [map fst] in Hkey. apply not_elem_of_cons in Hkey as [Hne Hkey].
    cbn [insert_key]. destruct (precedes key k); cbn [replace_key].
    + now rewrite bool_decide_eq_true_2.
    + rewrite bool_decide_eq_false_2 by congruence. now rewrite IH.
Qed.

Lemma obj_set_new key v (o : Results) :
  key ∉ map fst o -> obj_set key v o = insert_key key v o.
Proof. intros Hkey. unfold obj_set. now rewrite bool_decide_eq_false_2. Qed.

Lemma obj_push_new key x items (o : Results) :
  key ∉ map fst o ->
  obj_push key x (insert_key key items o) = insert_key key (items ++ [x]) o.
Proof.
  intros Hkey. unfold obj_push. rewrite (obj_get_insert_eq _ _ _ Hkey).
  unfold obj_set. rewrite bool_decide_eq_true_2.
  - now apply replace_insert_key.
  - rewrite keys_insert_key, place_key_Permutation. constructor.
Qed.

(** Under a key that is not yet present, the inner loop builds the entry's
    array at the key's place in the object. *)
Lemma request_loop_fresh type options (o : Results) n : forall items w,
  type ∉ map fst o ->
  for_loop n
    (fun results =>
       result <- generate_one type options ;;
       ret (obj_push type result results))
    (insert_key type items o) w =
  match for_loop n
          (fun items => result <- generate_one type options ;; ret (items ++ [result]))
          items w with
  | (Returned items', w') => (Returned (insert_key type items' o), w')
  | (Thrown e, w') => (Thrown e, w')
  end.
Proof.
  induction n as [|n IH]; intros items w Hkey; [reflexivity|].
  rewrite !for_loop_S. cbv beta. rewrite !bind_run.
  destruct (generate_one type options w) as [[x|e] w1]; [|reflexivity].
  rewrite !ret_run, (obj_push_new _ _ _ _ Hkey).
  now apply IH.
Qed.

Lemma own_properties_insert key items (o : Results) :
  own_properties (insert_key key items o) ≡ₚ
  own_properties [(key, items)] ++ own_properties o.
Proof.
  unfold own_properties. rewrite <- filter_app. apply filter_Permutation.
  induction o as [|[k old] rest IH]; [reflexivity|].
  cbn [insert_key]. destruct (precedes key k); [reflexivity|].
  rewrite IH. cbn [app]. apply Permutation_swap.
Qed.

Lemma result_count_insert key items (o : Results) :
  result_count (insert_key key items o) =
  (result_count [(key, items)] + result_count o)%nat.
Proof.
  unfold result_count. rewrite own_properties_insert.
  now rewrite map_app, concat_app, length_app.
Qed.

(** What an entry of type [__proto__] sets as the prototype is an empty
    array: the [switch] throws on the first item. *)
Lemma result_count_entry type options n items w w' :
  for_loop n
    (fun items => result <- generate_one type options ;; ret (items ++ [result]))
    [] w = (Returned items, w') ->
  result_count [(type, items)] = n.
Proof.
  intros Hrun. unfold result_count, own_properties.
  destruct (decide (type = "__proto__")) as [->|Htype].
  - rewrite filter_cons_False by (cbn; intros H; now apply H).
    destruct n as [|n]; [reflexivity|].
    rewrite for_loop_S in Hrun. cbv beta in Hrun. rewrite bind_run in Hrun.
    discriminate.
  - rewrite filter_cons_True by exact Htype.
    apply length_generate_loop in Hrun. cbn. rewrite app_nil_r. exact Hrun.
Qed.

Lemma run_requests_distinct requests : forall results w results' w',
  NoDup (map Req.type requests) ->
  Forall (fun r => Req.type r ∉ map fst results) requests ->
  Forall (fun r => 0 <= Req.count r) requests ->
  run_requests requests results w = (Returned results', w') ->
  Z.of_nat (result_count results') =
    Z.of_nat (result_count results) + sum_counts requests.
Proof.
  induction requests as [|r rs IH];
    intros results w results' w' Hdup Hfresh Hcounts Hrun.
  - simpl in Hrun. rewrite ret_run in Hrun. injection Hrun as <- _.
    unfold sum_counts. simpl. lia.
  - cbn [map] in Hdup. apply NoDup_cons in Hdup as [Hr Hdup].
    apply Forall_cons in Hfresh as [Hkey Hfresh].
    apply Forall_cons in Hcounts as [Hcount Hcounts].
    cbn [run_requests] in Hrun. rewrite bind_run in Hrun.
    unfold run_request in Hrun.
    rewrite (obj_set_new _ _ _ Hkey), (request_loop_fresh _ _ _ _ _ _ Hkey) in Hrun.
    destruct (for_loop _ _ [] w) as [[items|e] w1] eqn:Hitems; [|discriminate].
    apply result_count_entry in Hitems.
    assert (Forall (fun r' => Req.type r' ∉
                              map fst (insert_key (Req.type r) items results))
                   rs) as Hfresh'; [|
      rewrite (IH _ _ _ _ Hdup Hfresh' Hcounts Hrun), result_count_insert,
        sum_counts_cons, Hitems; lia].
    { rewrite Forall_forall in Hfresh |- *. intros r' Hr'.
      rewrite keys_insert_key, place_key_Permutation, elem_of_cons.
      intros [Heq|Hin]; [|now apply (Hfresh r')].
      apply Hr. rewrite <- Heq. apply list_elem_of_fmap. now exists r'. }
Qed.

(** X22.  When the entries of a batch that succeeds have different types and
    non-negative counts, [total_items] is the number of results returned. *)
Theorem generateBatch_distinct_types
    (requests : list BatchRequest) (w w' : World) (res : BatchResult) :
  generateBatch requests w = (Returned res, w') ->
  NoDup (map Req.type requests) ->
  Forall (fun r => 0 <= Req.count r) requests ->
  Z.of_nat (result_count (results res)) = total_items res.
Proof.
  intros Hrun Hdup Hcounts. unfold generateBatch in Hrun. rewrite bind_run in Hrun.
  destruct (run_requests requests [] w) as [[found|e] w1] eqn:Hreqs;
    [|discriminate].
  rewrite ret_run in Hrun. injection Hrun as <- _. cbn [results total_items].
  rewrite (run_requests_distinct requests [] w found w1 Hdup); try assumption.
  - unfold result_count. simpl. lia.
  - apply Forall_forall. intros r _. apply not_elem_of_nil.
Qed.

Lemma generateBatch_distinct_types_witness :
  exists res w',
    generateBatch [entry "pin" 2; entry "uuid4" 3] zero_world = (Returned res, w') /\
    Z.of_nat (result_count (results res)) = total_items res.
Proof.
  run_generator.
  eapply (generateBatch_distinct_types [entry "pin" 2; entry "uuid4" 3] zero_world).
  - vm_compute. reflexivity.
  - cbn. repeat constructor; rewrite ?elem_of_cons, ?elem_of_nil;
      intuition discriminate.
  - repeat constructor; cbn; lia.
Defined.

(** ** A batch of PINs *)

(** When every call of the entry's generator returns a result with a given
    property, the entry's loop collects that many results with the property. *)
Lemma generate_many_Forall type options (P : GenerationResult -> Prop) :
  (forall w, exists r w', generate_one type options w = (Returned r, w') /\ P r) ->
  forall n items w,
    Forall P items ->
    exists items' w',
      for_loop n
        (fun items => result <- generate_one type options ;; ret (items ++ [result]))
        items w = (Returned items', w') /\
      List.length items' = (List.length items + n)%nat /\
      Forall P items'.
Proof.
  intros Hone. induction n as [|n IH]; intros items w Hitems.
  - exists items, w. repeat split; [lia | exact Hitems].
  - rewrite for_loop_S. cbv beta. rewrite bind_run.
    destruct (Hone w) as (r & w1 & -> & Hr). rewrite ret_run.
    destruct (IH (items ++ [r]) w1) as (items' & w' & Hrun & Hlen & Hall).
    { apply Forall_app. split; [exact Hitems | repeat constructor; exact Hr]. }
    exists items', w'. rewrite length_app in Hlen. simpl in Hlen.
    repeat split; [exact Hrun | lia | exact Hall].
Qed.

Lemma generate_one_pin options w :
  generate_one "pin" options w = generatePin (num_or (Opt.length options) 6) w.
Proof. reflexivity. Qed.

(** X23.  A batch of one [pin] entry with a non-negative count and a length
    from 1 to 65536 returns, under the key [pin], exactly [count] PINs, each
    of [length] decimal digits; [total_items] is the count. *)
Theorem generateBatch_pins (count length : Z) (w : World) :
  0 <= count -> 1 <= length <= 65536 ->
  exists res w' items,
    generateBatch [pin_entry count length] w = (Returned res, w') /\
    results res = [("pin", items)] /\
    Z.of_nat (List.length items) = count /\
    Forall (fun r => Js.len (value r) = length /\
                     Forall (in_class CHARSETS.numbers) (Js.chars (value r)))
           items /\
    total_items res = count.
Proof.
  intros Hcount Hlen.
  destruct (generate_many_Forall "pin"
              (default no_options (Req.options (pin_entry count length)))
              (fun r => Js.len (value r) = length /\
                        Forall (in_class CHARSETS.numbers) (Js.chars (value r))))
    with (n := Z.to_nat count) (items := @nil GenerationResult) (w := w)
    as (items & w' & Hrun & Hl & Hall).
  { intros w0. rewrite generate_one_pin.
    cbn [pin_entry Req.options default from_option id Opt.length].
    assert (num_or (Some length) 6 = length) as -> by (destruct length; reflexivity || lia).
    destruct (generatePin_run length w0) as (r & Hr & Hlr & Hd & _); [lia|].
    eexists r, _. repeat split; eassumption. }
  { constructor. }
  unfold generateBatch. rewrite bind_run. cbn [run_requests].
  rewrite bind_run. unfold run_request. cbn [pin_entry Req.type Req.count Req.options].
  cbn [pin_entry Req.options] in Hrun.
  change (obj_set "pin" [] []) with (insert_key "pin" [] []).
  rewrite request_loop_fresh by apply not_elem_of_nil.
  rewrite Hrun, !ret_run. eexists _, _, items. split; [reflexivity|].
  cbn [results total_items insert_key]. simpl in Hl.
  split; [reflexivity|]. split; [lia|]. split; [exact Hall|].
  unfold sum_counts. simpl. reflexivity.
Qed.

Lemma generateBatch_pins_witness :
  exists res w' items,
    generateBatch [pin_entry 5 6] zero_world = (Returned res, w') /\
    results res = [("pin", items)] /\
    Z.of_nat (List.length items) = 5 /\
    Forall (fun r => Js.len (value r) = 6 /\
                     Forall (in_class CHARSETS.numbers) (Js.chars (value r)))
           items /\
    total_items res = 5.
Proof. apply (generateBatch_pins 5 6 zero_world); lia. Defined.

(** ** How often a byte selects each character *)

(** Among the numbers below [N], those with residue [k] modulo [n]. *)
Lemma count_residue n k :
  0 < n -> 0 <= k < n ->
  forall N : nat,
    Z.of_nat (List.length (filter (fun v => v mod n = k) (map Z.of_nat (seq 0 N)))) =
    Z.of_nat N / n + (if k <? Z.of_nat N mod n then 1 else 0).
Proof.
  intros Hn Hk. induction N as [|N IH].
  - simpl. rewrite Z.div_0_l, Z.mod_0_l by lia.
    destruct (Z.ltb_spec k 0); lia.
  - rewrite seq_S, map_app, filter_app, length_app, Nat2Z.inj_add, IH.
    cbn [map Nat.add]. clear IH.
    rewrite Nat2Z.inj_succ. set (m := Z.of_nat N).
    assert (0 <= m) as Hm by (subst m; lia).
    pose proof (Z.div_mod m n ltac:(lia)) as Em.
    pose proof (Z.mod_pos_bound m n Hn) as Bm.
    destruct (Z.eq_dec (m mod n + 1) n) as [Hwrap|Hwrap].
    + assert (Z.succ m / n = m / n + 1) as ->
        by (symmetry; apply (Z.div_unique _ _ _ 0); lia).
      assert (Z.succ m mod n = 0) as ->
        by (symmetry; apply (Z.mod_unique _ _ (m / n + 1)); lia).
      destruct (decide (m mod n = k)) as [Hr|Hr].
      * rewrite filter_cons_True by exact Hr. cbn.
        destruct (Z.ltb_spec k (m mod n)), (Z.ltb_spec k 0); lia.
      * rewrite filter_cons_False by exact Hr. cbn.
        destruct (Z.ltb_spec k (m mod n)), (Z.ltb_spec k 0); lia.
    + assert (Z.succ m / n = m / n) as ->
        by (symmetry; apply (Z.div_unique _ _ _ (m mod n + 1)); lia).
      assert (Z.succ m mod n = m mod n + 1) as ->
        by (symmetry; apply (Z.mod_unique _ _ (m / n)); lia).
      destruct (decide (m mod n = k)) as [Hr|Hr].
      * rewrite filter_cons_True by exact Hr. cbn.
        destruct (Z.ltb_spec k (m mod n)), (Z.ltb_spec k (m mod n + 1)); lia.
      * rewrite filter_cons_False by exact Hr. cbn.
        destruct (Z.ltb_spec k (m mod n)), (Z.ltb_spec k (m mod n + 1)); lia.
Qed.

Lemma filter_agree {A} (P Q : A -> Prop) `{!forall x, Decision (P x)}
    `{!forall x, Decision (Q x)} (l : list A) :
  Forall (fun x => P x <-> Q x) l -> filter P l = filter Q l.
Proof.
  induction 1 as [|x l Hx _ IH]; [reflexivity|].
  destruct (decide (P x)) as [HP|HP].
  - rewrite !filter_cons_True by tauto. now f_equal.
  - rewrite !filter_cons_False by tauto. exact IH.
Qed.

(** X24.  The selection [charset[byte % charset.length]] is not uniform
    unless the charset's length divides 256: over a charset without repeated
    characters, the character at index [k] is selected by
    [256 / n + 1] of the 256 byte values when [k < 256 mod n], and by
    [256 / n] of them otherwise. *)
Theorem bytes_selecting_count (charset : string) (k : nat) (c : ascii) :
  NoDup (Js.chars charset) ->
  Js.chars charset !! k = Some c ->
  Z.of_nat (List.length (bytes_selecting charset c)) =
    256 / Js.len charset +
    (if Z.of_nat k <? 256 mod Js.len charset then 1 else 0).
Proof.
  intros Hnodup Hk.
  pose proof (lookup_lt_Some _ _ _ Hk) as Hlt. rewrite length_chars in Hlt.
  assert (0 < Js.len charset) as Hlen by (unfold Js.len; lia).
  unfold bytes_selecting, all_bytes.
  rewrite (filter_agree _ (fun v => v mod Js.len charset = Z.of_nat k)).
  - apply (count_residue (Js.len charset) (Z.of_nat k) Hlen); unfold Js.len; lia.
  - apply Forall_forall. intros b Hb.
    apply list_elem_of_fmap in Hb as (i & -> & _).
    unfold pick, Js.rem, Js.index.
    destruct (Z.eqb_spec (Js.len charset) 0); [lia|].
    rewrite Z.rem_mod_nonneg by lia.
    pose proof (Z.mod_pos_bound (Z.of_nat i) (Js.len charset) Hlen) as Hb.
    destruct (Z.ltb_spec (Z.of_nat i mod Js.len charset) 0); [lia|].
    split.
    + intros Hc.
      pose proof (NoDup_lookup _ _ _ _ Hnodup Hc Hk). lia.
    + intros E. rewrite E, Nat2Z.id. exact Hk.
Qed.

Lemma bytes_selecting_count_witness :
  Z.of_nat (List.length (bytes_selecting CHARSETS.numbers "7")) = 25.
Proof.
  apply (bytes_selecting_count CHARSETS.numbers 7 "7").
  - apply (bool_decide_eq_true_1 (NoDup (Js.chars CHARSETS.numbers))).
    vm_compute. reflexivity.
  - reflexivity.
Defined.

(** ** Passphrases *)

Lemma wordList_facts :
  List.length wordList = 200%nat /\ NoDup wordList /\
  Forall (fun word => Js.len word = 4) wordList.
Proof.
  split; [reflexivity|]. split; [|decide_by_evaluation].
  apply (bool_decide_eq_true_1 (NoDup wordList)). vm_compute. reflexivity.
Qed.

Lemma push_word_run selectedWords w :
  exists word,
    push_word selectedWords w = (Returned (selectedWords ++ [word]), advance 2 w) /\
    word ∈ wordList.
Proof.
  unfold push_word. rewrite bind_run, getSecureRandomBytes_run by lia.
  rewrite ret_run. change (Z.to_nat 2) with 2%nat.
  pose proof (at_index_range (upcoming 2 w) 0 (upcoming_range 2 w)) as H0.
  pose proof (at_index_range (upcoming 2 w) 1 (upcoming_range 2 w)) as H1.
  set (b0 := at_index (upcoming 2 w) 0) in *.
  set (b1 := at_index (upcoming 2 w) 1) in *.
  assert (0 <= Z.lor (Z.shiftl b0 8) b1) as Hv.
  { apply Z.lor_nonneg. split; [apply Z.shiftl_nonneg|]; lia. }
  change (Z.of_nat (List.length wordList)) with 200.
  pose proof (Z.rem_bound_pos (Z.lor (Z.shiftl b0 8) b1) 200 Hv ltac:(lia)) as Hr.
  destruct (lookup_lt_is_Some_2 wordList
              (Z.to_nat (Z.rem (Z.lor (Z.shiftl b0 8) b1) 200))) as [word Hword].
  { change (List.length wordList) with 200%nat. lia. }
  exists word. rewrite Hword. split; [reflexivity|].
  apply list_elem_of_lookup. eauto.
Qed.

Lemma push_words_run n : forall selectedWords w,
  exists words,
    for_loop n push_word selectedWords w =
      (Returned (selectedWords ++ words), advance (2 * n) w) /\
    List.length words = n /\ Forall (fun word => word ∈ wordList) words.
Proof.
  induction n as [|n IH]; intros selectedWords w.
  - exists []. simpl. rewrite app_nil_r, advance_0. repeat split. constructor.
  - rewrite for_loop_S.
    destruct (push_word_run selectedWords w) as (word & -> & Hword).
    destruct (IH (selectedWords ++ [word]) (advance 2 w))
      as (words & -> & Hlen & Hall).
    exists (word :: words). rewrite advance_advance, <- app_assoc.
    replace (2 + 2 * n)%nat with (2 * S n)%nat by lia. cbn [app].
    repeat split; [simpl; lia | now constructor].
Qed.

Lemma len_join_words separator words :
  Forall (fun word => Js.len word = 4) words ->
  words <> [] ->
  Js.len (join_words separator words) =
    4 * Z.of_nat (List.length words) +
    Js.len separator * (Z.of_nat (List.length words) - 1).
Proof.
  induction 1 as [|word words Hword Hall IH]; [congruence|]. intros _.
  destruct words as [|word' words].
  - cbn [join_words List.length]. lia.
  - change (join_words separator (word :: word' :: words))
      with (word +:+ separator +:+ join_words separator (word' :: words)).
    rewrite !len_append, IH, Hword by discriminate.
    cbn [List.length]. lia.
Qed.

(** X25.  For at least one word, [generatePassphrase] reads two random bytes
    per word and returns that many words of the word list joined by the
    separator.  The words have four letters each, so the value has
    [4 * words + |separator| * (words - 1)] characters; [metadata] reports
    this length, the word count, the separator and a dictionary size of
    200. *)
Theorem generatePassphrase_words (words : Z) (separator : string) (w : World) :
  1 <= words ->
  exists r selected,
    generatePassphrase words separator w =
      (Returned r, advance (2 * Z.to_nat words) w) /\
    value r = join_words separator selected /\
    Z.of_nat (List.length selected) = words /\
    Forall (fun word => word ∈ wordList) selected /\
    Js.len (value r) = 4 * words + Js.len separator * (words - 1) /\
    md_length (metadata r) = Js.len (value r) /\
    md_extra (metadata r) =
      [("word_count", XNum words); ("separator", XStr separator);
       ("dictionary_size", XNum 200)].
Proof.
  intros Hwords. unfold generatePassphrase. rewrite bind_run.
  destruct (push_words_run (Z.to_nat words) [] w) as (selected & -> & Hlen & Hall).
  rewrite ret_run. cbn [app]. eexists _, selected. split; [reflexivity|].
  cbn [value metadata md_length md_extra]. split; [reflexivity|].
  split; [lia|]. split; [exact Hall|]. split; [|split; reflexivity].
  destruct wordList_facts as (_ & _ & Hfour). rewrite Forall_forall in Hfour.
  rewrite len_join_words.
  - rewrite Hlen. lia.
  - eapply Forall_impl; [exact Hall|]. intros word Hin. now apply Hfour.
  - intros ->. simpl in Hlen. lia.
Qed.

Lemma generatePassphrase_words_witness :
  exists r selected,
    generatePassphrase 6 "-" zero_world = (Returned r, advance 12 zero_world) /\
    value r = join_words "-" selected /\
    Z.of_nat (List.length selected) = 6 /\
    Forall (fun word => word ∈ wordList) selected /\
    Js.len (value r) = 29 /\
    md_length (metadata r) = Js.len (value r) /\
    md_extra (metadata r) =
      [("word_count", XNum 6); ("separator", XStr "-");
       ("dictionary_size", XNum 200)].
Proof. apply (generatePassphrase_words 6 "-" zero_world). lia. Defined.

(** The dictionary has 200 different words, as [dictionary_size] reports. *)
Remark wordList_distinct : List.length wordList = 200%nat /\ NoDup wordList.
Proof. destruct wordList_facts as (H1 & H2 & _). now split. Qed.

(** ** The token tool *)

(** X26.  For a length from 0 to 65536 (the tool's schema allows 8 to 200),
    the token tool's [length] is a number of characters for the types
    [bearer], [session] and [csrf], and a number of bytes for [jwt_secret],
    whose value has [ceil (4 * length / 3)] characters.  Any other type is
    answered with the error [Unsupported token type], and no random byte is
    read. *)
Theorem generateTokenTool_lengths (length : Z) (w : World) :
  0 <= length <= 65536 ->
  (forall type, type ∈ ["bearer"; "session"; "csrf"] ->
     exists r w',
       generateTokenTool type length w = (Content r, w') /\
       Js.len (value r) = length) /\
  (exists r w',
     generateTokenTool "jwt_secret" length w = (Content r, w') /\
     Js.len (value r) = Js.ceil_div (4 * length) 3) /\
  (forall type, type ∉ ["bearer"; "jwt_secret"; "session"; "csrf"] ->
     generateTokenTool type length w =
       (Failed (Error ("Unsupported token type: " +:+ type)), w)).
Proof.
  intros Hlen.
  assert (0 <= length <= 87381) as Hchars by lia.
  split; [|split].
  - intros type Htype. rewrite !elem_of_cons, elem_of_nil in Htype.
    unfold generateTokenTool, try_catch.
    destruct Htype as [->|[->|[->|[]]]];
      cbn [bool_decide decide_rel]; 
      [destruct (token_wrapper_run "bearer_token"
                   "Generated bearer token for API authentication" length w Hchars)
         as (r & w' & Hrun & _ & Hl & _)
      |destruct (token_wrapper_run "session_token"
                   "Generated session token for web session management" length w Hchars)
         as (r & w' & Hrun & _ & Hl & _)
      |destruct (token_wrapper_run "csrf_token"
                   "Generated CSRF token for cross-site request forgery protection"
                   length w Hchars)
         as (r & w' & Hrun & _ & Hl & _)];
      exists r, w';
      (split; [|exact Hl]).
    + change (generateBearerToken length w = (Returned r, w')) in Hrun.
      change (match generateBearerToken length w with
              | (Returned a, w'0) => (Content a, w'0)
              | (Thrown e, w'0) => (Failed e, w'0)
              end = (Content r, w')).
      now rewrite Hrun.
    + change (generateSessionToken length w = (Returned r, w')) in Hrun.
      change (match generateSessionToken length w with
              | (Returned a, w'0) => (Content a, w'0)
              | (Thrown e, w'0) => (Failed e, w'0)
              end = (Content r, w')).
      now rewrite Hrun.
    + change (generateCsrfToken length w = (Returned r, w')) in Hrun.
      change (match generateCsrfToken length w with
              | (Returned a, w'0) => (Content a, w'0)
              | (Thrown e, w'0) => (Failed e, w'0)
              end = (Content r, w')).
      now rewrite Hrun.
  - destruct (generateJwtSecret_run length w Hlen) as (r & Hrun & Hl & _).
    exists r, (advance (Z.to_nat length) w). split; [|exact Hl].
    change (match generateJwtSecret length w with
            | (Returned a, w'0) => (Content a, w'0)
            | (Thrown e, w'0) => (Failed e, w'0)
            end = (Content r, advance (Z.to_nat length) w)).
    now rewrite Hrun.
  - intros type Htype. rewrite !not_elem_of_cons in Htype.
    destruct Htype as (H1 & H2 & H3 & H4 & _).
    unfold generateTokenTool, try_catch.
    rewrite !bool_decide_eq_false_2 by assumption. reflexivity.
Qed.

Lemma generateTokenTool_lengths_witness :
  (forall type, type ∈ ["bearer"; "session"; "csrf"] ->
     exists r w',
       generateTokenTool type 128 zero_world = (Content r, w') /\
       Js.len (value r) = 128) /\
  (exists r w',
     generateTokenTool "jwt_secret" 128 zero_world = (Content r, w') /\
     Js.len (value r) = 171) /\
  (forall type, type ∉ ["bearer"; "jwt_secret"; "session"; "csrf"] ->
     generateTokenTool type 128 zero_world =
       (Failed (Error ("Unsupported token type: " +:+ type)), zero_world)).
Proof. apply (generateTokenTool_lengths 128 zero_world). lia. Defined.

(** ** AWS-style credentials *)

Lemma generateAlphanumeric_run length w :
  0 <= length <= 65536 ->
  exists r,
    generateAlphanumeric length w = (Returned r, advance (Z.to_nat length) w) /\
    Js.len (value r) = length /\
    Forall (in_class CHARSETS.alphanumeric) (Js.chars (value r)).
Proof.
  intros Hlen. unfold generateAlphanumeric.
  match goal with
  | |- context [generateRandomString length ?o w] =>
      destruct (plain_random_string length o w Hlen)
        as (r & Hrun & Hl & Hall & Hmd); [discriminate | reflexivity..|]
  end.
  exists r. repeat split; assumption.
Qed.

(** No character of the two alphabets is escaped by [JSON.stringify]. *)
Lemma json_escape_plain c :
  c ∈ Js.chars CHARSETS.alphanumeric ++ Js.chars base64_alphabet -> json_escape c = [c].
Proof.
  revert c. apply Forall_forall.
  apply (bool_decide_eq_true_1
           (Forall (fun c => json_escape c = [c])
              (Js.chars CHARSETS.alphanumeric ++ Js.chars base64_alphabet))).
  vm_compute. reflexivity.
Qed.

Lemma length_json_string s :
  Forall (fun c => c ∈ Js.chars CHARSETS.alphanumeric ++ Js.chars base64_alphabet)
         (Js.chars s) ->
  Z.of_nat (List.length (json_string s)) = Js.len s + 2.
Proof.
  intros Hall. unfold json_string, Js.len.
  rewrite !length_app. cbn [List.length].
  assert (concat (map json_escape (Js.chars s)) = Js.chars s) as ->.
  { induction Hall as [|c l Hc _ IH]; [reflexivity|].
    cbn [map concat]. rewrite IH, (json_escape_plain c Hc). reflexivity. }
  rewrite length_chars. lia.
Qed.

(** X27.  [generateAwsCredentials] reads 46 random bytes and returns the
    indented JSON text of an access key, [AKIA] followed by 16 letters and
    digits, and a secret key of 40 base64 characters.  The value always has
    102 characters, while [metadata.length] is always 93, the length of the
    compact JSON text. *)
Theorem generateAwsCredentials_length_mismatch (w : World) :
  exists r access secret,
    generateAwsCredentials w = (Returned r, advance 46 w) /\
    value r = Js.str (json_pretty ("AKIA" +:+ access) secret) /\
    Js.len access = 16 /\
    Forall (in_class CHARSETS.alphanumeric) (Js.chars access) /\
    Js.len secret = 40 /\
    Forall (in_class base64_alphabet) (Js.chars secret) /\
    Js.len (value r) = 102 /\
    md_length (metadata r) = 93.
Proof.
  unfold generateAwsCredentials. rewrite bind_run.
  destruct (generateAlphanumeric_run 16 w) as (a & -> & Hla & Ha); [lia|].
  rewrite bind_run.
  destruct (generateApiKey_run "base64" 40 (advance (Z.to_nat 16) w))
    as (k & -> & Hlk & Hk & _); [lia|].
  rewrite ret_run, advance_advance.
  eexists _, (value a), (value k). split; [reflexivity|].
  cbn [value metadata md_length].
  change (api_key_alphabet "base64") with base64_alphabet in Hk.
  assert (Z.of_nat (List.length (json_string ("AKIA" +:+ value a))) = 22) as Hja.
  { rewrite length_json_string.
    - rewrite len_append, Hla. reflexivity.
    - rewrite chars_append. apply Forall_app. split.
      + apply (bool_decide_eq_true_1 _). vm_compute. reflexivity.
      + eapply Forall_impl; [exact Ha|]. intros c Hc.
        apply elem_of_app. left. exact Hc. }
  assert (Z.of_nat (List.length (json_string (value k))) = 42) as Hjk.
  { rewrite length_json_string.
    - rewrite Hlk. reflexivity.
    - eapply Forall_impl; [exact Hk|]. intros c Hc.
      apply elem_of_app. right. exact Hc. }
  repeat split; try assumption.
  - rewrite len_str. unfold json_pretty. rewrite !length_app.
    rewrite !Nat2Z.inj_add, Hja, Hjk. reflexivity.
  - unfold json_compact. rewrite !length_app.
    rewrite !Nat2Z.inj_add, Hja, Hjk. reflexivity.
Qed.

(** ** ULIDs at concrete clock readings *)

Lemma generateUlid_layout_witness :
  exists r w',
    generateUlid later_world = (Returned r, w') /\
    String.length (value r) = 26%nat /\
    Forall (fun c => is_crockford c = true) (Js.chars (value r)).
Proof. apply (generateUlid_layout later_world). vm_compute. discriminate. Defined.

Lemma generateUlid_time_ordered_witness :
  exists r1 w1' r2 w2',
    generateUlid zero_world = (Returned r1, w1') /\
    generateUlid later_world = (Returned r2, w2') /\
    String.compare (value r1) (value r2) = Lt.
Proof.
  apply (generateUlid_time_ordered zero_world later_world);
    [split; vm_compute; [discriminate | reflexivity] | vm_compute; reflexivity].
Defined.
